(** * verbum: lookup caching, text analysis and lemma based word frequency

    A shallow embedding of [navigium_scraper.py] and [app.py].

    Python strings are sequences of Unicode code points, so a [str] is a
    list of code points ([N]).  The two module level dictionaries
    ([word_cache], [ANALYSIS_CACHE]) are finite maps, threaded explicitly
    through every function that reads or writes them.  The remote
    dictionary site is a parameter of the development: a function from the
    requests made so far and the requested URL to either a transport
    failure or a page. *)

From Stdlib Require Import ZArith Decimal DecimalPos Ascii String.
From stdpp Require Import gmap list sets sorting.

Local Open Scope Z_scope.
Local Open Scope list_scope.

Set Warnings "-clear-no-such-hyp".

(** ** Python strings *)

Abbreviation str := (list N).

(** An ASCII literal as a sequence of code points. *)
Definition lit (s : string) : str :=
  (fun a : ascii => N_of_ascii a) <$> list_ascii_of_string s.

Module Py.

Local Open Scope N_scope.

Definition between (lo hi c : N) : bool := (lo <=? c) && (c <=? hi).

(** [str.isspace] on one code point; the regular expression class [\s]
    on [str] patterns is the same set. *)
Definition is_space (c : N) : bool :=
  between 9 13 c || between 28 32 c || (c =? 133) || (c =? 160)
  || (c =? 5760) || between 8192 8202 c || (c =? 8232) || (c =? 8233)
  || (c =? 8239) || (c =? 8287) || (c =? 12288).

(** *** [str.lower]

    The Unicode data that [str.lower] reads is that of Unicode 14.0.0, the
    version of CPython 3.11.  A row [(lo, hi, step, delta)] of
    [lower_table] gives the simple lower case mapping of the code points
    [lo], [lo + step], ..., [hi]; the rows are sorted and do not overlap.
    [cased_ranges] and [case_ignorable_ranges] list the code points with
    the properties Cased and Case_Ignorable, as inclusive ranges. *)

Definition lower_table : list (N * N * N * Z) :=
  [
    (65, 90, 1, 32%Z); (192, 214, 1, 32%Z); (216, 222, 1, 32%Z);
    (256, 302, 2, 1%Z); (306, 310, 2, 1%Z); (313, 327, 2, 1%Z);
    (330, 374, 2, 1%Z); (376, 376, 1, (-121)%Z); (377, 381, 2, 1%Z);
    (385, 385, 1, 210%Z); (386, 388, 2, 1%Z); (390, 390, 1, 206%Z);
    (391, 391, 1, 1%Z); (393, 394, 1, 205%Z); (395, 395, 1, 1%Z);
    (398, 398, 1, 79%Z); (399, 399, 1, 202%Z); (400, 400, 1, 203%Z);
    (401, 401, 1, 1%Z); (403, 403, 1, 205%Z); (404, 404, 1, 207%Z);
    (406, 406, 1, 211%Z); (407, 407, 1, 209%Z); (408, 408, 1, 1%Z);
    (412, 412, 1, 211%Z); (413, 413, 1, 213%Z); (415, 415, 1, 214%Z);
    (416, 420, 2, 1%Z); (422, 422, 1, 218%Z); (423, 423, 1, 1%Z);
    (425, 425, 1, 218%Z); (428, 428, 1, 1%Z); (430, 430, 1, 218%Z);
    (431, 431, 1, 1%Z); (433, 434, 1, 217%Z); (435, 437, 2, 1%Z);
    (439, 439, 1, 219%Z); (440, 440, 1, 1%Z); (444, 444, 1, 1%Z);
    (452, 452, 1, 2%Z); (453, 453, 1, 1%Z); (455, 455, 1, 2%Z);
    (456, 456, 1, 1%Z); (458, 458, 1, 2%Z); (459, 475, 2, 1%Z);
    (478, 494, 2, 1%Z); (497, 497, 1, 2%Z); (498, 500, 2, 1%Z);
    (502, 502, 1, (-97)%Z); (503, 503, 1, (-56)%Z); (504, 542, 2, 1%Z);
    (544, 544, 1, (-130)%Z); (546, 562, 2, 1%Z); (570, 570, 1, 10795%Z);
    (571, 571, 1, 1%Z); (573, 573, 1, (-163)%Z); (574, 574, 1, 10792%Z);
    (577, 577, 1, 1%Z); (579, 579, 1, (-195)%Z); (580, 580, 1, 69%Z);
    (581, 581, 1, 71%Z); (582, 590, 2, 1%Z); (880, 882, 2, 1%Z);
    (886, 886, 1, 1%Z); (895, 895, 1, 116%Z); (902, 902, 1, 38%Z);
    (904, 906, 1, 37%Z); (908, 908, 1, 64%Z); (910, 911, 1, 63%Z);
    (913, 929, 1, 32%Z); (931, 939, 1, 32%Z); (975, 975, 1, 8%Z);
    (984, 1006, 2, 1%Z); (1012, 1012, 1, (-60)%Z); (1015, 1015, 1, 1%Z);
    (1017, 1017, 1, (-7)%Z); (1018, 1018, 1, 1%Z); (1021, 1023, 1, (-130)%Z);
    (1024, 1039, 1, 80%Z); (1040, 1071, 1, 32%Z); (1120, 1152, 2, 1%Z);
    (1162, 1214, 2, 1%Z); (1216, 1216, 1, 15%Z); (1217, 1229, 2, 1%Z);
    (1232, 1326, 2, 1%Z); (1329, 1366, 1, 48%Z); (4256, 4293, 1, 7264%Z);
    (4295, 4295, 1, 7264%Z); (4301, 4301, 1, 7264%Z); (5024, 5103, 1, 38864%Z);
    (5104, 5109, 1, 8%Z); (7312, 7354, 1, (-3008)%Z); (7357, 7359, 1, (-3008)%Z);
    (7680, 7828, 2, 1%Z); (7838, 7838, 1, (-7615)%Z); (7840, 7934, 2, 1%Z);
    (7944, 7951, 1, (-8)%Z); (7960, 7965, 1, (-8)%Z); (7976, 7983, 1, (-8)%Z);
    (7992, 7999, 1, (-8)%Z); (8008, 8013, 1, (-8)%Z); (8025, 8031, 2, (-8)%Z);
    (8040, 8047, 1, (-8)%Z); (8072, 8079, 1, (-8)%Z); (8088, 8095, 1, (-8)%Z);
    (8104, 8111, 1, (-8)%Z); (8120, 8121, 1, (-8)%Z); (8122, 8123, 1, (-74)%Z);
    (8124, 8124, 1, (-9)%Z); (8136, 8139, 1, (-86)%Z); (8140, 8140, 1, (-9)%Z);
    (8152, 8153, 1, (-8)%Z); (8154, 8155, 1, (-100)%Z); (8168, 8169, 1, (-8)%Z);
    (8170, 8171, 1, (-112)%Z); (8172, 8172, 1, (-7)%Z); (8184, 8185, 1, (-128)%Z);
    (8186, 8187, 1, (-126)%Z); (8188, 8188, 1, (-9)%Z); (8486, 8486, 1, (-7517)%Z);
    (8490, 8490, 1, (-8383)%Z); (8491, 8491, 1, (-8262)%Z); (8498, 8498, 1, 28%Z);
    (8544, 8559, 1, 16%Z); (8579, 8579, 1, 1%Z); (9398, 9423, 1, 26%Z);
    (11264, 11311, 1, 48%Z); (11360, 11360, 1, 1%Z); (11362, 11362, 1, (-10743)%Z);
    (11363, 11363, 1, (-3814)%Z); (11364, 11364, 1, (-10727)%Z); (11367, 11371, 2, 1%Z);
    (11373, 11373, 1, (-10780)%Z); (11374, 11374, 1, (-10749)%Z); (11375, 11375, 1, (-10783)%Z);
    (11376, 11376, 1, (-10782)%Z); (11378, 11378, 1, 1%Z); (11381, 11381, 1, 1%Z);
    (11390, 11391, 1, (-10815)%Z); (11392, 11490, 2, 1%Z); (11499, 11501, 2, 1%Z);
    (11506, 11506, 1, 1%Z); (42560, 42604, 2, 1%Z); (42624, 42650, 2, 1%Z);
    (42786, 42798, 2, 1%Z); (42802, 42862, 2, 1%Z); (42873, 42875, 2, 1%Z);
    (42877, 42877, 1, (-35332)%Z); (42878, 42886, 2, 1%Z); (42891, 42891, 1, 1%Z);
    (42893, 42893, 1, (-42280)%Z); (42896, 42898, 2, 1%Z); (42902, 42920, 2, 1%Z);
    (42922, 42922, 1, (-42308)%Z); (42923, 42923, 1, (-42319)%Z); (42924, 42924, 1, (-42315)%Z);
    (42925, 42925, 1, (-42305)%Z); (42926, 42926, 1, (-42308)%Z); (42928, 42928, 1, (-42258)%Z);
    (42929, 42929, 1, (-42282)%Z); (42930, 42930, 1, (-42261)%Z); (42931, 42931, 1, 928%Z);
    (42932, 42946, 2, 1%Z); (42948, 42948, 1, (-48)%Z); (42949, 42949, 1, (-42307)%Z);
    (42950, 42950, 1, (-35384)%Z); (42951, 42953, 2, 1%Z); (42960, 42960, 1, 1%Z);
    (42966, 42968, 2, 1%Z); (42997, 42997, 1, 1%Z); (65313, 65338, 1, 32%Z);
    (66560, 66599, 1, 40%Z); (66736, 66771, 1, 40%Z); (66928, 66938, 1, 39%Z);
    (66940, 66954, 1, 39%Z); (66956, 66962, 1, 39%Z); (66964, 66965, 1, 39%Z);
    (68736, 68786, 1, 64%Z); (71840, 71871, 1, 32%Z); (93760, 93791, 1, 32%Z);
    (125184, 125217, 1, 34%Z)
  ].

Definition cased_ranges : list (N * N) :=
  [
    (65, 90); (97, 122); (170, 170); (181, 181); (186, 186);
    (192, 214); (216, 246); (248, 442); (444, 447); (452, 659);
    (661, 696); (704, 705); (736, 740); (837, 837); (880, 883);
    (886, 887); (890, 893); (895, 895); (902, 902); (904, 906);
    (908, 908); (910, 929); (931, 1013); (1015, 1153); (1162, 1327);
    (1329, 1366); (1376, 1416); (4256, 4293); (4295, 4295); (4301, 4301);
    (4304, 4346); (4349, 4351); (5024, 5109); (5112, 5117); (7296, 7304);
    (7312, 7354); (7357, 7359); (7424, 7615); (7680, 7957); (7960, 7965);
    (7968, 8005); (8008, 8013); (8016, 8023); (8025, 8025); (8027, 8027);
    (8029, 8029); (8031, 8061); (8064, 8116); (8118, 8124); (8126, 8126);
    (8130, 8132); (8134, 8140); (8144, 8147); (8150, 8155); (8160, 8172);
    (8178, 8180); (8182, 8188); (8305, 8305); (8319, 8319); (8336, 8348);
    (8450, 8450); (8455, 8455); (8458, 8467); (8469, 8469); (8473, 8477);
    (8484, 8484); (8486, 8486); (8488, 8488); (8490, 8493); (8495, 8500);
    (8505, 8505); (8508, 8511); (8517, 8521); (8526, 8526); (8544, 8575);
    (8579, 8580); (9398, 9449); (11264, 11492); (11499, 11502); (11506, 11507);
    (11520, 11557); (11559, 11559); (11565, 11565); (42560, 42605); (42624, 42653);
    (42786, 42887); (42891, 42894); (42896, 42954); (42960, 42961); (42963, 42963);
    (42965, 42969); (42997, 42998); (43000, 43002); (43824, 43866); (43868, 43880);
    (43888, 43967); (64256, 64262); (64275, 64279); (65313, 65338); (65345, 65370);
    (66560, 66639); (66736, 66771); (66776, 66811); (66928, 66938); (66940, 66954);
    (66956, 66962); (66964, 66965); (66967, 66977); (66979, 66993); (66995, 67001);
    (67003, 67004); (67456, 67456); (67459, 67461); (67463, 67504); (67506, 67514);
    (68736, 68786); (68800, 68850); (71840, 71903); (93760, 93823); (119808, 119892);
    (119894, 119964); (119966, 119967); (119970, 119970); (119973, 119974); (119977, 119980);
    (119982, 119993); (119995, 119995); (119997, 120003); (120005, 120069); (120071, 120074);
    (120077, 120084); (120086, 120092); (120094, 120121); (120123, 120126); (120128, 120132);
    (120134, 120134); (120138, 120144); (120146, 120485); (120488, 120512); (120514, 120538);
    (120540, 120570); (120572, 120596); (120598, 120628); (120630, 120654); (120656, 120686);
    (120688, 120712); (120714, 120744); (120746, 120770); (120772, 120779); (122624, 122633);
    (122635, 122654); (125184, 125251); (127280, 127305); (127312, 127337); (127344, 127369)
  ].

Definition case_ignorable_ranges : list (N * N) :=
  [
    (39, 39); (46, 46); (58, 58); (94, 94); (96, 96);
    (168, 168); (173, 173); (175, 175); (180, 180); (183, 184);
    (688, 879); (884, 885); (890, 890); (900, 901); (903, 903);
    (1155, 1161); (1369, 1369); (1375, 1375); (1425, 1469); (1471, 1471);
    (1473, 1474); (1476, 1477); (1479, 1479); (1524, 1524); (1536, 1541);
    (1552, 1562); (1564, 1564); (1600, 1600); (1611, 1631); (1648, 1648);
    (1750, 1757); (1759, 1768); (1770, 1773); (1807, 1807); (1809, 1809);
    (1840, 1866); (1958, 1968); (2027, 2037); (2042, 2042); (2045, 2045);
    (2070, 2093); (2137, 2139); (2184, 2184); (2192, 2193); (2200, 2207);
    (2249, 2306); (2362, 2362); (2364, 2364); (2369, 2376); (2381, 2381);
    (2385, 2391); (2402, 2403); (2417, 2417); (2433, 2433); (2492, 2492);
    (2497, 2500); (2509, 2509); (2530, 2531); (2558, 2558); (2561, 2562);
    (2620, 2620); (2625, 2626); (2631, 2632); (2635, 2637); (2641, 2641);
    (2672, 2673); (2677, 2677); (2689, 2690); (2748, 2748); (2753, 2757);
    (2759, 2760); (2765, 2765); (2786, 2787); (2810, 2815); (2817, 2817);
    (2876, 2876); (2879, 2879); (2881, 2884); (2893, 2893); (2901, 2902);
    (2914, 2915); (2946, 2946); (3008, 3008); (3021, 3021); (3072, 3072);
    (3076, 3076); (3132, 3132); (3134, 3136); (3142, 3144); (3146, 3149);
    (3157, 3158); (3170, 3171); (3201, 3201); (3260, 3260); (3263, 3263);
    (3270, 3270); (3276, 3277); (3298, 3299); (3328, 3329); (3387, 3388);
    (3393, 3396); (3405, 3405); (3426, 3427); (3457, 3457); (3530, 3530);
    (3538, 3540); (3542, 3542); (3633, 3633); (3636, 3642); (3654, 3662);
    (3761, 3761); (3764, 3772); (3782, 3782); (3784, 3789); (3864, 3865);
    (3893, 3893); (3895, 3895); (3897, 3897); (3953, 3966); (3968, 3972);
    (3974, 3975); (3981, 3991); (3993, 4028); (4038, 4038); (4141, 4144);
    (4146, 4151); (4153, 4154); (4157, 4158); (4184, 4185); (4190, 4192);
    (4209, 4212); (4226, 4226); (4229, 4230); (4237, 4237); (4253, 4253);
    (4348, 4348); (4957, 4959); (5906, 5908); (5938, 5939); (5970, 5971);
    (6002, 6003); (6068, 6069); (6071, 6077); (6086, 6086); (6089, 6099);
    (6103, 6103); (6109, 6109); (6155, 6159); (6211, 6211); (6277, 6278);
    (6313, 6313); (6432, 6434); (6439, 6440); (6450, 6450); (6457, 6459);
    (6679, 6680); (6683, 6683); (6742, 6742); (6744, 6750); (6752, 6752);
    (6754, 6754); (6757, 6764); (6771, 6780); (6783, 6783); (6823, 6823);
    (6832, 6862); (6912, 6915); (6964, 6964); (6966, 6970); (6972, 6972);
    (6978, 6978); (7019, 7027); (7040, 7041); (7074, 7077); (7080, 7081);
    (7083, 7085); (7142, 7142); (7144, 7145); (7149, 7149); (7151, 7153);
    (7212, 7219); (7222, 7223); (7288, 7293); (7376, 7378); (7380, 7392);
    (7394, 7400); (7405, 7405); (7412, 7412); (7416, 7417); (7468, 7530);
    (7544, 7544); (7579, 7679); (8125, 8125); (8127, 8129); (8141, 8143);
    (8157, 8159); (8173, 8175); (8189, 8190); (8203, 8207); (8216, 8217);
    (8228, 8228); (8231, 8231); (8234, 8238); (8288, 8292); (8294, 8303);
    (8305, 8305); (8319, 8319); (8336, 8348); (8400, 8432); (11388, 11389);
    (11503, 11505); (11631, 11631); (11647, 11647); (11744, 11775); (11823, 11823);
    (12293, 12293); (12330, 12333); (12337, 12341); (12347, 12347); (12441, 12446);
    (12540, 12542); (40981, 40981); (42232, 42237); (42508, 42508); (42607, 42610);
    (42612, 42621); (42623, 42623); (42652, 42655); (42736, 42737); (42752, 42785);
    (42864, 42864); (42888, 42890); (42994, 42996); (43000, 43001); (43010, 43010);
    (43014, 43014); (43019, 43019); (43045, 43046); (43052, 43052); (43204, 43205);
    (43232, 43249); (43263, 43263); (43302, 43309); (43335, 43345); (43392, 43394);
    (43443, 43443); (43446, 43449); (43452, 43453); (43471, 43471); (43493, 43494);
    (43561, 43566); (43569, 43570); (43573, 43574); (43587, 43587); (43596, 43596);
    (43632, 43632); (43644, 43644); (43696, 43696); (43698, 43700); (43703, 43704);
    (43710, 43711); (43713, 43713); (43741, 43741); (43756, 43757); (43763, 43764);
    (43766, 43766); (43867, 43871); (43881, 43883); (44005, 44005); (44008, 44008);
    (44013, 44013); (64286, 64286); (64434, 64450); (65024, 65039); (65043, 65043);
    (65056, 65071); (65106, 65106); (65109, 65109); (65279, 65279); (65287, 65287);
    (65294, 65294); (65306, 65306); (65342, 65342); (65344, 65344); (65392, 65392);
    (65438, 65439); (65507, 65507); (65529, 65531); (66045, 66045); (66272, 66272);
    (66422, 66426); (67456, 67461); (67463, 67504); (67506, 67514); (68097, 68099);
    (68101, 68102); (68108, 68111); (68152, 68154); (68159, 68159); (68325, 68326);
    (68900, 68903); (69291, 69292); (69446, 69456); (69506, 69509); (69633, 69633);
    (69688, 69702); (69744, 69744); (69747, 69748); (69759, 69761); (69811, 69814);
    (69817, 69818); (69821, 69821); (69826, 69826); (69837, 69837); (69888, 69890);
    (69927, 69931); (69933, 69940); (70003, 70003); (70016, 70017); (70070, 70078);
    (70089, 70092); (70095, 70095); (70191, 70193); (70196, 70196); (70198, 70199);
    (70206, 70206); (70367, 70367); (70371, 70378); (70400, 70401); (70459, 70460);
    (70464, 70464); (70502, 70508); (70512, 70516); (70712, 70719); (70722, 70724);
    (70726, 70726); (70750, 70750); (70835, 70840); (70842, 70842); (70847, 70848);
    (70850, 70851); (71090, 71093); (71100, 71101); (71103, 71104); (71132, 71133);
    (71219, 71226); (71229, 71229); (71231, 71232); (71339, 71339); (71341, 71341);
    (71344, 71349); (71351, 71351); (71453, 71455); (71458, 71461); (71463, 71467);
    (71727, 71735); (71737, 71738); (71995, 71996); (71998, 71998); (72003, 72003);
    (72148, 72151); (72154, 72155); (72160, 72160); (72193, 72202); (72243, 72248);
    (72251, 72254); (72263, 72263); (72273, 72278); (72281, 72283); (72330, 72342);
    (72344, 72345); (72752, 72758); (72760, 72765); (72767, 72767); (72850, 72871);
    (72874, 72880); (72882, 72883); (72885, 72886); (73009, 73014); (73018, 73018);
    (73020, 73021); (73023, 73029); (73031, 73031); (73104, 73105); (73109, 73109);
    (73111, 73111); (73459, 73460); (78896, 78904); (92912, 92916); (92976, 92982);
    (92992, 92995); (94031, 94031); (94095, 94111); (94176, 94177); (94179, 94180);
    (110576, 110579); (110581, 110587); (110589, 110590); (113821, 113822); (113824, 113827);
    (118528, 118573); (118576, 118598); (119143, 119145); (119155, 119170); (119173, 119179);
    (119210, 119213); (119362, 119364); (121344, 121398); (121403, 121452); (121461, 121461);
    (121476, 121476); (121499, 121503); (121505, 121519); (122880, 122886); (122888, 122904);
    (122907, 122913); (122915, 122916); (122918, 122922); (123184, 123197); (123566, 123566);
    (123628, 123631); (125136, 125142); (125252, 125259); (127995, 127999); (917505, 917505);
    (917536, 917631); (917760, 917999)
  ].

(** Membership in a list of inclusive ranges, sorted by their lower ends. *)
Fixpoint in_ranges (rs : list (N * N)) (c : N) : bool :=
  match rs with
  | [] => false
  | (lo, hi) :: rs' =>
      if c <? lo then false else if c <=? hi then true else in_ranges rs' c
  end.

(** The entry [(lo, hi, step, delta)] maps the code points [lo],
    [lo + step], ... up to [hi] to themselves plus [delta]. *)
Fixpoint lower_lookup (t : list (N * N * N * Z)) (c : N) : option N :=
  match t with
  | [] => None
  | (lo, hi, step, delta) :: t' =>
      if c <? lo then None
      else if (c <=? hi) && ((c - lo) mod step =? 0)
           then Some (Z.to_N (Z.of_N c + delta))
           else lower_lookup t' c
  end.

(** The lower case form of one code point, out of context.  U+0130 is the
    one code point whose lower case form has two code points. *)
Definition lower_char (c : N) : str :=
  if c =? 304 then [105; 775]
  else match lower_lookup lower_table c with
       | Some d => [d]
       | None => [c]
       end.

Definition is_cased (c : N) : bool := in_ranges cased_ranges c.

Definition is_case_ignorable (c : N) : bool :=
  in_ranges case_ignorable_ranges c.

(** Whether a cased code point follows, after any number of case-ignorable
    ones. *)
Fixpoint followed_by_cased (s : str) : bool :=
  match s with
  | [] => false
  | c :: s' =>
      if is_case_ignorable c then followed_by_cased s' else is_cased c
  end.

(** [str.lower] from some position of the string on.  [after_cased]
    tells whether the code points before the position end in a cased one
    followed by case-ignorable ones only.  The capital sigma U+03A3 becomes
    the final sigma U+03C2 when it follows a cased code point and none
    follows it, and the small sigma U+03C3 otherwise. *)
Fixpoint lower_from (after_cased : bool) (s : str) : str :=
  match s with
  | [] => []
  | c :: s' =>
      (if c =? 931
       then [if after_cased && negb (followed_by_cased s') then 962 else 963]
       else lower_char c)
      ++ lower_from (if is_case_ignorable c then after_cased else is_cased c) s'
  end.

(** [s.lower()] *)
Definition lower (s : str) : str := lower_from false s.

(** [s.replace(old, new)] for a one code point [old]. *)
Definition replace (old : N) (new : str) (s : str) : str :=
  s ≫= (fun c => if c =? old then new else [c]).

Fixpoint lstrip (s : str) : str :=
  match s with
  | c :: s' => if is_space c then lstrip s' else s
  | [] => []
  end.

Definition rstrip (s : str) : str := reverse (lstrip (reverse s)).

(** [s.strip()] *)
Definition strip (s : str) : str := rstrip (lstrip s).

(** [re.sub(r'\s+', ' ', s)]: every maximal run of white space becomes
    one space.  [in_run] tells that the previous code point was white
    space. *)
Fixpoint squeeze (in_run : bool) (s : str) : str :=
  match s with
  | [] => []
  | c :: s' =>
      if is_space c
      then (if in_run then squeeze true s' else 32 :: squeeze true s')
      else c :: squeeze false s'
  end.

(** The run of code points satisfying [p] that starts at the head of [s]
    (empty when the head does not satisfy [p]), and the later runs. *)
Definition push_run (r : str) (rs : list str) : list str :=
  match r with [] => rs | _ :: _ => r :: rs end.

Fixpoint scan (p : N -> bool) (s : str) : str * list str :=
  match s with
  | [] => ([], [])
  | c :: s' =>
      let '(r, rs) := scan p s' in
      if p c then (c :: r, rs) else ([], push_run r rs)
  end.

(** The maximal non-empty runs of code points satisfying [p], in order:
    [re.findall('[...]+', s)] for a character class [p]. *)
Definition runs (p : N -> bool) (s : str) : list str :=
  let '(r, rs) := scan p s in push_run r rs.

(** [s.split()]: the maximal runs of non white space. *)
Definition split_ws (s : str) : list str :=
  runs (fun c => negb (is_space c)) s.

(** [s.split(sep)] for a one code point separator: empty pieces are
    kept, and the result is never empty. *)
Fixpoint split_on (sep : N) (s : str) : list str :=
  match s with
  | [] => [[]]
  | c :: s' =>
      match split_on sep s' with
      | piece :: rest =>
          if c =? sep then [] :: piece :: rest else (c :: piece) :: rest
      | [] => [[c]]
      end
  end.

(** [s.split(sep, 1)[1]] when [sep] occurs in [s]: what follows the
    first separator. *)
Fixpoint after_first (sep : N) (s : str) : option str :=
  match s with
  | [] => None
  | c :: s' => if c =? sep then Some s' else after_first sep s'
  end.

(** [sep.join(l)] *)
Fixpoint join (sep : str) (l : list str) : str :=
  match l with
  | [] => []
  | [x] => x
  | x :: l' => x ++ sep ++ join sep l'
  end.

(** Truth value of a string or of a list: non-empty. *)
Definition truthy {A} (l : list A) : bool :=
  match l with [] => false | _ :: _ => true end.

Fixpoint uint_str (d : Decimal.uint) : str :=
  match d with
  | Decimal.Nil => []
  | Decimal.D0 d => 48 :: uint_str d
  | Decimal.D1 d => 49 :: uint_str d
  | Decimal.D2 d => 50 :: uint_str d
  | Decimal.D3 d => 51 :: uint_str d
  | Decimal.D4 d => 52 :: uint_str d
  | Decimal.D5 d => 53 :: uint_str d
  | Decimal.D6 d => 54 :: uint_str d
  | Decimal.D7 d => 55 :: uint_str d
  | Decimal.D8 d => 56 :: uint_str d
  | Decimal.D9 d => 57 :: uint_str d
  end.

(** [f"{z}"] for an integer. *)
Definition int_str (z : Z) : str :=
  match Z.to_int z with
  | Decimal.Pos d => uint_str d
  | Decimal.Neg d => 45 :: uint_str d
  end.

(** [l[i]] with Python's negative indices; [None] is [IndexError]. *)
Definition index {A} (l : list A) (i : Z) : option A :=
  if (0 <=? i)%Z then l !! Z.to_nat i
  else if (- Z.of_nat (length l) <=? i)%Z
       then l !! Z.to_nat (Z.of_nat (length l) + i)
       else None.

End Py.

(** ** navigium_scraper.py: text preparation *)

Definition BASE_URL : str := lit "https://www.navigium.de/latein-woerterbuch".

Definition clean_text (text : str) : str :=
  if Py.truthy text then Py.strip (Py.squeeze false text) else [].

(** The code points removed by
    [re.sub(r'[\x00-\x08\x0b\x0c\x0e-\x1f\x7f-\x9f]', '', text)]. *)
Definition is_control (c : N) : bool :=
  (Py.between 0 8 c || (c =? 11) || (c =? 12) || Py.between 14 31 c
   || Py.between 127 159 c)%N.

(** The [replacements] dictionary, in insertion order. *)
Definition replacements : list (N * str) :=
  [ (8216%N, lit "'"); (8217%N, lit "'");
    (8220%N, [34%N]); (8221%N, [34%N]);
    (8212%N, lit "-"); (8211%N, lit "-");
    (160%N, lit " ");
    (8230%N, lit "...") ].

Definition preprocess_text (text : str) : str :=
  if Py.truthy text then
    let text := foldl (fun t '(old, new) => Py.replace old new t) text replacements in
    let text := filter (fun c => is_control c = false) text in
    Py.strip (Py.squeeze false text)
  else [].

(** The character class [[a-zA-ZäöüÄÖÜāēīōūĀĒĪŌŪ]]. *)
Definition is_word_char (c : N) : bool :=
  (Py.between 97 122 c || Py.between 65 90 c
   || (c =? 228) || (c =? 246) || (c =? 252)
   || (c =? 196) || (c =? 214) || (c =? 220)
   || (c =? 257) || (c =? 275) || (c =? 299) || (c =? 333) || (c =? 363)
   || (c =? 256) || (c =? 274) || (c =? 298) || (c =? 332) || (c =? 362))%N.

(** [re.findall(r'[a-zA-Z...]+', text.lower())] *)
Definition words_of (text : str) : list str :=
  Py.runs is_word_char (Py.lower text).

(** The deduplication loop of [analyze_text]: [seen] is the set of words
    added so far. *)
Fixpoint dedup_loop (seen : gset str) (words : list str) : list str :=
  match words with
  | [] => []
  | word :: words' =>
      if bool_decide (word ∉ seen) && (2 <=? length word)%nat
      then word :: dedup_loop ({[word]} ∪ seen) words'
      else dedup_loop seen words'
  end.

Definition unique_words_of (words : list str) : list str := dedup_loop ∅ words.

(** ** navigium_scraper.py: records *)

(** An entry of a record's ['alternatives'] list. *)
Record alternative := Alternative { alt_nr : Z; alt_lemma : option str }.

(** The dictionary built by [parse_result_container] and [lookup_word].
    A key that some of the dictionaries lack (['word_matches'], ['url'],
    ['alternatives'], ['error']) is an optional field. *)
Record LookupRecord := LookupRecordOf {
  word_form : str;
  nr : Z;
  lemma : option str;
  grammar : option str;
  translation : option str;
  found : bool;
  word_matches : option bool;
  url : option str;
  alternatives : option (list alternative);
  error : option str
}.

(** ** The page, as seen through the queries the scraper makes *)

(** [div.lemma]: the text of its first [span] and of its [i.wortart]. *)
Record lemma_div := LemmaDiv { lemma_span : option str; wortart : option str }.

(** [div.innen]: its [div.lemma]; the first [div] below it that holds a
    [u] tag, as the text of that [u] and the text of the [div]; its first
    [ol] as the [.bedeutung] text of each [li]; its whole text. *)
Record innen := Innen {
  inn_lemma : option lemma_div;
  inn_u_div : option (str * str);
  inn_ol : option (list (option str));
  inn_text : str
}.

(** [div.umgebend] *)
Record container := Container { inner : option innen }.

(** A fetched page: all [div.umgebend] of the page; the first match (group
    1) of the three grammar patterns in the page text, tried in order; the
    [div.umgebend] siblings that follow an [h3.ergebnis] header containing
    ['lat. Formen'], up to the next [h3]. *)
Record soup := Soup {
  umgebend : list container;
  grammar_match : option str;
  forms_containers : list container
}.

Definition opt_truthy (o : option str) : bool :=
  match o with Some s => Py.truthy s | None => false end.

Definition parse_result_container (c : container) (word : str) (nr : Z)
  : LookupRecord :=
  match inner c with
  | None =>
      {| word_form := word; nr := nr; lemma := None; grammar := None;
         translation := None; found := false; word_matches := Some false;
         url := None; alternatives := None; error := None |}
  | Some inn =>
      (* lemma and found *)
      let '(lemma0, found0) :=
        match inn_lemma inn with
        | Some ld =>
            let '(l, f) :=
              match lemma_span ld with
              | Some t => (Some (clean_text t), true)
              | None => (None, false)
              end in
            match wortart ld with
            | Some wa =>
                if opt_truthy l
                then (((fun x => x ++ lit " " ++ clean_text wa) <$> l), f)
                else (l, f)
            | None => (l, f)
            end
        | None => (None, false)
        end in
      (* grammar and word_matches, from the first div with a u tag *)
      let word_lower := Py.lower word in
      let '(matches0, grammar0) :=
        match inn_u_div inn with
        | Some (u_text, div_text) =>
            let underlined_word := Py.lower (clean_text u_text) in
            (bool_decide (underlined_word = word_lower),
             Py.strip <$> Py.after_first 58%N (clean_text div_text))
        | None => (false, None)
        end in
      (* translation, from at most five list items *)
      let translation0 :=
        match inn_ol inn with
        | Some lis =>
            let meanings :=
              omap (fun li =>
                      match li with
                      | Some b =>
                          let text := clean_text b in
                          if Py.truthy text then Some text else None
                      | None => None
                      end) (take 5 lis) in
            if Py.truthy meanings then Some (Py.join (lit "; ") meanings)
            else None
        | None => None
        end in
      let translation1 :=
        if opt_truthy translation0 then translation0
        else
          let text := clean_text (inn_text inn) in
          match filter (fun line => bool_decide (44%N ∈ line) && (length line <? 150)%nat = true)
                       (Py.split_on 10%N text) with
          | line :: _ => Some (clean_text line)
          | [] => translation0
          end in
      {| word_form := word; nr := nr; lemma := lemma0; grammar := grammar0;
         translation := translation1; found := found0;
         word_matches := Some matches0;
         url := None; alternatives := None; error := None |}
  end.

(** ** navigium_scraper.py: the word cache and the lookups *)

(** A value of [word_cache]: the dictionary stored by [lookup_word] or the
    list stored by [lookup_word_all_meanings].  The cache is one Python
    dictionary for both, and a function returns whatever it finds under
    its key. *)
Inductive cache_value :=
  | CRecord (r : LookupRecord)
  | CList (l : list LookupRecord).

(** The exceptions the embedded code can raise. *)
Inductive exn :=
  | IndexError
  | AttributeError
  | UnicodeEncodeError.

Inductive outcome (A : Type) :=
  | Ok (a : A)
  | Raise (e : exn).
Arguments Ok {A} a.
Arguments Raise {A} e.

(** The state the scraper module works on: the in-memory [word_cache] and
    the URLs requested from the site so far, oldest first. *)
Record world := World {
  word_cache : gmap str cache_value;
  requests : list str
}.

Definition cache_put (key : str) (v : cache_value) (w : world) : world :=
  {| word_cache := <[key := v]> (word_cache w); requests := requests w |}.

(** [f"{word.lower()}_{nr}"] *)
Definition lookup_key (word : str) (nr : Z) : str :=
  Py.lower word ++ lit "_" ++ Py.int_str nr.

(** [f"all_{word}"] *)
Definition all_key (word : str) : str := lit "all_" ++ word.

(** [f"{BASE_URL}/{word}?wb=gross&nr={nr}"] *)
Definition lookup_url (word : str) (nr : Z) : str :=
  BASE_URL ++ lit "/" ++ word ++ lit "?wb=gross&nr=" ++ Py.int_str nr.

(** [f"{BASE_URL}/{word}?wb=gross"] *)
Definition all_url (word : str) : str :=
  BASE_URL ++ lit "/" ++ word ++ lit "?wb=gross".

Definition has_key {A} (o : option A) : nat :=
  match o with Some _ => 1%nat | None => 0%nat end.

(** [result['url'] = u; result['alternatives'] = alts] *)
Definition set_url_alternatives (result : LookupRecord) (u : str)
    (alts : list alternative) : LookupRecord :=
  {| word_form := word_form result; nr := nr result;
     lemma := lemma result; grammar := grammar result;
     translation := translation result; found := found result;
     word_matches := word_matches result;
     url := Some u; alternatives := Some alts; error := error result |}.

(** The ['nr'] entry of a record, for use where [nr] names an argument. *)
Definition record_nr (r : LookupRecord) : Z := nr r.

(** An entry of the list [analyze_text] returns. *)
Record WordAnalysis := WordAnalysisOf {
  word : str;
  meanings : cache_value;
  has_multiple : bool
}.

(** Number of keys of a record's dictionary. *)
Definition dict_len (r : LookupRecord) : nat :=
  (6 + has_key (word_matches r) + has_key (url r)
   + has_key (alternatives r) + has_key (error r))%nat.

(** [len(v)] *)
Definition py_len (v : cache_value) : nat :=
  match v with CRecord r => dict_len r | CList l => length l end.

(** Truth value of a cached value: a non-empty dictionary or list. *)
Definition value_truthy (v : cache_value) : bool := (0 <? py_len v)%nat.

Section Scraper.

(** The dictionary site: given the requests made before and the URL,
    either a transport failure ([requests.RequestException], with its
    message) or the page. *)
Variable navigium : list str -> str -> str + soup.

Definition fetch_page (url : str) (w : world) : (str + soup) * world :=
  (navigium (requests w) url,
   {| word_cache := word_cache w; requests := requests w ++ [url] |}).

(** The ['alternatives'] of [lookup_word]: the other containers that
    parse to a found record, numbered from 1. *)
Definition collect_alternatives (containers : list container) (word : str)
    (index : Z) : list alternative :=
  omap (fun '(i, cont) =>
          if bool_decide (Z.of_nat i ≠ index) then
            let alt_result := parse_result_container cont word (Z.of_nat i + 1) in
            if found alt_result
            then Some {| alt_nr := Z.of_nat i + 1; alt_lemma := lemma alt_result |}
            else None
          else None)
       (imap pair containers).

(** The body of the [try] block of [lookup_word] after the page has been
    fetched, up to the record it builds. *)
Definition lookup_result (page : soup) (word : str) (nr : Z) (url : str)
  : outcome LookupRecord :=
  let containers := umgebend page in
  if Py.truthy containers then
    let index := Z.min (nr - 1) (Z.of_nat (length containers) - 1) in
    match Py.index containers index with
    | None => Raise IndexError
    | Some cont =>
        let result := parse_result_container cont word nr in
        Ok (set_url_alternatives result url
              (if (1 <? length containers)%nat
               then collect_alternatives containers word index
               else []))
    end
  else
    Ok {| word_form := word; nr := nr; lemma := None;
          grammar := grammar_match page;
          translation := None;
          found := bool_decide (is_Some (grammar_match page));
          word_matches := None;
          url := Some url; alternatives := Some []; error := None |}.

(** The record returned from the [except requests.RequestException]
    branch of [lookup_word]. *)
Definition error_record (word : str) (nr : Z) (e : str) : LookupRecord :=
  {| word_form := word; nr := nr; lemma := None; grammar := None;
     translation := None; found := false; word_matches := None;
     url := Some (lookup_url word nr); alternatives := Some [];
     error := Some e |}.

Definition lookup_word (word : str) (nr : Z) (w : world)
  : outcome cache_value * world :=
  let cache_key := lookup_key word nr in
  match word_cache w !! cache_key with
  | Some v => (Ok v, w)
  | None =>
      let url := lookup_url word nr in
      match fetch_page url w with
      | (inr page, w1) =>
          match lookup_result page word nr url with
          | Ok result =>
              (Ok (CRecord result), cache_put cache_key (CRecord result) w1)
          | Raise e => (Raise e, w1)
          end
      | (inl e, w1) => (Ok (CRecord (error_record word nr e)), w1)
      end
  end.

(** The records [lookup_word_all_meanings] builds from the containers of
    the forms section: those that parse to a found record. *)
Definition all_results (containers : list container) (word : str)
  : list LookupRecord :=
  omap (fun '(i, cont) =>
          let result := parse_result_container cont word (Z.of_nat i + 1) in
          if found result then
            Some (set_url_alternatives result
                    (lookup_url word (Z.of_nat i + 1)) [])
          else None)
       (imap pair containers).

Definition lookup_word_all_meanings (word : str) (w : world)
  : cache_value * world :=
  let url := all_url word in
  let cache_key := all_key word in
  match word_cache w !! cache_key with
  | Some v => (v, w)
  | None =>
      match fetch_page url w with
      | (inr page, w1) =>
          if Py.truthy (forms_containers page) then
            let results := all_results (forms_containers page) word in
            (CList results, cache_put cache_key (CList results) w1)
          else (CList [], cache_put cache_key (CList []) w1)
      | (inl _, w1) => (CList [], w1)
      end
  end.

(** *** analyze_text *)

Definition lookup_word_wrapper (fetch_all_meanings : bool) (word : str)
    (w : world) : outcome (str * cache_value) * world :=
  if fetch_all_meanings then
    let '(v, w1) := lookup_word_all_meanings word w in (Ok (word, v), w1)
  else
    match lookup_word word 1 w with
    | (Ok (CRecord result), w1) =>
        (Ok (word, CList (if found result then [result] else [])), w1)
    | (Ok (CList _), w1) => (Raise AttributeError, w1)
    | (Raise e, w1) => (Raise e, w1)
    end.

(** The tasks of the thread pool, run to completion one after the other
    in the order [order]; the outcomes are listed in that order, which
    is the order [as_completed] yields them in. *)
Fixpoint run_tasks (fetch_all_meanings : bool) (order : list str) (w : world)
  : list (outcome (str * cache_value)) * world :=
  match order with
  | [] => ([], w)
  | word :: order' =>
      let '(o, w1) := lookup_word_wrapper fetch_all_meanings word w in
      let '(os, w2) := run_tasks fetch_all_meanings order' w1 in
      (o :: os, w2)
  end.

(** The loop over [as_completed(futures)]: a completed task with a
    truthy result is entered in [results_dict], a task that raised is
    passed over. *)
Definition collect (results_dict : gmap str cache_value)
    (o : outcome (str * cache_value)) : gmap str cache_value :=
  match o with
  | Ok (word, word_results) =>
      if value_truthy word_results
      then <[word := word_results]> results_dict
      else results_dict
  | Raise _ => results_dict
  end.

(** The last loop of [analyze_text]. *)
Definition assemble (unique_words : list str)
    (results_dict : gmap str cache_value) : list WordAnalysis :=
  omap (fun word =>
          match results_dict !! word with
          | Some v =>
              Some {| word := word; meanings := v;
                      has_multiple := (1 <? py_len v)%nat |}
          | None => None
          end) unique_words.

(** The order in which the pool completes the submitted tasks. *)
Variable pool : list str -> list str.

(** The tasks run in the order [pool unique_words]; [save_cache()] writes
    [word_cache] to its file and leaves the state in memory as it is, so
    it does not appear here. *)
Definition analyze_text (text : str) (fetch_all_meanings : bool) (w : world)
  : list WordAnalysis * world :=
  let text := preprocess_text text in
  let words := words_of text in
  let unique_words := unique_words_of words in
  let '(completed, w1) := run_tasks fetch_all_meanings (pool unique_words) w in
  let results_dict := foldl collect ∅ completed in
  (assemble unique_words results_dict, w1).

End Scraper.

(** ** app.py *)

(** The inner [normalize] of [api_word_frequency]: lower case, then the
    macron vowels replaced by the plain ones. *)
Definition strip_macron (c : N) : N :=
  (if c =? 257 then 97 else if c =? 275 then 101 else if c =? 299 then 105
   else if c =? 333 then 111 else if c =? 363 then 117
   else if c =? 256 then 65 else if c =? 274 then 69 else if c =? 298 then 73
   else if c =? 332 then 79 else if c =? 362 then 85 else c)%N.

Definition normalize (s : str) : str := strip_macron <$> Py.lower s.

(** The loop [for m in meanings: if m.get('lemma'):
    lemmas.add(normalize(m['lemma'].split()[0]))] over a list of records.
    A lemma made of white space only has no first token: [IndexError]. *)
Fixpoint add_lemmas (lemmas : gset str) (ms : list LookupRecord)
  : outcome (gset str) :=
  match ms with
  | [] => Ok lemmas
  | m :: ms' =>
      if opt_truthy (lemma m) then
        match Py.split_ws (default [] (lemma m)) with
        | lemma_first :: _ => add_lemmas ({[normalize lemma_first]} ∪ lemmas) ms'
        | [] => Raise IndexError
        end
      else add_lemmas lemmas ms'
  end.

(** The same loop over a cached value.  Iterating over a dictionary yields
    its keys, which are strings and have no [get]: [AttributeError]. *)
Definition collect_lemmas (v : cache_value) : outcome (gset str) :=
  match v with
  | CList ms => add_lemmas ∅ ms
  | CRecord _ => Raise AttributeError
  end.

(** [lemmas.add(normalize(word)); return lemmas] *)
Definition with_self (word : str) (o : outcome (gset str)) : outcome (gset str) :=
  match o with
  | Ok lemmas => Ok ({[normalize word]} ∪ lemmas)
  | Raise e => Raise e
  end.

(** The items a loop [if cached_analysis: for item in cached_analysis]
    runs over. *)
Definition analysis_items (cached_analysis : option (list WordAnalysis))
  : list WordAnalysis :=
  default [] cached_analysis.

(** The ['word'] entry of an item, for use where [word] names an argument. *)
Definition item_word (item : WordAnalysis) : str := word item.

(** [for item in cached_analysis: if item['word'] == w]: the first item
    for [w], if any. *)
Definition find_item (cached_analysis : option (list WordAnalysis)) (w : str)
  : option WordAnalysis :=
  find (fun item => bool_decide (word item = w)) (analysis_items cached_analysis).

Inductive response (A : Type) :=
  | Status400 (message : str)
  | Status200 (body : A).
Arguments Status400 {A} message.
Arguments Status200 {A} body.

(** Request and response bodies; a missing key is [None].  The value of
    ['text'] is a JSON string and that of ['search_words'] a JSON array of
    strings. *)
Record analyze_request := AnalyzeRequest { a_text : option str }.

Record analyze_body := AnalyzeBody {
  original_text : str;
  word_count : nat;
  results : list WordAnalysis
}.

Record frequency_request := FrequencyRequest {
  f_text : option str;
  f_search_words : option (list str)
}.

Record word_datum := WordDatum {
  search_word : str;
  lemmas : list str;
  positions : list nat;
  count : nat
}.

Record frequency_body := FrequencyBody {
  total_words : nat;
  word_data : list word_datum
}.

(** The state of the server process: the scraper's state and
    [ANALYSIS_CACHE]. *)
Record server := Server {
  scraper : world;
  ANALYSIS_CACHE : gmap str (list WordAnalysis)
}.

(** A surrogate code point.  A JSON body can carry one, as an unpaired
    escape such as [\ud800]. *)
Definition is_surrogate (c : N) : bool := Py.between 55296 57343 c.

(** The UTF-8 bytes of one code point; a surrogate has none. *)
Definition encode_char (c : N) : outcome (list N) :=
  (if c <? 128 then Ok [c]
   else if c <? 2048 then Ok [192 + c / 64; 128 + c mod 64]
   else if is_surrogate c then Raise UnicodeEncodeError
   else if c <? 65536
        then Ok [224 + c / 4096; 128 + (c / 64) mod 64; 128 + c mod 64]
        else Ok [240 + c / 262144; 128 + (c / 4096) mod 64;
                 128 + (c / 64) mod 64; 128 + c mod 64])%N.

(** [text.encode('utf-8')], as the list of the byte values. *)
Fixpoint encode_utf8 (text : str) : outcome (list N) :=
  match text with
  | [] => Ok []
  | c :: text' =>
      match encode_char c with
      | Raise e => Raise e
      | Ok b =>
          match encode_utf8 text' with
          | Ok bs => Ok (b ++ bs)
          | Raise e => Raise e
          end
      end
  end.

Section App.

Variable navigium : list str -> str -> str + soup.
Variable pool : list str -> list str.

(** [hashlib.sha256(data).hexdigest()] of a byte string. *)
Variable sha256 : list N -> str.

Definition get_text_hash (text : str) : outcome str :=
  match encode_utf8 text with
  | Ok data => Ok (sha256 data)
  | Raise e => Raise e
  end.

Definition api_lookup (word : str) (nr : Z) (s : server)
  : outcome cache_value * server :=
  let '(o, w1) := lookup_word navigium word nr (scraper s) in
  (o, {| scraper := w1; ANALYSIS_CACHE := ANALYSIS_CACHE s |}).

Definition api_analyze (data : option analyze_request) (s : server)
  : outcome (response analyze_body) * server :=
  match data ≫= a_text with
  | None => (Ok (Status400 (lit "Kein Text angegeben")), s)
  | Some text =>
      let text := preprocess_text text in
      if Py.truthy (Py.strip text) then
        match get_text_hash text with
        | Raise e => (Raise e, s)
        | Ok text_hash =>
            let '(results, s1) :=
              match ANALYSIS_CACHE s !! text_hash with
              | Some results => (results, s)
              | None =>
                  let '(results, w1) :=
                    analyze_text navigium pool text true (scraper s) in
                  (results,
                   {| scraper := w1;
                      ANALYSIS_CACHE :=
                        <[text_hash := results]> (ANALYSIS_CACHE s) |})
              end in
            (Ok (Status200 {| original_text := text;
                              word_count := length results;
                              results := results |}), s1)
        end
      else (Ok (Status400 (lit "Text ist leer")), s)
  end.

(** *** api_word_frequency *)

Section WordFrequency.

(** [ANALYSIS_CACHE.get(text_hash)] *)
Variable cached_analysis : option (list WordAnalysis).

Definition get_lemmas (word : str) (w : world) : outcome (gset str) * world :=
  match find_item cached_analysis word with
  | Some item => (with_self word (collect_lemmas (meanings item)), w)
  | None =>
      let '(meanings, w1) :=
        lookup_word_all_meanings navigium (Py.lower word) w in
      (with_self word (collect_lemmas meanings), w1)
  end.

(** Filling [text_word_lemmas_cache] from the cached analysis, one
    item after the other (a later item for the same word replaces an
    earlier one). *)
Fixpoint prefill (memo : gmap str (gset str)) (items : list WordAnalysis)
  : outcome (gmap str (gset str)) :=
  match items with
  | [] => Ok memo
  | item :: items' =>
      match with_self (word item) (collect_lemmas (meanings item)) with
      | Ok ls => prefill (<[word item := ls]> memo) items'
      | Raise e => Raise e
      end
  end.

(** [text_word_lemmas_cache[text_word]], computed and stored first when
    the word is not in the memo yet. *)
Definition text_lemmas_of (text_word : str) (memo : gmap str (gset str))
    (w : world) : outcome (gset str) * gmap str (gset str) * world :=
  match memo !! text_word with
  | Some ls => (Ok ls, memo, w)
  | None =>
      match get_lemmas text_word w with
      | (Ok ls, w1) => (Ok ls, <[text_word := ls]> memo, w1)
      | (Raise e, w1) => (Raise e, memo, w1)
      end
  end.

(** The inner loop [for i, text_word in enumerate(words_in_text)], from
    index [i] on: the 1-based positions it appends. *)
Fixpoint scan_text (search_lemmas : gset str) (i : nat)
    (words_in_text : list str) (memo : gmap str (gset str)) (w : world)
  : outcome (list nat) * gmap str (gset str) * world :=
  match words_in_text with
  | [] => (Ok [], memo, w)
  | text_word :: rest =>
      match text_lemmas_of text_word memo w with
      | (Raise e, memo1, w1) => (Raise e, memo1, w1)
      | (Ok text_lemmas, memo1, w1) =>
          let '(o, memo2, w2) := scan_text search_lemmas (S i) rest memo1 w1 in
          (match o with
           | Ok later =>
               Ok (if bool_decide (search_lemmas ∩ text_lemmas ≠ ∅)
                   then (i + 1)%nat :: later else later)
           | Raise e => Raise e
           end, memo2, w2)
      end
  end.

(** The outer loop [for search_word in search_words]. *)
Fixpoint frequency_loop (search_words words_in_text : list str)
    (memo : gmap str (gset str)) (w : world)
  : outcome (list word_datum) * gmap str (gset str) * world :=
  match search_words with
  | [] => (Ok [], memo, w)
  | search_word :: rest =>
      match get_lemmas search_word w with
      | (Raise e, w1) => (Raise e, memo, w1)
      | (Ok search_lemmas, w1) =>
          match scan_text search_lemmas 0 words_in_text memo w1 with
          | (Raise e, memo1, w2) => (Raise e, memo1, w2)
          | (Ok positions, memo1, w2) =>
              let '(o, memo2, w3) :=
                frequency_loop rest words_in_text memo1 w2 in
              (match o with
               | Ok later =>
                   Ok ({| search_word := search_word;
                          lemmas := elements search_lemmas;
                          positions := positions;
                          count := length positions |} :: later)
               | Raise e => Raise e
               end, memo2, w3)
          end
      end
  end.

End WordFrequency.

Definition api_word_frequency (data : option frequency_request) (s : server)
  : outcome (response frequency_body) * server :=
  match data with
  | Some {| f_text := Some text; f_search_words := Some search_words |} =>
      let text := preprocess_text text in
      match get_text_hash text with
      | Raise e => (Raise e, s)
      | Ok text_hash =>
          let cached_analysis := ANALYSIS_CACHE s !! text_hash in
          let words_in_text := words_of text in
          let total_words := length words_in_text in
          match prefill ∅ (analysis_items cached_analysis) with
          | Raise e => (Raise e, s)
          | Ok memo =>
              let '(o, _, w1) :=
                frequency_loop cached_analysis search_words words_in_text memo
                               (scraper s) in
              (match o with
               | Ok word_data =>
                   Ok (Status200 {| total_words := total_words;
                                    word_data := word_data |})
               | Raise e => Raise e
               end,
               {| scraper := w1; ANALYSIS_CACHE := ANALYSIS_CACHE s |})
          end
      end
  | _ =>
      (Ok (Status400 (lit "Text und Suchw" ++ [246%N] ++ lit "rter erforderlich")), s)
  end.

End App.

(** ** Notions used to state the properties *)

(** The first occurrences of a list, in order: what "deduplicated, first
    occurrence kept" means for a token sequence. *)
Fixpoint first_occurrences (l : list str) : list str :=
  match l with
  | [] => []
  | x :: l' => x :: filter (fun y => y ≠ x) (first_occurrences l')
  end.

(** The 1-based positions, counted from [i + 1], of the tokens whose lemma
    set under [lemma_set] meets [L]. *)
Fixpoint matching_positions (L : gset str) (lemma_set : str -> gset str)
    (i : nat) (tokens : list str) : list nat :=
  match tokens with
  | [] => []
  | t :: tokens' =>
      if bool_decide (L ∩ lemma_set t ≠ ∅)
      then S i :: matching_positions L lemma_set (S i) tokens'
      else matching_positions L lemma_set (S i) tokens'
  end.

(** A non-empty lemma has a first white space delimited token. *)
Definition lemma_ok (r : LookupRecord) : Prop :=
  opt_truthy (lemma r) = true -> Py.split_ws (default [] (lemma r)) ≠ [].

(** A record as [lookup_word_all_meanings] stores it. *)
Definition stored_ok (r : LookupRecord) : Prop :=
  found r = true /\ lemma_ok r.



(** A code point that [str.lower] leaves as it is, whatever surrounds
    it. *)
Definition lowered (c : N) : Prop := Py.lower_char c = [c] /\ c ≠ 931%N.

(** The code points a row of the lower case table maps, and what it maps
    one of them to. *)
Definition entry_points (e : N * N * N * Z) : list N :=
  let '(lo, hi, step, _) := e in
  (fun k => (lo + N.of_nat k * step)%N)
    <$> seq 0 (S (N.to_nat ((hi - lo) / step))).

Definition entry_image (e : N * N * N * Z) (c : N) : N :=
  Z.to_N (Z.of_N c + e.2).

(** The lower case forms a row gives are not mapped themselves. *)
Definition entry_lowered (e : N * N * N * Z) : bool :=
  forallb (fun c =>
             let d := entry_image e c in
             negb (d =? 304)%N && negb (d =? 931)%N
             && bool_decide (Py.lower_lookup Py.lower_table d = None))
          (entry_points e).

(** A decimal digit. *)
Definition is_digit (c : N) : bool := Py.between 48 57 c.

(** A token as the tokenizer yields it: a non-empty string of word
    characters in lower case. *)
Definition is_token (t : str) : Prop :=
  t ≠ [] /\ Forall (fun c => is_word_char c = true) t /\ Py.lower t = t.

(** A site whose answer depends on the URL only. *)
Definition stateless (navigium : list str -> str -> str + soup) : Prop :=
  forall h h' u, navigium h u = navigium h' u.

(** The cache key the task for the word [x] reads and writes. *)
Definition task_key (fetch_all_meanings : bool) (x : str) : str :=
  if fetch_all_meanings then all_key x else lookup_key x 1.



(** *** The states of a server process *)

(** The states a server process goes through, from the empty caches on:
    the states between requests, and the states between the calls of
    [get_lemmas] within a word-frequency request.  Each analysis may
    complete its tasks in an order of its own. *)
Inductive reachable (navigium : list str -> str -> str + soup)
    (sha256 : list N -> str) : server -> Prop :=
  | reachable_start :
      reachable navigium sha256
        {| scraper := {| word_cache := ∅; requests := [] |};
           ANALYSIS_CACHE := ∅ |}
  | reachable_lookup word nr s :
      reachable navigium sha256 s ->
      reachable navigium sha256 (api_lookup navigium word nr s).2
  | reachable_analyze pool data s :
      reachable navigium sha256 s ->
      reachable navigium sha256 (api_analyze navigium pool sha256 data s).2
  | reachable_frequency data s :
      reachable navigium sha256 s ->
      reachable navigium sha256 (api_word_frequency navigium sha256 data s).2
  | reachable_get_lemmas h word s :
      reachable navigium sha256 s ->
      reachable navigium sha256
        {| scraper :=
             (get_lemmas navigium (ANALYSIS_CACHE s !! h) word (scraper s)).2;
           ANALYSIS_CACHE := ANALYSIS_CACHE s |}.

(** The word cache as the two lookups leave it: a list holds records as
    [lookup_word_all_meanings] stores them, and a single record lies under
    a key of [lookup_word]. *)
Definition cache_ok (w : world) : Prop :=
  forall k v,
    word_cache w !! k = Some v ->
    match v with
    | CList l => Forall stored_ok l
    | CRecord _ => exists word nr, k = lookup_key word nr
    end.

(** A cached analysis: no word twice; every word is a token, and its
    meanings are the non-empty list that the word cache holds under the
    word's "all" key. *)
Definition analysis_ok (w : world) (ta : list WordAnalysis) : Prop :=
  NoDup (item_word <$> ta)
  /\ Forall (fun item =>
               is_token (item_word item)
               /\ exists l, meanings item = CList l /\ l ≠ []
                            /\ word_cache w !! all_key (item_word item)
                               = Some (CList l))
            ta.

(** The invariant of the server state. *)
Definition server_ok (s : server) : Prop :=
  cache_ok (scraper s)
  /\ forall h ta, ANALYSIS_CACHE s !! h = Some ta -> analysis_ok (scraper s) ta.

(** [get_lemmas] finds no item for [x] in the cached analysis, and the
    "all" key of the lowercased [x] holds a record that [lookup_word]
    stored there. *)
Definition key_taken (cached_analysis : option (list WordAnalysis)) (w : world)
    (x : str) : Prop :=
  find_item cached_analysis x = None
  /\ exists r, word_cache w !! all_key (Py.lower x) = Some (CRecord r).

(** [w'] is a later state of [w] in which only lists have been added to
    the word cache. *)
Definition grown (w w' : world) : Prop :=
  word_cache w ⊆ word_cache w'
  /\ requests w `prefix_of` requests w'
  /\ forall k r, word_cache w' !! k = Some (CRecord r) ->
                 word_cache w !! k = Some (CRecord r).

(** *** Lemma sets, as the specification describes them *)

(** The normalized first word of the lemma of a record that has one. *)
Definition lemma_first (m : LookupRecord) : option str :=
  if opt_truthy (lemma m)
  then normalize <$> head (Py.split_ws (default [] (lemma m)))
  else None.

Definition lemmas_of (ms : list LookupRecord) : gset str :=
  list_to_set (omap lemma_first ms).

(** The records that a site answering by the URL alone lists in the forms
    section of the page of the word [y]; none when the request fails. *)
Definition site_meanings (navigium : list str -> str -> str + soup) (y : str)
  : list LookupRecord :=
  match navigium [] (all_url y) with
  | inr page => all_results (forms_containers page) y
  | inl _ => []
  end.

(** The LemmaSet of a word for such a site: the normalized first words of
    the lemmas listed for the lowercased word, and the normalized word
    itself. *)
Definition lemma_set (navigium : list str -> str -> str + soup) (x : str)
  : gset str :=
  {[normalize x]} ∪ lemmas_of (site_meanings navigium (Py.lower x)).

(** Every list of the word cache lies under the "all" key of a word and
    is what the site lists for that word. *)
Definition cache_from (navigium : list str -> str -> str + soup) (w : world)
  : Prop :=
  forall k l, word_cache w !! k = Some (CList l) ->
              exists y, k = all_key y /\ l = site_meanings navigium y.

(** The states a word-frequency request on the state [s] goes through. *)
Definition request_state (navigium : list str -> str -> str + soup)
    (s : server) (w : world) : Prop :=
  cache_ok w /\ grown (scraper s) w
  /\ (stateless navigium -> cache_from navigium w).

(** The lemma sets [get_lemmas] gives in these states. *)
Definition request_set (navigium : list str -> str -> str + soup)
    (x : str) (L : gset str) : Prop :=
  normalize x ∈ L /\ (stateless navigium -> L = lemma_set navigium x).

(** *** Notions for the further properties *)

(** Code points the normalizer replaces. *)
Definition replaced (c : N) : bool := bool_decide (c ∈ replacements.*1).

(** No two neighbouring code points are both white space. *)
Fixpoint single_spaced (s : str) : bool :=
  match s with
  | c :: s' =>
      match s' with
      | d :: _ => negb (Py.is_space c && Py.is_space d) && single_spaced s'
      | [] => true
      end
  | [] => true
  end.

(** A code point as the normalizer leaves it: not a control character, not
    one of the replaced punctuation marks, and if white space then the
    ASCII space. *)
Definition plain (c : N) : Prop :=
  is_control c = false /\ replaced c = false
  /\ (Py.is_space c = true -> c = 32%N).

(** A normalized text: plain code points, single spaces, none at either
    end. *)
Definition tidy (s : str) : Prop :=
  Forall plain s /\ single_spaced s = true
  /\ (forall c, head s = Some c -> Py.is_space c = false)
  /\ (forall c, last s = Some c -> Py.is_space c = false).

(** What the replacement loop of [preprocess_text] does to one code
    point. *)
Definition replace_all (text : str) : str :=
  foldl (fun t '(old, new) => Py.replace old new t) text replacements.

(** A code point that leaves nothing in the normalized text: white space
    or a control character. *)
Definition vanishing (c : N) : bool := Py.is_space c || is_control c.

(** The URL the task for the word [x] requests on a cache miss. *)
Definition task_url (fetch_all_meanings : bool) (x : str) : str :=
  if fetch_all_meanings then all_url x else lookup_url x 1.

(** A site that answers every request with a page. *)
Definition never_fails (navigium : list str -> str -> str + soup) : Prop :=
  forall h u, exists page, navigium h u = inr page.

(** Every lemma set of the memo holds the normalized form of its word. *)
Definition memo_self (memo : gmap str (gset str)) : Prop :=
  forall t T, memo !! t = Some T -> normalize t ∈ T.

(** ** Test doubles *)

Module Double.

(** A container whose [div.lemma span] reads [l]. *)
Definition entry (l : str) : container :=
  {| inner := Some {| inn_lemma := Some {| lemma_span := Some l; wortart := None |};
                      inn_u_div := None; inn_ol := None; inn_text := [] |} |}.

Definition page (l : str) : soup :=
  {| umgebend := [entry l]; grammar_match := None;
     forms_containers := [entry l] |}.

(** A site that knows three word forms, in either casing of the first
    letter of [puella], and fails for every other request. *)
Definition site (_ : list str) (u : str) : str + soup :=
  if bool_decide (u = all_url (lit "puella")) then inr (page (lit "puella -ae f"))
  else if bool_decide (u = all_url (lit "puellam")) then inr (page (lit "puella -ae f"))
  else if bool_decide (u = all_url (lit "rosa")) then inr (page (lit "rosa -ae f"))
  else if bool_decide (u = lookup_url (lit "Amavit") 1) then inr (page (lit "amo"))
  else if bool_decide (u = lookup_url (lit "amavit") 1) then inr (page (lit "amo"))
  else inl (lit "timed out").

(** A site that serves the page of [amo] for every request. *)
Definition always (_ : list str) (_ : str) : str + soup := inr (page (lit "amo")).

(** A site that is down. *)
Definition down (_ : list str) (_ : str) : str + soup := inl (lit "timed out").

(** Completion in submission order, and in the opposite order. *)
Definition fifo (l : list str) : list str := l.
Definition lifo (l : list str) : list str := reverse l.

(** A stand-in for the digest: the bytes themselves. *)
Definition digest (data : list N) : str := data.

Definition w0 : world := {| word_cache := ∅; requests := [] |}.
Definition s0 : server := {| scraper := w0; ANALYSIS_CACHE := ∅ |}.

(** The record of the forms section for [puella]. *)
Definition puella_record : LookupRecord :=
  {| word_form := lit "puella"; nr := 1; lemma := Some (lit "puella -ae f");
     grammar := None; translation := None; found := true;
     word_matches := Some false;
     url := Some (lookup_url (lit "puella") 1);
     alternatives := Some []; error := None |}.

(** An analysis holding the one word [puella]. *)
Definition puella_analysis : list WordAnalysis :=
  [ {| word := lit "puella"; meanings := CList [puella_record];
       has_multiple := false |} ].


Definition s1 : server :=
  (api_analyze site fifo digest (Some {| a_text := Some (lit "Puella") |}) s0).2.

Definition s2 : server := (api_lookup always (lit "all_Rosa") 1 s0).2.


End Double.

(** * Properties *)

(** ** Strings *)

Example lower_example :
  Py.lower (lit "Amavit") = lit "amavit"
  /\ Py.lower [256%N; 77%N; 214%N] = [257%N; 109%N; 246%N]
  /\ Py.lower [8490%N; 97%N; 304%N] = [107%N; 97%N; 105%N; 775%N]
  /\ Py.lower [927%N; 916%N; 927%N; 931%N; 32%N; 931%N]
     = [959%N; 948%N; 959%N; 962%N; 32%N; 963%N].
Proof. repeat split; reflexivity. Qed.

Example split_ws_example :
  Py.split_ws (lit "arma  -orum n") = [lit "arma"; lit "-orum"; lit "n"]
  /\ Py.split_ws (lit "   ") = [].
Proof. split; reflexivity. Qed.

Example int_str_example :
  Py.int_str 0 = lit "0" /\ Py.int_str 10 = lit "10" /\ Py.int_str (-12) = lit "-12".
Proof. repeat split; reflexivity. Qed.

Example index_example :
  Py.index [10%N; 20%N; 30%N] (-1) = Some 30%N
  /\ Py.index [10%N; 20%N; 30%N] 3 = None
  /\ Py.index [10%N] (-2) = None.
Proof. repeat split; reflexivity. Qed.

Example preprocess_text_example :
  preprocess_text ([8220%N] ++ lit "Gallia" ++ [8221%N; 160%N; 7%N]
                   ++ lit " est   omnis" ++ [8230%N; 10%N])
  = [34%N] ++ lit "Gallia" ++ [34%N] ++ lit " est omnis...".
Proof. reflexivity. Qed.

Example words_of_example :
  words_of (lit "Gallia est omnis divisa, a Gallia!")
  = [lit "gallia"; lit "est"; lit "omnis"; lit "divisa"; lit "a"; lit "gallia"]
  /\ unique_words_of (words_of (lit "Gallia est omnis divisa, a Gallia!"))
     = [lit "gallia"; lit "est"; lit "omnis"; lit "divisa"].
Proof. split; vm_compute; reflexivity. Qed.

(** The Kelvin sign lowers to the letter k, and so is part of a word. *)
Example words_of_kelvin : words_of [8490%N; 97%N] = [lit "ka"].
Proof. reflexivity. Qed.

Example encode_utf8_example :
  encode_utf8 [97%N; 228%N; 8364%N; 128512%N]
  = Ok [97; 195; 164; 226; 130; 172; 240; 159; 152; 128]%N
  /\ encode_utf8 [97%N; 55296%N] = Raise UnicodeEncodeError.
Proof. split; reflexivity. Qed.

Example normalize_example :
  normalize (lit "Am" ++ [333%N]) = lit "amo"
  /\ normalize ([256%N] ++ lit "cer") = lit "acer".
Proof. split; reflexivity. Qed.

Lemma lstrip_head s c s' : Py.lstrip s = c :: s' -> Py.is_space c = false.
Proof.
  induction s as [|a s IH]; simpl; [discriminate|].
  destruct (Py.is_space a) eqn:Ha; [exact IH|].
  intros [= <- <-]. exact Ha.
Qed.

Lemma lstrip_suffix s : exists pre, s = pre ++ Py.lstrip s.
Proof.
  induction s as [|a s [pre IH]]; simpl.
  - by exists [].
  - destruct (Py.is_space a).
    + exists (a :: pre). simpl. by f_equal.
    + by exists [].
Qed.

Lemma rstrip_prefix s : exists post, s = Py.rstrip s ++ post.
Proof.
  unfold Py.rstrip. destruct (lstrip_suffix (reverse s)) as [pre Hpre].
  exists (reverse pre).
  rewrite <- reverse_app, <- Hpre. by rewrite reverse_involutive.
Qed.

Lemma strip_head s c s' : Py.strip s = c :: s' -> Py.is_space c = false.
Proof.
  unfold Py.strip. intros H.
  destruct (rstrip_prefix (Py.lstrip s)) as [post Hpost].
  rewrite H in Hpost. simpl in Hpost. by eapply lstrip_head.
Qed.

Lemma clean_text_head t c s : clean_text t = c :: s -> Py.is_space c = false.
Proof.
  unfold clean_text. destruct (Py.truthy t); [apply strip_head|discriminate].
Qed.

Lemma split_ws_head c s : Py.is_space c = false -> Py.split_ws (c :: s) ≠ [].
Proof.
  intros Hc. unfold Py.split_ws, Py.runs. simpl.
  destruct (Py.scan _ s) as [r rs]. rewrite Hc. simpl. discriminate.
Qed.

(** Every piece found by [Py.runs] is non-empty and made of code points
    that satisfy the class. *)
Lemma scan_spec (p : N -> bool) s :
  Forall (fun c => p c = true) (Py.scan p s).1
  /\ Forall (fun r => r ≠ [] /\ Forall (fun c => p c = true) r) (Py.scan p s).2.
Proof.
  induction s as [|c s [IH1 IH2]]; simpl; [by split|].
  destruct (Py.scan p s) as [r rs]. simpl in *.
  destruct (p c) eqn:Hc; simpl.
  - split; [by constructor|done].
  - split; [constructor|].
    destruct r; simpl; [done|]. constructor; [|done]. by split.
Qed.

Lemma runs_spec (p : N -> bool) s :
  Forall (fun r => r ≠ [] /\ Forall (fun c => p c = true) r) (Py.runs p s).
Proof.
  unfold Py.runs. pose proof (scan_spec p s) as [H1 H2].
  destruct (Py.scan p s) as [r rs]. simpl in *.
  destruct r; simpl; [done|]. constructor; [|done]. by split.
Qed.

(** ** The parser *)

Lemma parse_result_container_lemma_ok c word nr :
  lemma_ok (parse_result_container c word nr).
Proof.
  unfold lemma_ok, parse_result_container.
  destruct (inner c) as [inn|]; [|simpl; discriminate].
  destruct (inn_lemma inn) as [[span wa]|]; simpl.
  2:{ destruct (inn_u_div inn) as [[??]|]; simpl; discriminate. }
  destruct span as [t|]; simpl.
  2:{ destruct wa; destruct (inn_u_div inn) as [[??]|]; simpl; discriminate. }
  destruct (clean_text t) as [|a s] eqn:Ht.
  { destruct wa; destruct (inn_u_div inn) as [[??]|]; simpl; discriminate. }
  pose proof (clean_text_head _ _ _ Ht) as Ha.
  destruct wa; destruct (inn_u_div inn) as [[??]|]; simpl;
    intros _; by apply split_ws_head.
Qed.

(** ** lookup_word *)

Section LookupWord.

Variable navigium : list str -> str -> str + soup.

Lemma lookup_word_hit word nr w v :
  word_cache w !! lookup_key word nr = Some v ->
  lookup_word navigium word nr w = (Ok v, w).
Proof. intros H. unfold lookup_word. by rewrite H. Qed.

Lemma lookup_word_miss_failure word nr w e :
  word_cache w !! lookup_key word nr = None ->
  navigium (requests w) (lookup_url word nr) = inl e ->
  lookup_word navigium word nr w
  = (Ok (CRecord (error_record word nr e)),
     {| word_cache := word_cache w;
        requests := requests w ++ [lookup_url word nr] |}).
Proof.
  intros Hmiss Hfail. unfold lookup_word, fetch_page.
  by rewrite Hmiss, Hfail.
Qed.

(** Whatever the site answers, a miss sends exactly one request, for the
    URL built from the word as given. *)
Lemma lookup_word_miss_requests word nr w :
  word_cache w !! lookup_key word nr = None ->
  requests (lookup_word navigium word nr w).2
  = requests w ++ [lookup_url word nr].
Proof.
  intros Hmiss. unfold lookup_word, fetch_page. rewrite Hmiss.
  destruct (navigium _ _) as [e|page]; [done|].
  by destruct (lookup_result _ _ _ _).
Qed.

End LookupWord.

(** An error that is not a transport failure is not caught: a query index
    below minus the number of containers is out of range for
    [containers[index]]. *)
Example lookup_word_index_error :
  (lookup_word Double.always (lit "amavit") (-5) Double.w0).1 = Raise IndexError
  /\ exists r, (lookup_word Double.always (lit "amavit") 0 Double.w0).1
               = Ok (CRecord r) /\ found r = true.
Proof. split; [reflexivity|]. eexists. split; reflexivity. Qed.

(** C7: when the request to the site fails with a transport error,
    [lookup_word] does not raise: it returns a value, and on a cache miss
    (the only case in which the site is asked) that value is a record for
    the word and query index with [found] false and [error] holding the
    failure's message. *)
Theorem lookup_word_fails_soft navigium word nr w e :
  navigium (requests w) (lookup_url word nr) = inl e ->
  exists v,
    (lookup_word navigium word nr w).1 = Ok v
    /\ (word_cache w !! lookup_key word nr = None ->
        exists r, v = CRecord r /\ found r = false /\ error r = Some e
                  /\ word_form r = word /\ record_nr r = nr).
Proof.
  intros Hfail.
  destruct (word_cache w !! lookup_key word nr) as [v|] eqn:Hc.
  - exists v. split; [by erewrite lookup_word_hit|discriminate].
  - exists (CRecord (error_record word nr e)). split.
    + by erewrite lookup_word_miss_failure.
    + intros _. by eexists.
Qed.

Lemma lookup_word_fails_soft_witness :
  Double.down (requests Double.w0) (lookup_url (lit "amavit") 1)
  = inl (lit "timed out")
  /\ exists v,
       (lookup_word Double.down (lit "amavit") 1 Double.w0).1 = Ok v
       /\ (word_cache Double.w0 !! lookup_key (lit "amavit") 1 = None ->
           exists r, v = CRecord r /\ found r = false
                     /\ error r = Some (lit "timed out")
                     /\ word_form r = lit "amavit" /\ record_nr r = 1).
Proof.
  split; [reflexivity|].
  apply (lookup_word_fails_soft Double.down (lit "amavit") 1 Double.w0).
  reflexivity.
Defined.

(** C10: when [lookup_word] misses the cache and the request fails with a
    transport error, the call leaves [word_cache] as it was (the error
    record it returns is not stored) and has sent one request; the next
    call for the same cache key, in whatever casing, asks the site
    again. *)
Theorem lookup_word_failure_not_cached navigium word nr w e :
  word_cache w !! lookup_key word nr = None ->
  navigium (requests w) (lookup_url word nr) = inl e ->
  let w' := (lookup_word navigium word nr w).2 in
  (lookup_word navigium word nr w).1 = Ok (CRecord (error_record word nr e))
  /\ word_cache w' = word_cache w
  /\ requests w' = requests w ++ [lookup_url word nr]
  /\ forall word2,
       lookup_key word2 nr = lookup_key word nr ->
       requests (lookup_word navigium word2 nr w').2
       = requests w' ++ [lookup_url word2 nr].
Proof.
  intros Hmiss Hfail w'. subst w'.
  rewrite (lookup_word_miss_failure _ _ _ _ _ Hmiss Hfail). simpl.
  repeat split.
  intros word2 Hkey.
  rewrite lookup_word_miss_requests; [done|]. simpl. by rewrite Hkey.
Qed.

Lemma lookup_word_failure_not_cached_witness :
  word_cache Double.w0 !! lookup_key (lit "Amavit") 1 = None
  /\ Double.down (requests Double.w0) (lookup_url (lit "Amavit") 1)
     = inl (lit "timed out")
  /\ let w' := (lookup_word Double.down (lit "Amavit") 1 Double.w0).2 in
     (lookup_word Double.down (lit "Amavit") 1 Double.w0).1
     = Ok (CRecord (error_record (lit "Amavit") 1 (lit "timed out")))
     /\ word_cache w' = word_cache Double.w0
     /\ requests w' = requests Double.w0 ++ [lookup_url (lit "Amavit") 1]
     /\ forall word2,
          lookup_key word2 1 = lookup_key (lit "Amavit") 1 ->
          requests (lookup_word Double.down word2 1 w').2
          = requests w' ++ [lookup_url word2 1].
Proof.
  split; [reflexivity|]. split; [reflexivity|].
  apply (lookup_word_failure_not_cached Double.down (lit "Amavit") 1 Double.w0
           (lit "timed out")); reflexivity.
Defined.

(** C1, as the code has it: [lookup_word] computes its cache key from the
    lowercased word and the query index, so two casings of one word have
    the same key; when that key is in the cache both calls return the
    stored value, send no request and leave the state as it is; on a miss
    each call requests the URL built from the word as it was given. *)
Theorem lookup_word_case_insensitive_key navigium word1 word2 nr w :
  Py.lower word1 = Py.lower word2 ->
  lookup_key word1 nr = lookup_key word2 nr
  /\ (forall v, word_cache w !! lookup_key word1 nr = Some v ->
       lookup_word navigium word1 nr w = (Ok v, w)
       /\ lookup_word navigium word2 nr w = (Ok v, w))
  /\ (word_cache w !! lookup_key word1 nr = None ->
      requests (lookup_word navigium word1 nr w).2
      = requests w ++ [lookup_url word1 nr]
      /\ requests (lookup_word navigium word2 nr w).2
        = requests w ++ [lookup_url word2 nr]).
Proof.
  intros Hlow.
  assert (lookup_key word1 nr = lookup_key word2 nr) as Hkey
    by (unfold lookup_key; by rewrite Hlow).
  split; [done|]. split.
  - intros v Hv. split; apply lookup_word_hit; [done|by rewrite <- Hkey].
  - intros Hmiss. split; apply lookup_word_miss_requests; [done|].
    by rewrite <- Hkey.
Qed.

Lemma lookup_word_case_insensitive_key_witness :
  Py.lower (lit "Amavit") = Py.lower (lit "amavit")
  /\ lookup_key (lit "Amavit") 1 = lookup_key (lit "amavit") 1
  /\ (forall v, word_cache Double.w0 !! lookup_key (lit "Amavit") 1 = Some v ->
       lookup_word Double.site (lit "Amavit") 1 Double.w0 = (Ok v, Double.w0)
       /\ lookup_word Double.site (lit "amavit") 1 Double.w0 = (Ok v, Double.w0))
  /\ (word_cache Double.w0 !! lookup_key (lit "Amavit") 1 = None ->
      requests (lookup_word Double.site (lit "Amavit") 1 Double.w0).2
      = requests Double.w0 ++ [lookup_url (lit "Amavit") 1]
      /\ requests (lookup_word Double.site (lit "amavit") 1 Double.w0).2
        = requests Double.w0 ++ [lookup_url (lit "amavit") 1]).
Proof.
  split; [reflexivity|].
  apply (lookup_word_case_insensitive_key Double.site (lit "Amavit") (lit "amavit")
           1 Double.w0).
  reflexivity.
Defined.

(** C1 as stated fails: [Amavit] and [amavit] have the same lowercased
    form, yet on an empty cache [lookup_word] sends different requests
    for them and returns different records, and
    [lookup_word_all_meanings] uses different cache keys. *)
Lemma case_insensitivity_counterexample :
  Py.lower (lit "Amavit") = Py.lower (lit "amavit")
  /\ requests (lookup_word Double.site (lit "Amavit") 1 Double.w0).2
     ≠ requests (lookup_word Double.site (lit "amavit") 1 Double.w0).2
  /\ (lookup_word Double.site (lit "Amavit") 1 Double.w0).1
     ≠ (lookup_word Double.site (lit "amavit") 1 Double.w0).1
  /\ all_key (lit "Amavit") ≠ all_key (lit "amavit").
Proof.
  split; [reflexivity|].
  repeat split; intros H; vm_compute in H; discriminate H.
Qed.

(** ** lookup_word_all_meanings *)

Lemma set_url_alternatives_stored_ok result u alts :
  found result = true -> lemma_ok result ->
  stored_ok (set_url_alternatives result u alts).
Proof. intros Hf Hl. by split. Qed.

Lemma all_results_stored_ok containers word :
  Forall stored_ok (all_results containers word).
Proof.
  unfold all_results. apply Forall_forall. intros r Hr.
  apply list_elem_of_omap in Hr as [[i cont] [_ Hr]].
  destruct (found (parse_result_container cont word (Z.of_nat i + 1))) eqn:Hf;
    [|discriminate].
  injection Hr as <-. apply set_url_alternatives_stored_ok; [done|].
  apply parse_result_container_lemma_ok.
Qed.

Section LookupAll.

Variable navigium : list str -> str -> str + soup.

Lemma lookup_all_hit word w v :
  word_cache w !! all_key word = Some v ->
  lookup_word_all_meanings navigium word w = (v, w).
Proof. intros H. unfold lookup_word_all_meanings. by rewrite H. Qed.

Lemma lookup_all_miss_page word w page :
  word_cache w !! all_key word = None ->
  navigium (requests w) (all_url word) = inr page ->
  lookup_word_all_meanings navigium word w
  = (CList (all_results (forms_containers page) word),
     {| word_cache := <[all_key word := CList (all_results (forms_containers page) word)]>
                        (word_cache w);
        requests := requests w ++ [all_url word] |}).
Proof.
  intros Hmiss Hpage. unfold lookup_word_all_meanings, fetch_page.
  rewrite Hmiss, Hpage.
  destruct (forms_containers page) as [|c cs] eqn:Hfc; simpl; [done|].
  by rewrite <- Hfc.
Qed.

Lemma lookup_all_miss_failure word w e :
  word_cache w !! all_key word = None ->
  navigium (requests w) (all_url word) = inl e ->
  lookup_word_all_meanings navigium word w
  = (CList [],
     {| word_cache := word_cache w;
        requests := requests w ++ [all_url word] |}).
Proof.
  intros Hmiss Hfail. unfold lookup_word_all_meanings, fetch_page.
  by rewrite Hmiss, Hfail.
Qed.

(** The three ways a call can go. *)
Lemma lookup_all_cases word w :
  (exists v, word_cache w !! all_key word = Some v
             /\ lookup_word_all_meanings navigium word w = (v, w))
  \/ (exists page, word_cache w !! all_key word = None
                   /\ navigium (requests w) (all_url word) = inr page
                   /\ lookup_word_all_meanings navigium word w
                      = (CList (all_results (forms_containers page) word),
                         {| word_cache :=
                              <[all_key word := CList (all_results (forms_containers page) word)]>
                                (word_cache w);
                            requests := requests w ++ [all_url word] |}))
  \/ (exists e, word_cache w !! all_key word = None
                /\ navigium (requests w) (all_url word) = inl e
                /\ lookup_word_all_meanings navigium word w
                   = (CList [],
                      {| word_cache := word_cache w;
                         requests := requests w ++ [all_url word] |})).
Proof.
  destruct (word_cache w !! all_key word) as [v|] eqn:Hc.
  - left. exists v. split; [done|]. by apply lookup_all_hit.
  - right. destruct (navigium (requests w) (all_url word)) as [e|page] eqn:Hn.
    + right. exists e. repeat split; try done. by apply (lookup_all_miss_failure _ _ e).
    + left. exists page. repeat split; try done. by apply lookup_all_miss_page.
Qed.

(** The cache only grows: an entry is never replaced or removed. *)
Lemma lookup_all_cache_grows word w :
  word_cache w ⊆ word_cache (lookup_word_all_meanings navigium word w).2.
Proof.
  destruct (lookup_all_cases word w)
    as [(v & _ & ->)|[(page & Hmiss & _ & ->)|(e & _ & _ & ->)]]; simpl;
    [done| |done].
  by apply insert_subseteq.
Qed.

(** The requests only grow. *)
Lemma lookup_all_requests_grow word w :
  requests w `prefix_of` requests (lookup_word_all_meanings navigium word w).2.
Proof.
  destruct (lookup_all_cases word w)
    as [(v & _ & ->)|[(page & _ & _ & ->)|(e & _ & _ & ->)]]; simpl;
    [done| |]; by apply prefix_app_r.
Qed.

(** An invariant of the cache that the stored records establish. *)
Variable P : LookupRecord -> Prop.
Hypothesis stored_P : forall r, stored_ok r -> P r.



End LookupAll.

(** C6, as the code has it: when [lookup_word_all_meanings] finds the
    "all" key in the cache, or misses it and the page is fetched, the value
    it returns is the value stored under that key afterwards; after a miss
    and a fetched page that value is the list of found records of the forms
    section, an empty list included.  After a miss and a transport failure
    it returns the empty list and leaves the cache as it was. *)
Theorem lookup_all_returns_cached navigium word w :
  let v := (lookup_word_all_meanings navigium word w).1 in
  let w' := (lookup_word_all_meanings navigium word w).2 in
  (is_Some (word_cache w !! all_key word)
   \/ (exists page, navigium (requests w) (all_url word) = inr page) ->
   word_cache w' !! all_key word = Some v)
  /\ (forall page,
        word_cache w !! all_key word = None ->
        navigium (requests w) (all_url word) = inr page ->
        v = CList (all_results (forms_containers page) word))
  /\ (forall e,
        word_cache w !! all_key word = None ->
        navigium (requests w) (all_url word) = inl e ->
        v = CList [] /\ word_cache w' = word_cache w).
Proof.
  intros v w'. subst v w'.
  destruct (lookup_all_cases navigium word w)
    as [(v & Hv & ->)|[(page & Hmiss & Hp & ->)|(e & Hmiss & He & ->)]]; simpl.
  - split; [done|]. split; intros ?; rewrite Hv; discriminate.
  - split; [intros _; by rewrite lookup_insert_eq|].
    split; intros ?; rewrite Hp; [by intros _ [= <-]|discriminate].
  - split.
    + intros [[v Hv]|[page Hp]]; [by rewrite Hmiss in Hv|by rewrite He in Hp].
    + split; [intros ?; rewrite He; discriminate|done].
Qed.

Lemma lookup_all_returns_cached_witness :
  let v := (lookup_word_all_meanings Double.site (lit "rosa") Double.w0).1 in
  let w' := (lookup_word_all_meanings Double.site (lit "rosa") Double.w0).2 in
  (exists page, Double.site (requests Double.w0) (all_url (lit "rosa")) = inr page)
  /\ word_cache w' !! all_key (lit "rosa") = Some v.
Proof.
  split; [by eexists|].
  apply (lookup_all_returns_cached Double.site (lit "rosa") Double.w0).
  right. by eexists.
Defined.

(** C6 as stated fails: when the site is down, [lookup_word_all_meanings]
    returns the empty list but the cache holds nothing under the word's
    "all" key afterwards. *)
Lemma lookup_all_failure_counterexample :
  word_cache Double.w0 !! all_key (lit "amavit") = None
  /\ (lookup_word_all_meanings Double.down (lit "amavit") Double.w0).1 = CList []
  /\ word_cache (lookup_word_all_meanings Double.down (lit "amavit") Double.w0).2
       !! all_key (lit "amavit") = None.
Proof. repeat split. Qed.

(** ** get_lemmas *)

Lemma with_self_ok word o L :
  with_self word o = Ok L -> normalize word ∈ L /\ L ≠ ∅.
Proof.
  destruct o as [L0|e]; simpl; [|discriminate].
  intros [= <-]. split; set_solver.
Qed.

Lemma find_item_Some ca w item :
  find_item ca w = Some item -> item ∈ analysis_items ca /\ word item = w.
Proof.
  unfold find_item.
  induction (analysis_items ca) as [|i l IH]; simpl; [discriminate|].
  case_bool_decide as Hw.
  - intros [= <-]. split; [left|done].
  - intros H. destruct (IH H) as [??]. split; [by right|done].
Qed.

Section GetLemmas.

Variable navigium : list str -> str -> str + soup.
Variable cached_analysis : option (list WordAnalysis).

Lemma get_lemmas_item word w item :
  find_item cached_analysis word = Some item ->
  get_lemmas navigium cached_analysis word w
  = (with_self word (collect_lemmas (meanings item)), w).
Proof. intros H. unfold get_lemmas. by rewrite H. Qed.

Lemma get_lemmas_lookup word w :
  find_item cached_analysis word = None ->
  get_lemmas navigium cached_analysis word w
  = (with_self word
       (collect_lemmas (lookup_word_all_meanings navigium (Py.lower word) w).1),
     (lookup_word_all_meanings navigium (Py.lower word) w).2).
Proof.
  intros H. unfold get_lemmas. rewrite H.
  by destruct (lookup_word_all_meanings _ _ _).
Qed.

(** Whenever [get_lemmas] returns a set, the normalized word is in it. *)
Lemma get_lemmas_self word w L :
  (get_lemmas navigium cached_analysis word w).1 = Ok L ->
  normalize word ∈ L /\ L ≠ ∅.
Proof.
  destruct (find_item cached_analysis word) as [item|] eqn:Hf.
  - rewrite (get_lemmas_item _ _ _ Hf). apply with_self_ok.
  - rewrite (get_lemmas_lookup _ _ Hf). apply with_self_ok.
Qed.

Lemma get_lemmas_cache_grows word w :
  word_cache w ⊆ word_cache (get_lemmas navigium cached_analysis word w).2.
Proof.
  destruct (find_item cached_analysis word) as [item|] eqn:Hf.
  - by rewrite (get_lemmas_item _ _ _ Hf).
  - rewrite (get_lemmas_lookup _ _ Hf). apply lookup_all_cache_grows.
Qed.

End GetLemmas.


(** For a word the site does not know, the lemma set is the word alone. *)
Example get_lemmas_nonsense :
  (get_lemmas Double.down None (lit "Xyzzy") Double.w0).1 = Ok {[lit "xyzzy"]}.
Proof. vm_compute. f_equal. Qed.

(** ** The tokenizer's deduplication *)

Lemma filter_all {A} (P : A -> Prop) `{!forall x, Decision (P x)} (l : list A) :
  Forall P l -> filter P l = l.
Proof.
  induction 1 as [|x l Hx _ IH]; [done|].
  by rewrite filter_cons_True, IH.
Qed.

(** The loop with its [seen] set computes the first occurrences of the
    tokens of length at least two that are not in [seen]. *)
Lemma dedup_loop_spec seen words :
  dedup_loop seen words
  = filter (fun x => x ∉ seen)
      (first_occurrences (filter (fun x => (2 <= length x)%nat) words)).
Proof.
  revert seen. induction words as [|x words IH]; intros seen; [done|].
  cbn [dedup_loop]. rewrite filter_cons.
  destruct (2 <=? length x)%nat eqn:Hleb.
  - apply Nat.leb_le in Hleb. rewrite decide_True by done.
    cbn [first_occurrences]. rewrite filter_cons, andb_true_r.
    destruct (decide (x ∉ seen)) as [Hx|Hx].
    + rewrite bool_decide_eq_true_2 by done.
      f_equal. rewrite IH, list_filter_filter.
      apply list_filter_iff. intros y. set_solver.
    + rewrite bool_decide_eq_false_2 by done.
      rewrite IH, list_filter_filter.
      apply list_filter_iff. intros y. split; [|by intros [? _]].
      intros Hy. split; [done|]. by intros ->.
  - apply Nat.leb_gt in Hleb. rewrite decide_False by lia.
    rewrite andb_false_r. apply IH.
Qed.

Lemma unique_words_of_spec words :
  unique_words_of words
  = first_occurrences (filter (fun x => (2 <= length x)%nat) words).
Proof.
  unfold unique_words_of. rewrite dedup_loop_spec.
  apply filter_all, Forall_forall. intros x _. apply not_elem_of_empty.
Qed.

Lemma first_occurrences_NoDup l : NoDup (first_occurrences l).
Proof.
  induction l as [|x l IH]; simpl; constructor.
  - rewrite list_elem_of_filter. by intros [? _].
  - by apply NoDup_filter.
Qed.

Lemma first_occurrences_elem l x : x ∈ first_occurrences l <-> x ∈ l.
Proof.
  induction l as [|y l IH]; simpl; [done|].
  rewrite !elem_of_cons, list_elem_of_filter, IH.
  destruct (decide (x = y)); naive_solver.
Qed.

Lemma unique_words_of_NoDup words : NoDup (unique_words_of words).
Proof. rewrite unique_words_of_spec. apply first_occurrences_NoDup. Qed.

(** ** analyze_text *)

Lemma assemble_words (unique_words : list str) (results_dict : gmap str cache_value) :
  item_word <$> assemble unique_words results_dict
  = filter (fun x => is_Some (results_dict !! x)) unique_words.
Proof.
  unfold assemble.
  induction unique_words as [|x l IH]; [done|].
  rewrite filter_cons. cbn [omap list_omap].
  destruct (results_dict !! x) as [v|] eqn:Hx.
  - rewrite decide_True by done. rewrite fmap_cons. f_equal. exact IH.
  - rewrite decide_False by (by intros [??]). exact IH.
Qed.

Lemma assemble_item (unique_words : list str) (results_dict : gmap str cache_value) item :
  item ∈ assemble unique_words results_dict ->
  item_word item ∈ unique_words
  /\ results_dict !! item_word item = Some (meanings item)
  /\ has_multiple item = (1 <? py_len (meanings item))%nat.
Proof.
  unfold assemble. rewrite list_elem_of_omap. intros (x & Hx & Hitem).
  destruct (results_dict !! x) as [v|] eqn:Hv; [|discriminate].
  injection Hitem as <-. by simpl.
Qed.

Lemma collect_lookup completed : forall (results_dict : gmap str cache_value) x v,
  foldl collect results_dict completed !! x = Some v ->
  results_dict !! x = Some v
  \/ (Ok (x, v) ∈ completed /\ value_truthy v = true).
Proof.
  induction completed as [|o os IH]; intros rd x v; simpl; [by left|].
  intros H. apply IH in H as [H|[H1 H2]]; [|right; split; [by right|done]].
  destruct o as [[y u]|e]; simpl in H; [|by left].
  destruct (value_truthy u) eqn:Hu; [|by left].
  destruct (decide (y = x)) as [->|Hne].
  - rewrite lookup_insert_eq in H. injection H as ->.
    right. split; [left|done].
  - rewrite lookup_insert_ne in H by done. by left.
Qed.

Section Tasks.

Variable navigium : list str -> str -> str + soup.


(** In single lookup mode a task yields the record as a one element
    list when it is found, the empty list when it is not, or raises. *)
Lemma lookup_word_wrapper_single x w :
  match (lookup_word_wrapper navigium false x w).1 with
  | Ok (y, v) =>
      y = x /\ (v = CList [] \/ exists r, v = CList [r] /\ found r = true)
  | Raise _ => True
  end.
Proof.
  cbn [lookup_word_wrapper].
  destruct (lookup_word navigium x 1 w) as [[[r|l]|e] w1]; simpl; try done.
  split; [done|]. destruct (found r) eqn:Hr; [right; by exists r|by left].
Qed.

Lemma run_tasks_single order w :
  Forall (fun o => match o with
                   | Ok (_, v) =>
                       v = CList [] \/ exists r, v = CList [r] /\ found r = true
                   | Raise _ => True
                   end)
         (run_tasks navigium false order w).1.
Proof.
  revert w. induction order as [|x order IH]; intros w; [constructor|].
  cbn [run_tasks].
  pose proof (lookup_word_wrapper_single x w) as Hx.
  destruct (lookup_word_wrapper navigium false x w) as [o w1].
  specialize (IH w1).
  destruct (run_tasks navigium false order w1) as [os w2].
  constructor; [|done]. simpl in Hx.
  destruct o as [[y v]|e]; [by destruct Hx|done].
Qed.

Variable pool : list str -> list str.

Lemma analyze_text_unfold text fetch_all_meanings w :
  analyze_text navigium pool text fetch_all_meanings w
  = (assemble (unique_words_of (words_of (preprocess_text text)))
       (foldl collect ∅
          (run_tasks navigium fetch_all_meanings
             (pool (unique_words_of (words_of (preprocess_text text)))) w).1),
     (run_tasks navigium fetch_all_meanings
        (pool (unique_words_of (words_of (preprocess_text text)))) w).2).
Proof. unfold analyze_text. by destruct (run_tasks _ _ _ _). Qed.

End Tasks.

(** *** Lowercase tokens *)

Lemma lower_lookup_Some t c d :
  Forall (fun e => (0 < e.1.2)%N) t ->
  Py.lower_lookup t c = Some d ->
  exists e, e ∈ t /\ c ∈ entry_points e /\ d = entry_image e c.
Proof.
  intros Hstep. induction Hstep as [|[[[lo hi] step] delta] t Hs _ IH]; [done|].
  simpl in Hs. cbn [Py.lower_lookup].
  destruct (N.ltb_spec c lo); [done|].
  destruct (N.leb_spec c hi); simpl.
  - destruct (N.eqb_spec ((c - lo) mod step) 0) as [Hmod|Hmod].
    + intros [= <-]. exists (lo, hi, step, delta). split; [left|]. split; [|done].
      unfold entry_points. apply list_elem_of_fmap.
      exists (N.to_nat ((c - lo) / step)). split.
      * rewrite N2Nat.id.
        pose proof (N.Div0.div_mod (c - lo) step) as Hdm.
        rewrite Hmod in Hdm. revert Hdm.
        generalize ((c - lo) / step)%N. intros q Hq. lia.
      * apply elem_of_seq. split; [apply Nat.le_0_l|]. simpl.
        assert ((c - lo) / step <= (hi - lo) / step)%N as Hle
          by (apply N.Div0.div_le_mono; lia).
        revert Hle. generalize ((c - lo) / step)%N, ((hi - lo) / step)%N.
        intros q1 q2 Hle. lia.
    + intros H1. destruct (IH H1) as (e & He & ?). exists e. split; [by right|done].
  - intros H1. destruct (IH H1) as (e & He & ?). exists e. split; [by right|done].
Qed.

Lemma lower_table_steps : Forall (fun e => (0 < e.1.2)%N) Py.lower_table.
Proof. apply (bool_decide_unpack _). vm_compute. exact I. Qed.

Lemma lower_table_lowered : forallb entry_lowered Py.lower_table = true.
Proof. vm_compute. reflexivity. Qed.

Lemma lower_char_unmapped c :
  c ≠ 304%N -> Py.lower_lookup Py.lower_table c = None -> lowered c.
Proof.
  intros H304 Hc. split.
  - unfold Py.lower_char. rewrite (proj2 (N.eqb_neq _ _) H304). by rewrite Hc.
  - intros ->. vm_compute in Hc. discriminate.
Qed.

Lemma lower_char_lowered c : Forall lowered (Py.lower_char c).
Proof.
  unfold Py.lower_char. destruct (N.eqb_spec c 304) as [->|H304].
  { repeat constructor; try (by vm_compute); intros [=]. }
  destruct (Py.lower_lookup Py.lower_table c) as [d|] eqn:Hc.
  - constructor; [|constructor].
    apply (lower_lookup_Some _ _ _ lower_table_steps) in Hc
      as (e & He & Hin & ->).
    pose proof lower_table_lowered as Hall.
    rewrite forallb_forall in Hall.
    apply list_elem_of_In in He. specialize (Hall _ He).
    unfold entry_lowered in Hall. rewrite forallb_forall in Hall.
    apply list_elem_of_In in Hin. specialize (Hall _ Hin). cbv zeta in Hall.
    apply andb_prop in Hall as [Hall H3]. apply andb_prop in Hall as [H1 H2].
    apply negb_true_iff, N.eqb_neq in H1, H2. apply bool_decide_eq_true_1 in H3.
    apply lower_char_unmapped in H3; [|done]. done.
  - constructor; [|constructor]. by apply lower_char_unmapped.
Qed.

Lemma lower_from_lowered s : forall b, Forall lowered (Py.lower_from b s).
Proof.
  induction s as [|c s IH]; intros b; [constructor|].
  cbn [Py.lower_from]. apply Forall_app. split; [|apply IH].
  destruct (N.eqb_spec c 931); [|apply lower_char_lowered].
  constructor; [|constructor].
  destruct (b && negb _); (split; [by vm_compute|intros [=]]).
Qed.

Lemma lower_lowered s : Forall lowered (Py.lower s).
Proof. apply lower_from_lowered. Qed.

Lemma lower_from_fixed s : Forall lowered s -> forall b, Py.lower_from b s = s.
Proof.
  induction 1 as [|c s [Hc Hne] _ IH]; intros b; [done|].
  cbn [Py.lower_from]. rewrite (proj2 (N.eqb_neq _ _) Hne), Hc, IH. done.
Qed.

Lemma lower_fixed s : Forall lowered s -> Py.lower s = s.
Proof. intros H. by apply lower_from_fixed. Qed.

(** Pieces of [Py.runs] are made of code points of the string. *)
Lemma scan_elem p s :
  (forall c, c ∈ (Py.scan p s).1 -> c ∈ s)
  /\ (forall r c, r ∈ (Py.scan p s).2 -> c ∈ r -> c ∈ s).
Proof.
  induction s as [|a s [IH1 IH2]]; simpl.
  - split; [done|]. intros r c H. by apply elem_of_nil in H.
  - destruct (Py.scan p s) as [r rs]. simpl in *.
    destruct (p a); simpl.
    + split.
      * intros c [->|Hc]%elem_of_cons; [left|right; by apply IH1].
      * intros r' c Hr Hc. right. by eapply IH2.
    + split; [intros c H; by apply elem_of_nil in H|].
      intros r' c Hr Hc. right. destruct r as [|b r]; simpl in Hr.
      * by eapply IH2.
      * apply elem_of_cons in Hr as [->|Hr]; [by apply IH1|by eapply IH2].
Qed.

Lemma runs_elem p s r c : r ∈ Py.runs p s -> c ∈ r -> c ∈ s.
Proof.
  unfold Py.runs. destruct (scan_elem p s) as [H1 H2].
  destruct (Py.scan p s) as [r0 rs]. simpl in *.
  destruct r0 as [|b r0]; simpl; [apply H2|].
  intros [->|Hr]%elem_of_cons; [apply H1|by apply H2].
Qed.

Lemma words_of_lower text t : t ∈ words_of text -> Py.lower t = t.
Proof.
  intros Ht. apply lower_fixed, Forall_forall. intros c Hc.
  pose proof (lower_lowered text) as H. rewrite Forall_forall in H.
  apply H. by eapply runs_elem.
Qed.

(** *** Tasks of one batch do not interfere *)

Section Independence.

Variable navigium : list str -> str -> str + soup.
Hypothesis site_stateless : stateless navigium.
Variable fam : bool.


Lemma wrapper_other x w k :
  k ≠ task_key fam x ->
  word_cache (lookup_word_wrapper navigium fam x w).2 !! k = word_cache w !! k.
Proof.
  intros Hk. unfold lookup_word_wrapper. destruct fam; simpl in Hk.
  - unfold lookup_word_all_meanings, fetch_page.
    destruct (word_cache w !! all_key x); [done|].
    destruct (navigium _ _); [done|].
    destruct (Py.truthy _); simpl; by rewrite lookup_insert_ne.
  - unfold lookup_word, fetch_page.
    destruct (word_cache w !! lookup_key x 1) as [[r|l]|]; [done|done|].
    destruct (navigium _ _); [done|].
    destruct (lookup_result _ _ _ _); simpl; [|done].
    by rewrite lookup_insert_ne.
Qed.



End Independence.




Lemma unique_words_of_elem ws x : x ∈ unique_words_of ws -> x ∈ ws.
Proof.
  rewrite unique_words_of_spec, first_occurrences_elem, list_elem_of_filter.
  by intros [_ ?].
Qed.

Lemma task_key_inj fam text x y :
  x ∈ words_of text -> y ∈ words_of text ->
  task_key fam x = task_key fam y -> x = y.
Proof.
  intros Hx Hy. destruct fam; simpl.
  - unfold all_key. apply app_inv_head.
  - unfold lookup_key. intros H. apply app_inv_tail in H.
    by rewrite (words_of_lower _ _ Hx), (words_of_lower _ _ Hy) in H.
Qed.


(** The order of the entries is the same when the tasks complete in
    submission order and when they complete in the opposite order. *)
Example analyze_text_order_example :
  item_word <$> (analyze_text Double.site Double.fifo
                   (lit "Rosa puellam, PUELLA a rosa!") true Double.w0).1
  = [lit "rosa"; lit "puellam"; lit "puella"]
  /\ item_word <$> (analyze_text Double.site Double.lifo
                      (lit "Rosa puellam, PUELLA a rosa!") true Double.w0).1
     = [lit "rosa"; lit "puellam"; lit "puella"].
Proof. split; vm_compute; reflexivity. Qed.



(** ** api_analyze *)

Section Analyze.

Variable navigium : list str -> str -> str + soup.
Variable pool : list str -> list str.
Variable sha256 : list N -> str.

(** A request whose fingerprint is in [ANALYSIS_CACHE] is answered from
    there, and the state stays as it is. *)
Lemma api_analyze_hit text s h cached :
  Py.truthy (Py.strip (preprocess_text text)) = true ->
  get_text_hash sha256 (preprocess_text text) = Ok h ->
  ANALYSIS_CACHE s !! h = Some cached ->
  api_analyze navigium pool sha256 (Some {| a_text := Some text |}) s
  = (Ok (Status200 {| original_text := preprocess_text text;
                      word_count := length cached;
                      results := cached |}), s).
Proof.
  intros Htext Hh Hhit. unfold api_analyze. simpl.
  by rewrite Htext, Hh, Hhit.
Qed.

(** After a successful request the analysis is in [ANALYSIS_CACHE] under
    the fingerprint of the normalized text. *)
Lemma api_analyze_stores data s body s1 :
  api_analyze navigium pool sha256 data s = (Ok (Status200 body), s1) ->
  exists text h,
    data ≫= a_text = Some text
    /\ Py.truthy (Py.strip (preprocess_text text)) = true
    /\ original_text body = preprocess_text text
    /\ word_count body = length (results body)
    /\ get_text_hash sha256 (preprocess_text text) = Ok h
    /\ ANALYSIS_CACHE s1 !! h = Some (results body).
Proof.
  unfold api_analyze.
  destruct (data ≫= a_text) as [text|]; [|discriminate].
  destruct (Py.truthy (Py.strip (preprocess_text text))) eqn:Htext;
    [|discriminate].
  destruct (get_text_hash sha256 (preprocess_text text)) as [h|e] eqn:Hh;
    [|discriminate].
  destruct (ANALYSIS_CACHE s !! h) as [cached|] eqn:Hc.
  - intros [= <- <-]. by exists text, h.
  - destruct (analyze_text _ _ _ _ _) as [res w1].
    intros [= <- <-]. exists text, h. simpl. by rewrite lookup_insert_eq.
Qed.

End Analyze.

(** C8: after a text has been analyzed, a request for a text with the same
    fingerprint of its normalized form returns the same list of entries
    and leaves the state as it is, so nothing is requested from the site;
    repeating the very same request returns the very same response. *)
Theorem api_analyze_idempotent navigium pool sha256 data s body s1 :
  api_analyze navigium pool sha256 data s = (Ok (Status200 body), s1) ->
  api_analyze navigium pool sha256 data s1 = (Ok (Status200 body), s1)
  /\ forall text2,
       Py.truthy (Py.strip (preprocess_text text2)) = true ->
       get_text_hash sha256 (preprocess_text text2)
       = get_text_hash sha256 (original_text body) ->
       api_analyze navigium pool sha256 (Some {| a_text := Some text2 |}) s1
       = (Ok (Status200 {| original_text := preprocess_text text2;
                           word_count := word_count body;
                           results := results body |}), s1).
Proof.
  intros H.
  destruct (api_analyze_stores _ _ _ _ _ _ _ H)
    as (text & h & Hdata & Htext & Horig & Hcount & Hh & Hstored).
  split.
  - unfold api_analyze. rewrite Hdata. simpl. rewrite Htext, Hh, Hstored.
    destruct body as [o c r]. simpl in *. by subst.
  - intros text2 Htext2 Hhash. rewrite Horig, Hh in Hhash.
    rewrite (api_analyze_hit _ _ _ _ _ _ _ Htext2 Hhash Hstored).
    by rewrite Hcount.
Qed.

Lemma api_analyze_idempotent_witness :
  let data := Some {| a_text := Some (lit "Rosa puellam est") |} in
  let first := api_analyze Double.site Double.fifo Double.digest data Double.s0 in
  exists body s1,
    first = (Ok (Status200 body), s1)
    /\ api_analyze Double.site Double.fifo Double.digest data s1
       = (Ok (Status200 body), s1).
Proof.
  intros data first.
  destruct first as [[[m|body]|e] s1] eqn:Hfirst;
    [by vm_compute in Hfirst| |by vm_compute in Hfirst].
  exists body, s1. split; [done|].
  exact (proj1 (api_analyze_idempotent Double.site Double.fifo Double.digest
                  data Double.s0 body s1 Hfirst)).
Defined.

(** ** api_word_frequency *)

Lemma matching_positions_ext (L : gset str) (f g : str -> gset str) i tokens :
  (forall t, t ∈ tokens -> f t = g t) ->
  matching_positions L f i tokens = matching_positions L g i tokens.
Proof.
  revert i. induction tokens as [|t tokens IH]; intros i Hfg; [done|].
  simpl. rewrite (Hfg t) by left.
  rewrite (IH (S i)) by (intros ??; apply Hfg; by right). done.
Qed.

(** [matching_positions] lists exactly the 1-based positions of the tokens
    whose lemma set meets [L], *)
Lemma matching_positions_elem (L : gset str) (f : str -> gset str) tokens :
  forall i p,
    p ∈ matching_positions L f i tokens
    <-> exists k t, tokens !! k = Some t /\ p = S (i + k) /\ L ∩ f t ≠ ∅.
Proof.
  induction tokens as [|t tokens IH]; intros i p; simpl.
  - split; [intros H; by apply elem_of_nil in H|]. by intros (k & x & ? & _).
  - assert ((exists k x, (t :: tokens) !! k = Some x /\ p = S (i + k) /\ L ∩ f x ≠ ∅)
            <-> (p = S i /\ L ∩ f t ≠ ∅)
                \/ exists k x, tokens !! k = Some x /\ p = S (S i + k)
                               /\ L ∩ f x ≠ ∅) as ->.
    { split.
      - intros ([|k] & x & Hk & -> & Hx); simpl in Hk.
        + injection Hk as ->. left. split; [f_equal; lia|done].
        + right. exists k, x. split; [done|]. split; [lia|done].
      - intros [[-> Ht]|(k & x & Hk & -> & Hx)].
        + exists 0%nat, t. split; [done|]. split; [f_equal; lia|done].
        + exists (S k), x. split; [done|]. split; [lia|done]. }
    case_bool_decide as Ht.
    + rewrite elem_of_cons, IH. tauto.
    + rewrite IH. tauto.
Qed.

(** and it lists them in ascending order. *)
Lemma matching_positions_ascending (L : gset str) (f : str -> gset str) tokens :
  forall i, StronglySorted lt (matching_positions L f i tokens).
Proof.
  induction tokens as [|t tokens IH]; intros i; simpl; [constructor|].
  case_bool_decide; [|apply IH].
  constructor; [apply IH|].
  apply Forall_forall. intros p Hp.
  apply matching_positions_elem in Hp as (k & x & _ & -> & _). lia.
Qed.

(** In an analysis without duplicate words, the item found for a word is
    the only item for it. *)
Lemma find_item_NoDup ca item :
  NoDup (item_word <$> analysis_items ca) ->
  item ∈ analysis_items ca ->
  find_item ca (item_word item) = Some item.
Proof.
  unfold find_item, item_word.
  induction (analysis_items ca) as [|i l IH]; intros Hnd Hin.
  - by apply elem_of_nil in Hin.
  - rewrite fmap_cons in Hnd. apply NoDup_cons in Hnd as [Hi Hnd].
    simpl. apply elem_of_cons in Hin as [->|Hin].
    + by rewrite bool_decide_eq_true_2.
    + rewrite bool_decide_eq_false_2; [by apply IH|].
      intros Heq. apply Hi. rewrite Heq. by apply list_elem_of_fmap_2.
Qed.

(** The example of the specification: with tokens [puella], [puellam],
    [rosa] and [puellam] a form of the lemma [puella], the search word
    [puella] is found at positions 1 and 2; the same after the text has been
    analyzed, when the lemma sets come from the cached analysis. *)
Example api_word_frequency_example :
  let request :=
    Some {| f_text := Some (lit "Puella puellam rosa");
            f_search_words := Some [lit "puella"] |} in
  let expected :=
    Ok (Status200
          {| total_words := 3;
             word_data := [ {| search_word := lit "puella";
                               lemmas := [lit "puella"];
                               positions := [1; 2]%nat;
                               count := 2 |} ] |}) in
  (api_word_frequency Double.site Double.digest request Double.s0).1 = expected
  /\ (api_word_frequency Double.site Double.digest request
        (api_analyze Double.site Double.lifo Double.digest
           (Some {| a_text := Some (lit "Puella puellam rosa") |}) Double.s0).2).1
     = expected.
Proof. split; vm_compute; reflexivity. Qed.

(** ** What an analysis leaves in the word cache *)

Section AnalysisCached.

Variable navigium : list str -> str -> str + soup.

(** A non-empty result of [lookup_word_all_meanings] is in the cache
    afterwards. *)
Lemma lookup_all_truthy_cached x w :
  value_truthy (lookup_word_all_meanings navigium x w).1 = true ->
  word_cache (lookup_word_all_meanings navigium x w).2 !! all_key x
  = Some (lookup_word_all_meanings navigium x w).1.
Proof.
  destruct (lookup_all_cases navigium x w)
    as [(v & Hv & ->)|[(page & _ & _ & ->)|(e & _ & _ & ->)]]; simpl.
  - done.
  - by rewrite lookup_insert_eq.
  - discriminate.
Qed.

Lemma run_tasks_all_cache_grows order : forall w,
  word_cache w ⊆ word_cache (run_tasks navigium true order w).2.
Proof.
  induction order as [|x order IH]; intros w; [done|].
  cbn [run_tasks lookup_word_wrapper].
  pose proof (lookup_all_cache_grows navigium x w) as H1.
  destruct (lookup_word_all_meanings navigium x w) as [v w1].
  specialize (IH w1).
  destruct (run_tasks navigium true order w1) as [os w2].
  simpl in *. by transitivity (word_cache w1).
Qed.

Lemma run_tasks_all_cached order : forall w x v,
  Ok (x, v) ∈ (run_tasks navigium true order w).1 ->
  value_truthy v = true ->
  word_cache (run_tasks navigium true order w).2 !! all_key x = Some v.
Proof.
  induction order as [|y order IH]; intros w x v.
  - simpl. intros H. by apply elem_of_nil in H.
  - cbn [run_tasks lookup_word_wrapper].
    pose proof (lookup_all_truthy_cached y w) as H1.
    destruct (lookup_word_all_meanings navigium y w) as [u w1].
    pose proof (run_tasks_all_cache_grows order w1) as H2.
    specialize (IH w1 x v).
    destruct (run_tasks navigium true order w1) as [os w2].
    simpl in *. intros [Heq|Hin]%elem_of_cons Htruthy; [|by apply IH].
    injection Heq as -> ->. eapply lookup_weaken; [by apply H1|done].
Qed.

End AnalysisCached.

(** * Further properties *)

(** ** The normalizer *)

Lemma replace_app old new (a b : str) :
  Py.replace old new (a ++ b) = Py.replace old new a ++ Py.replace old new b.
Proof. unfold Py.replace. apply bind_app. Qed.

Lemma foldl_replace_app rs : forall a b : str,
  foldl (fun t '(old, new) => Py.replace old new t) (a ++ b) rs
  = foldl (fun t '(old, new) => Py.replace old new t) a rs
    ++ foldl (fun t '(old, new) => Py.replace old new t) b rs.
Proof.
  induction rs as [|[old new] rs IH]; intros a b; [done|].
  simpl. by rewrite replace_app, IH.
Qed.

Lemma replace_all_cons c s : replace_all (c :: s) = replace_all [c] ++ replace_all s.
Proof. unfold replace_all. by rewrite <- foldl_replace_app. Qed.

(** One code point: a replaced mark gives its replacement, any other code
    point stays. *)
Lemma replace_all_one c :
  replace_all [c]
  = if replaced c then default [] (snd <$> find (fun p => bool_decide (p.1 = c)) replacements)
    else [c].
Proof.
  unfold replace_all, replaced, replacements. cbn [foldl].
  unfold Py.replace. simpl.
  repeat match goal with
         | |- context [N.eqb c ?k] =>
             destruct (N.eqb_spec c k) as [->|?]; [reflexivity|]; simpl
         end.
  rewrite bool_decide_eq_false_2; [done|].
  rewrite !elem_of_cons, elem_of_nil. naive_solver.
Qed.

Lemma replaced_cases c :
  replaced c = true ->
  c = 8216%N \/ c = 8217%N \/ c = 8220%N \/ c = 8221%N \/ c = 8212%N
  \/ c = 8211%N \/ c = 160%N \/ c = 8230%N.
Proof.
  unfold replaced, replacements. intros H. apply bool_decide_eq_true in H.
  cbn in H. rewrite !elem_of_cons, elem_of_nil in H. tauto.
Qed.

Lemma replace_all_one_unreplaced c :
  Forall (fun d => replaced d = false) (replace_all [c]).
Proof.
  rewrite replace_all_one. destruct (replaced c) eqn:Hc.
  - apply replaced_cases in Hc.
    repeat (destruct Hc as [->|Hc]; [vm_compute; repeat constructor|]).
    subst. vm_compute. repeat constructor.
  - by repeat constructor.
Qed.

Lemma replace_all_unreplaced s :
  Forall (fun d => replaced d = false) (replace_all s).
Proof.
  induction s as [|c s IH]; [constructor|].
  rewrite replace_all_cons. apply Forall_app.
  split; [apply replace_all_one_unreplaced|done].
Qed.

Lemma replace_all_fixed s :
  Forall (fun d => replaced d = false) s -> replace_all s = s.
Proof.
  induction 1 as [|c s Hc _ IH]; [done|].
  by rewrite replace_all_cons, replace_all_one, Hc, IH.
Qed.

Lemma replace_all_one_vanishing c :
  forallb vanishing (replace_all [c]) = vanishing c.
Proof.
  rewrite replace_all_one. destruct (replaced c) eqn:Hc.
  - apply replaced_cases in Hc.
    repeat (destruct Hc as [->|Hc]; [reflexivity|]). by subst.
  - simpl. apply andb_true_r.
Qed.

Lemma replace_all_vanishing s :
  forallb vanishing (replace_all s) = forallb vanishing s.
Proof.
  induction s as [|c s IH]; [done|].
  rewrite replace_all_cons, forallb_app, replace_all_one_vanishing, IH. done.
Qed.

(** *** Collapsing white space *)

Lemma squeeze_elem b s x :
  x ∈ Py.squeeze b s -> x = 32%N \/ (x ∈ s /\ Py.is_space x = false).
Proof.
  revert b. induction s as [|c s IH]; intros b; simpl.
  - intros H. by apply elem_of_nil in H.
  - destruct (Py.is_space c) eqn:Hc.
    + destruct b.
      * intros H. destruct (IH _ H) as [?|[??]]; [by left|right; split; [by right|done]].
      * intros [->|H]%elem_of_cons; [by left|].
        destruct (IH _ H) as [?|[??]]; [by left|right; split; [by right|done]].
    + intros [->|H]%elem_of_cons; [right; split; [left|done]|].
      destruct (IH _ H) as [?|[??]]; [by left|right; split; [by right|done]].
Qed.

Lemma squeeze_keeps b s x :
  x ∈ s -> Py.is_space x = false -> x ∈ Py.squeeze b s.
Proof.
  intros Hx Hs. revert b. induction s as [|c s IH]; intros b.
  - by apply elem_of_nil in Hx.
  - simpl. apply elem_of_cons in Hx as [<-|Hx].
    + rewrite Hs. left.
    + destruct (Py.is_space c); [destruct b; [|right]|right]; by apply IH.
Qed.

Lemma squeeze_single_spaced s : forall b,
  single_spaced (Py.squeeze b s) = true
  /\ (b = true -> forall c, head (Py.squeeze b s) = Some c -> Py.is_space c = false).
Proof.
  induction s as [|c s IH]; intros b; [by split|].
  simpl. destruct (Py.is_space c) eqn:Hc.
  - destruct b.
    + apply IH.
    + destruct (IH true) as [IH1 IH2]. split; [|done].
      cbn [single_spaced]. destruct (Py.squeeze true s) as [|d s'] eqn:Hs; [done|].
      rewrite (IH2 eq_refl d eq_refl), andb_false_r. simpl. exact IH1.
  - destruct (IH false) as [IH1 _]. split.
    + cbn [single_spaced]. destruct (Py.squeeze false s) as [|d s'] eqn:Hs; [done|].
      rewrite Hc. simpl. exact IH1.
    + intros _ d [= <-]. exact Hc.
Qed.

Lemma squeeze_fixed s : forall b,
  Forall (fun c => Py.is_space c = true -> c = 32%N) s ->
  single_spaced s = true ->
  (b = true -> forall c, head s = Some c -> Py.is_space c = false) ->
  Py.squeeze b s = s.
Proof.
  induction s as [|c s IH]; intros b Hsp Hss Hhead; [done|].
  apply Forall_cons in Hsp as [Hc Hsp]. simpl.
  assert (single_spaced s = true
          /\ (Py.is_space c = true -> forall d, head s = Some d -> Py.is_space d = false))
    as [Hss' Hnext].
  { cbn [single_spaced] in Hss. destruct s as [|d s']; [by split|].
    apply andb_true_iff in Hss as [H1 H2]. split; [done|].
    intros Hcs e [= <-]. rewrite Hcs in H1. simpl in H1.
    by destruct (Py.is_space d). }
  destruct (Py.is_space c) eqn:Hcs.
  - destruct b; [by rewrite (Hhead eq_refl c eq_refl) in Hcs|].
    rewrite (Hc eq_refl). f_equal. apply IH; [done|done|]. intros _. by apply Hnext.
  - f_equal. by apply IH.
Qed.

(** *** Stripping *)

Lemma lstrip_fixed s :
  (forall c, head s = Some c -> Py.is_space c = false) -> Py.lstrip s = s.
Proof.
  destruct s as [|c s]; [done|]. intros H. simpl. by rewrite (H c eq_refl).
Qed.

Lemma lstrip_nil_iff s : Py.lstrip s = [] <-> Forall (fun c => Py.is_space c = true) s.
Proof.
  induction s as [|c s IH]; simpl; [by split|].
  destruct (Py.is_space c) eqn:Hc.
  - rewrite IH. split; [by constructor|by intros [_ ?]%Forall_cons].
  - split; [done|]. intros [H _]%Forall_cons. congruence.
Qed.

Lemma rstrip_fixed s :
  (forall c, last s = Some c -> Py.is_space c = false) -> Py.rstrip s = s.
Proof.
  intros H. unfold Py.rstrip. rewrite lstrip_fixed.
  - apply reverse_involutive.
  - intros c. rewrite head_reverse. apply H.
Qed.

Lemma rstrip_nil_iff s : Py.rstrip s = [] <-> Forall (fun c => Py.is_space c = true) s.
Proof.
  unfold Py.rstrip. rewrite <- (Forall_reverse _ s), <- lstrip_nil_iff.
  split; [|by intros ->].
  intros H. apply (f_equal reverse) in H. by rewrite reverse_involutive in H.
Qed.

Lemma strip_fixed s :
  (forall c, head s = Some c -> Py.is_space c = false) ->
  (forall c, last s = Some c -> Py.is_space c = false) ->
  Py.strip s = s.
Proof.
  intros H1 H2. unfold Py.strip. by rewrite (lstrip_fixed _ H1), rstrip_fixed.
Qed.

Lemma strip_nil_iff s : Py.strip s = [] <-> Forall (fun c => Py.is_space c = true) s.
Proof.
  unfold Py.strip. rewrite rstrip_nil_iff, <- (lstrip_nil_iff s).
  split; [|by intros ->].
  intros H. destruct (Py.lstrip s) as [|c s'] eqn:Hl; [done|].
  apply Forall_cons in H as [Hc _]. by rewrite (lstrip_head _ _ _ Hl) in Hc.
Qed.

Lemma strip_last s c : last (Py.strip s) = Some c -> Py.is_space c = false.
Proof.
  unfold Py.strip, Py.rstrip. rewrite last_reverse.
  destruct (Py.lstrip (reverse (Py.lstrip s))) as [|d s'] eqn:Hl; [done|].
  intros [= <-]. by eapply lstrip_head.
Qed.

(** The stripped string is a piece of the string. *)
Lemma strip_infix s : exists pre post, s = pre ++ Py.strip s ++ post.
Proof.
  unfold Py.strip. destruct (lstrip_suffix s) as [pre Hpre].
  destruct (rstrip_prefix (Py.lstrip s)) as [post Hpost].
  exists pre, post. by rewrite <- Hpost.
Qed.

Lemma single_spaced_app a b :
  single_spaced (a ++ b) = true -> single_spaced a = true /\ single_spaced b = true.
Proof.
  induction a as [|c a IH]; [by split|].
  destruct a as [|d a].
  - simpl. destruct b; [by split|].
    intros [_ ?]%andb_true_iff. by split.
  - intros H. change (negb (Py.is_space c && Py.is_space d)
                      && single_spaced ((d :: a) ++ b) = true) in H.
    apply andb_true_iff in H as [H1 H2]. destruct (IH H2) as [IH1 IH2].
    split; [|done]. cbn [single_spaced]. rewrite H1. exact IH1.
Qed.

Lemma strip_single_spaced s :
  single_spaced s = true -> single_spaced (Py.strip s) = true.
Proof.
  destruct (strip_infix s) as (pre & post & Hs). intros H.
  rewrite Hs in H. apply single_spaced_app in H as [_ H].
  by apply single_spaced_app in H as [H _].
Qed.

Lemma strip_Forall (P : N -> Prop) s : Forall P s -> Forall P (Py.strip s).
Proof.
  destruct (strip_infix s) as (pre & post & Hs). intros H.
  rewrite Hs in H. apply Forall_app in H as [_ H].
  by apply Forall_app in H as [H _].
Qed.

(** *** preprocess_text and clean_text *)

Lemma preprocess_text_unfold text :
  preprocess_text text
  = if Py.truthy text
    then Py.strip (Py.squeeze false
                     (filter (fun c => is_control c = false) (replace_all text)))
    else [].
Proof. reflexivity. Qed.

Lemma squeeze_plain b s :
  Forall (fun c => is_control c = false /\ replaced c = false) s ->
  Forall plain (Py.squeeze b s).
Proof.
  intros Hs. rewrite Forall_forall in Hs. apply Forall_forall. intros x Hx.
  destruct (squeeze_elem _ _ _ Hx) as [->|[Hin Hsp]].
  - by repeat split.
  - destruct (Hs _ Hin) as [??]. repeat split; try done. congruence.
Qed.

Lemma preprocess_text_is_tidy text : tidy (preprocess_text text).
Proof.
  rewrite preprocess_text_unfold. destruct (Py.truthy text); [|by repeat split].
  set (s := filter _ _).
  assert (Forall (fun c => is_control c = false /\ replaced c = false) s) as Hs.
  { apply Forall_forall. intros c [Hc Hin]%list_elem_of_filter. split; [done|].
    pose proof (replace_all_unreplaced text) as H. rewrite Forall_forall in H.
    by apply H. }
  split; [apply strip_Forall, squeeze_plain, Hs|].
  split; [apply strip_single_spaced, squeeze_single_spaced|].
  split; intros c Hc; [|by eapply strip_last].
  destruct (Py.strip _) as [|d s'] eqn:Heq; [done|]. injection Hc as <-.
  by eapply strip_head.
Qed.

Lemma truthy_nil {A} (l : list A) : Py.truthy l = false <-> l = [].
Proof. by destruct l. Qed.

Lemma preprocess_text_fixed s : tidy s -> preprocess_text s = s.
Proof.
  intros (Hplain & Hss & Hhead & Hlast). rewrite preprocess_text_unfold.
  destruct s as [|c s]; [done|]. cbn [Py.truthy].
  rewrite replace_all_fixed.
  2:{ eapply Forall_impl; [exact Hplain|]. by intros x (_ & ? & _). }
  rewrite filter_all.
  2:{ eapply Forall_impl; [exact Hplain|]. by intros x (? & _). }
  rewrite squeeze_fixed; [by apply strip_fixed| |done|done].
  eapply Forall_impl; [exact Hplain|]. by intros x (_ & _ & ?).
Qed.

(** Normalizing a normalized text changes nothing. *)
Theorem preprocess_text_idempotent text :
  preprocess_text (preprocess_text text) = preprocess_text text.
Proof. apply preprocess_text_fixed, preprocess_text_is_tidy. Qed.

Lemma squeeze_all_space b s :
  Forall (fun c => Py.is_space c = true) (Py.squeeze b s)
  <-> Forall (fun c => Py.is_space c = true) s.
Proof.
  rewrite !Forall_forall. split; intros H x Hx.
  - destruct (Py.is_space x) eqn:Hs; [done|].
    rewrite <- Hs. apply H. by apply squeeze_keeps.
  - destruct (squeeze_elem _ _ _ Hx) as [->|[Hin Hs]]; [done|].
    rewrite (H x Hin) in Hs. discriminate.
Qed.

Lemma preprocess_text_nil_vanishing text :
  preprocess_text text = [] <-> forallb vanishing text = true.
Proof.
  rewrite preprocess_text_unfold. destruct text as [|c0 text0] eqn:Htext; [done|].
  rewrite <- Htext. replace (Py.truthy text) with true by (by subst).
  rewrite strip_nil_iff, squeeze_all_space, <- replace_all_vanishing.
  rewrite forallb_forall, Forall_forall. split.
  - intros H x Hx%list_elem_of_In. unfold vanishing.
    destruct (is_control x) eqn:Hc; [apply orb_true_r|].
    rewrite H; [done|]. by apply list_elem_of_filter.
  - intros H x [Hc Hx]%list_elem_of_filter.
    specialize (H x (proj1 (list_elem_of_In _ _) Hx)).
    unfold vanishing in H. rewrite Hc, orb_false_r in H. done.
Qed.

(** The normalized text has no control character and none of the replaced
    punctuation marks; its only white space is the ASCII space, never
    twice in a row and never at either end. *)
Theorem preprocess_text_tidy text : tidy (preprocess_text text).
Proof. apply preprocess_text_is_tidy. Qed.

(** The normalized text is empty exactly when every code point of the text
    is white space or a control character. *)
Theorem preprocess_text_nil_iff text :
  preprocess_text text = [] <-> forallb vanishing text = true.
Proof. apply preprocess_text_nil_vanishing. Qed.

(** [clean_text] applied to its own result changes nothing. *)
Theorem clean_text_idempotent t : clean_text (clean_text t) = clean_text t.
Proof.
  unfold clean_text at 2 3. destruct (Py.truthy t); [|done].
  set (out := Py.strip (Py.squeeze false t)).
  unfold clean_text. destruct (Py.truthy out) eqn:Hout;
    [|symmetry; by apply truthy_nil].
  assert (Forall (fun c => Py.is_space c = true -> c = 32%N) out) as H1.
  { apply strip_Forall, Forall_forall. intros x Hx Hs.
    destruct (squeeze_elem _ _ _ Hx) as [->|[_ Hn]]; [done|congruence]. }
  assert (single_spaced out = true) as H2
    by apply strip_single_spaced, squeeze_single_spaced.
  rewrite squeeze_fixed by done.
  apply strip_fixed; intros c Hc.
  - subst out. destruct (Py.strip _) as [|d s'] eqn:Heq; [done|].
    injection Hc as <-. by eapply strip_head.
  - by eapply strip_last.
Qed.

(** ** Tokens and normalized lemmas *)

(** Every token is non-empty, made of code points of the word class, and
    in lower case. *)
Theorem words_of_tokens text :
  Forall (fun t => t ≠ [] /\ Forall (fun c => is_word_char c = true) t
                   /\ Py.lower t = t)
         (words_of text).
Proof.
  apply Forall_forall. intros t Ht.
  pose proof (runs_spec is_word_char (Py.lower text)) as H.
  rewrite Forall_forall in H. destruct (H t Ht) as [H1 H2].
  split; [done|]. split; [done|]. by eapply words_of_lower.
Qed.

Lemma lower_idempotent s : Py.lower (Py.lower s) = Py.lower s.
Proof. apply lower_fixed, lower_lowered. Qed.

Lemma strip_macron_cases c :
  strip_macron c = c
  \/ c ∈ [257; 275; 299; 333; 363; 256; 274; 298; 332; 362]%N.
Proof.
  unfold strip_macron.
  repeat match goal with
         | |- context [N.eqb c ?k] =>
             destruct (N.eqb_spec c k) as [->|?];
             [right; rewrite !elem_of_cons; tauto|]
         end.
  by left.
Qed.

Lemma strip_macron_context c :
  Py.is_cased (strip_macron c) = Py.is_cased c
  /\ Py.is_case_ignorable (strip_macron c) = Py.is_case_ignorable c
  /\ (strip_macron c =? 931)%N = (c =? 931)%N
  /\ strip_macron <$> Py.lower_char (strip_macron c)
     = strip_macron <$> Py.lower_char c.
Proof.
  destruct (strip_macron_cases c) as [->|H]; [done|].
  rewrite !elem_of_cons, elem_of_nil in H.
  repeat (destruct H as [->|H]; [by vm_compute|]). done.
Qed.

Lemma followed_by_cased_strip_macron s :
  Py.followed_by_cased (strip_macron <$> s) = Py.followed_by_cased s.
Proof.
  induction s as [|c s IH]; [done|]. rewrite fmap_cons. cbn [Py.followed_by_cased].
  destruct (strip_macron_context c) as (-> & -> & _). by rewrite IH.
Qed.

Lemma normalize_from_strip_macron s : forall b,
  strip_macron <$> Py.lower_from b (strip_macron <$> s)
  = strip_macron <$> Py.lower_from b s.
Proof.
  induction s as [|c s IH]; intros b; [done|].
  rewrite fmap_cons. cbn [Py.lower_from].
  destruct (strip_macron_context c) as (-> & -> & -> & Hc).
  rewrite !fmap_app, IH, followed_by_cased_strip_macron. f_equal.
  destruct (c =? 931)%N; [done|exact Hc].
Qed.

Lemma normalize_strip_macron s : normalize (strip_macron <$> s) = normalize s.
Proof. apply normalize_from_strip_macron. Qed.

(** [normalize] does not see case or macrons, and applying it again changes
    nothing. *)
Theorem normalize_insensitive s :
  normalize (Py.lower s) = normalize s
  /\ normalize (strip_macron <$> s) = normalize s
  /\ normalize (normalize s) = normalize s.
Proof.
  split; [unfold normalize; by rewrite lower_idempotent|].
  split; [apply normalize_strip_macron|].
  unfold normalize at 2. rewrite normalize_strip_macron.
  unfold normalize. by rewrite lower_idempotent.
Qed.

(** Two words with the same normalized form have lemma sets that meet. *)
Theorem get_lemmas_meet (navigium : list str -> str -> str + soup)
    (ca1 ca2 : option (list WordAnalysis)) (word1 word2 : str) (w1 w2 : world)
    (L1 L2 : gset str) :
  normalize word1 = normalize word2 ->
  (get_lemmas navigium ca1 word1 w1).1 = Ok L1 ->
  (get_lemmas navigium ca2 word2 w2).1 = Ok L2 ->
  L1 ∩ L2 ≠ ∅.
Proof.
  intros Hn H1 H2.
  apply get_lemmas_self in H1 as [H1 _]. apply get_lemmas_self in H2 as [H2 _].
  rewrite Hn in H1. set_solver.
Qed.

Lemma get_lemmas_meet_witness :
  normalize (lit "am" ++ [333%N]) = normalize (lit "Amo")
  /\ (get_lemmas Double.down None (lit "am" ++ [333%N]) Double.w0).1
     = Ok {[lit "amo"]}
  /\ (get_lemmas Double.down None (lit "Amo") Double.w0).1 = Ok {[lit "amo"]}
  /\ ({[lit "amo"]} : gset str) ∩ {[lit "amo"]} ≠ ∅.
Proof.
  assert (normalize (lit "am" ++ [333%N]) = normalize (lit "Amo")) as H0
    by reflexivity.
  assert ((get_lemmas Double.down None (lit "am" ++ [333%N]) Double.w0).1
          = Ok {[lit "amo"]}) as H1 by (vm_compute; f_equal).
  assert ((get_lemmas Double.down None (lit "Amo") Double.w0).1
          = Ok {[lit "amo"]}) as H2 by (vm_compute; f_equal).
  split; [exact H0|]. split; [exact H1|]. split; [exact H2|].
  exact (get_lemmas_meet Double.down None None _ _ _ _ _ _ H0 H1 H2).
Defined.

(** ** The parser and lookup_word *)

Lemma parse_result_container_fields c word nr :
  let r := parse_result_container c word nr in
  word_form r = word /\ record_nr r = nr /\ url r = None
  /\ alternatives r = None /\ error r = None
  /\ (found r = true <-> is_Some (lemma r))
  /\ (found r = true <->
      exists inn ld t, inner c = Some inn /\ inn_lemma inn = Some ld
                       /\ lemma_span ld = Some t).
Proof.
  unfold parse_result_container, record_nr.
  destruct (inner c) as [inn|] eqn:Hi.
  2:{ simpl; split_and!; try done; try (by intros [??]).
      split; [done|]. by intros (? & ? & ? & ? & _). }
  destruct (inn_lemma inn) as [[span wa]|] eqn:Hl.
  2:{ destruct (inn_u_div inn) as [[??]|]; simpl; split_and!; try done;
        try (by intros [??]);
        (split; [done|]; intros (? & ? & ? & ? & ? & _); congruence). }
  destruct span as [t|].
  - destruct wa as [wa|]; simpl; try destruct (Py.truthy (clean_text t));
      destruct (inn_u_div inn) as [[??]|]; simpl; split_and!; try done;
      split; try done;
      first [ by eexists
            | intros _; eexists inn, _, t; split_and!;
              [reflexivity|exact Hl|reflexivity] ].
  - destruct wa as [wa|]; destruct (inn_u_div inn) as [[??]|]; simpl;
      split_and!; try done; try (by intros [??]);
      (split; [done|]; intros (? & ? & ? & ? & ? & ?); simplify_eq).
Qed.

(** A parsed record is found exactly when it has a lemma, which is exactly
    when the container has an inner part with a lemma part that holds a
    span; it carries the word and the number it was parsed for. *)
Theorem parse_result_container_found c word nr :
  let r := parse_result_container c word nr in
  (found r = true <-> is_Some (lemma r))
  /\ (found r = true <->
      exists inn ld t, inner c = Some inn /\ inn_lemma inn = Some ld
                       /\ lemma_span ld = Some t)
  /\ word_form r = word /\ record_nr r = nr.
Proof.
  intros r. subst r.
  destruct (parse_result_container_fields c word nr)
    as (H1 & H2 & _ & _ & _ & H3 & H4).
  by split_and!.
Qed.

Lemma index_None {A} (l : list A) i :
  Py.index l i = None
  <-> (Z.of_nat (length l) <= i \/ i < - Z.of_nat (length l)).
Proof.
  unfold Py.index. destruct (Z.leb_spec 0 i).
  - rewrite lookup_ge_None. lia.
  - destruct (Z.leb_spec (- Z.of_nat (length l)) i).
    + rewrite lookup_ge_None. lia.
    + split; [lia|done].
Qed.

Lemma lookup_result_raises page word nr u e :
  lookup_result page word nr u = Raise e
  <-> e = IndexError /\ umgebend page ≠ []
      /\ nr - 1 < - Z.of_nat (length (umgebend page)).
Proof.
  unfold lookup_result. destruct (Py.truthy (umgebend page)) eqn:Ht.
  - assert (umgebend page ≠ []) as Hne by (intros Heq; by rewrite Heq in Ht).
    assert (0 < Z.of_nat (length (umgebend page))) as Hlen
      by (destruct (umgebend page); [done|simpl; lia]).
    destruct (Py.index (umgebend page) _) as [cont|] eqn:Hi.
    + split; [done|]. intros (_ & _ & Hlt).
      assert (Py.index (umgebend page)
                (Z.min (nr - 1) (Z.of_nat (length (umgebend page)) - 1))
              = None) as Hn by (apply index_None; lia).
      congruence.
    + apply index_None in Hi. split.
      * intros [= <-]. split; [done|]. split; [done|]. lia.
      * by intros (-> & _).
  - apply truthy_nil in Ht. split; [done|]. by intros (_ & ? & _).
Qed.

(** [lookup_word] raises only when a page with result containers was
    fetched and the query index lies below minus their number; a query
    index of at least one never raises. *)
Theorem lookup_word_raises navigium word nr w e :
  (lookup_word navigium word nr w).1 = Raise e
  <-> e = IndexError
      /\ word_cache w !! lookup_key word nr = None
      /\ exists page,
           navigium (requests w) (lookup_url word nr) = inr page
           /\ umgebend page ≠ []
           /\ nr - 1 < - Z.of_nat (length (umgebend page)).
Proof.
  unfold lookup_word, fetch_page.
  destruct (word_cache w !! lookup_key word nr) as [v|]; simpl.
  { split; [done|]. by intros (_ & ? & _). }
  destruct (navigium (requests w) (lookup_url word nr)) as [msg|page]; simpl.
  { split; [done|]. by intros (_ & _ & ? & ? & _). }
  destruct (lookup_result page word nr (lookup_url word nr)) as [r|e'] eqn:Hr; simpl.
  - split; [done|]. intros (-> & _ & page' & [= <-] & H).
    assert (lookup_result page word nr (lookup_url word nr) = Raise IndexError)
      as Hx by (by apply lookup_result_raises).
    congruence.
  - apply lookup_result_raises in Hr as (-> & H). split.
    + intros [= <-]. split; [done|]. split; [done|]. by exists page.
    + by intros (-> & _).
Qed.

Lemma lookup_result_fields page word nr u r :
  lookup_result page word nr u = Ok r ->
  word_form r = word /\ record_nr r = nr /\ url r = Some u
  /\ is_Some (alternatives r) /\ error r = None.
Proof.
  unfold lookup_result. destruct (Py.truthy (umgebend page)).
  - destruct (Py.index _ _) as [cont|]; [|done]. intros [= <-].
    destruct (parse_result_container_fields cont word nr)
      as (H1 & H2 & _ & _ & H3 & _).
    unfold set_url_alternatives, record_nr in *. simpl.
    split_and!; try done; by eexists.
  - intros [= <-]. unfold record_nr. simpl. split_and!; try done; by eexists.
Qed.

(** A record that [lookup_word] builds on a cache miss carries the word as
    given, the query index and the URL; its [error] is set exactly when
    the request failed, and then [found] is false. *)
Theorem lookup_word_miss_record navigium word nr w v :
  word_cache w !! lookup_key word nr = None ->
  (lookup_word navigium word nr w).1 = Ok v ->
  exists r,
    v = CRecord r /\ word_form r = word /\ record_nr r = nr
    /\ url r = Some (lookup_url word nr) /\ is_Some (alternatives r)
    /\ (is_Some (error r)
        <-> exists e, navigium (requests w) (lookup_url word nr) = inl e)
    /\ (is_Some (error r) -> found r = false).
Proof.
  intros Hmiss. unfold lookup_word, fetch_page. rewrite Hmiss.
  destruct (navigium (requests w) (lookup_url word nr)) as [e|page]; simpl.
  - intros [= <-]. eexists. split; [done|]. unfold record_nr. simpl.
    split_and!; try done; try (by eexists). split; by eexists.
  - destruct (lookup_result page word nr (lookup_url word nr)) as [r|e] eqn:Hr;
      [|done].
    intros [= <-]. exists r.
    destruct (lookup_result_fields _ _ _ _ _ Hr) as (? & ? & ? & ? & Herr).
    split_and!; try done; rewrite Herr.
    + split; [by intros [??]|by intros [??]].
    + by intros [??].
Qed.

Lemma lookup_word_miss_record_witness :
  word_cache Double.w0 !! lookup_key (lit "Amavit") 1 = None
  /\ exists v,
       (lookup_word Double.site (lit "Amavit") 1 Double.w0).1 = Ok v
       /\ exists r,
            v = CRecord r /\ word_form r = lit "Amavit" /\ record_nr r = 1
            /\ url r = Some (lookup_url (lit "Amavit") 1)
            /\ is_Some (alternatives r)
            /\ (is_Some (error r)
                <-> exists e, Double.site (requests Double.w0)
                                (lookup_url (lit "Amavit") 1) = inl e)
            /\ (is_Some (error r) -> found r = false).
Proof.
  assert (word_cache Double.w0 !! lookup_key (lit "Amavit") 1 = None) as H1
    by reflexivity.
  split; [exact H1|]. eexists. split; [reflexivity|].
  exact (lookup_word_miss_record Double.site (lit "Amavit") 1 Double.w0 _ H1 eq_refl).
Defined.

(** After a lookup that fetched its page, looking the word up again, in
    any casing, returns the stored value, sends no request and leaves the
    state as it is. *)
Theorem lookup_word_repeat navigium word nr w page v :
  word_cache w !! lookup_key word nr = None ->
  navigium (requests w) (lookup_url word nr) = inr page ->
  (lookup_word navigium word nr w).1 = Ok v ->
  forall word2,
    Py.lower word2 = Py.lower word ->
    lookup_word navigium word2 nr (lookup_word navigium word nr w).2
    = (Ok v, (lookup_word navigium word nr w).2).
Proof.
  intros Hmiss Hpage Hv word2 Hlow.
  assert (word_cache (lookup_word navigium word nr w).2 !! lookup_key word2 nr
          = Some v) as Hc.
  { replace (lookup_key word2 nr) with (lookup_key word nr)
      by (unfold lookup_key; by rewrite Hlow).
    revert Hv. unfold lookup_word, fetch_page. rewrite Hmiss, Hpage.
    destruct (lookup_result _ _ _ _); [|done]. simpl. intros [= <-].
    by rewrite lookup_insert_eq. }
  by apply lookup_word_hit.
Qed.

Lemma lookup_word_repeat_witness :
  word_cache Double.w0 !! lookup_key (lit "Amavit") 1 = None
  /\ (exists page, Double.site (requests Double.w0) (lookup_url (lit "Amavit") 1)
                   = inr page)
  /\ exists v,
       (lookup_word Double.site (lit "Amavit") 1 Double.w0).1 = Ok v
       /\ lookup_word Double.site (lit "amavit") 1
            (lookup_word Double.site (lit "Amavit") 1 Double.w0).2
          = (Ok v, (lookup_word Double.site (lit "Amavit") 1 Double.w0).2).
Proof.
  assert (word_cache Double.w0 !! lookup_key (lit "Amavit") 1 = None) as H1
    by reflexivity.
  split; [exact H1|]. split; [by eexists|].
  eexists. split; [reflexivity|].
  exact (lookup_word_repeat Double.site (lit "Amavit") 1 Double.w0 _ _ H1
           eq_refl eq_refl (lit "amavit") eq_refl).
Defined.

(** The alternatives are the other containers that parse to a found
    record. *)
Lemma collect_alternatives_elem containers word index a :
  a ∈ collect_alternatives containers word index
  <-> exists i cont,
        containers !! i = Some cont /\ Z.of_nat i ≠ index
        /\ found (parse_result_container cont word (Z.of_nat i + 1)) = true
        /\ a = {| alt_nr := Z.of_nat i + 1;
                  alt_lemma := lemma (parse_result_container cont word (Z.of_nat i + 1)) |}.
Proof.
  unfold collect_alternatives. rewrite list_elem_of_omap. split.
  - intros ([i cont] & Hin & Ha).
    apply elem_of_lookup_imap in Hin as (j & y & [= -> ->] & Hj).
    case_bool_decide as Hne; [|done].
    destruct (found _) eqn:Hf; [|done]. injection Ha as <-.
    by exists j, y.
  - intros (i & cont & Hi & Hne & Hf & ->). exists (i, cont). split.
    + apply elem_of_lookup_imap. by exists i, cont.
    + rewrite bool_decide_eq_true_2 by done. by rewrite Hf.
Qed.

(** For a query index of at least one, the alternatives of a record are
    numbered within the containers of the page, never name the selected
    container, and each carries a lemma. *)
Theorem lookup_result_alternatives page word nr u r :
  1 <= nr ->
  lookup_result page word nr u = Ok r ->
  exists alts,
    alternatives r = Some alts
    /\ Forall (fun a =>
                 1 <= alt_nr a <= Z.of_nat (length (umgebend page))
                 /\ alt_nr a ≠ Z.min nr (Z.of_nat (length (umgebend page)))
                 /\ is_Some (alt_lemma a)) alts.
Proof.
  intros Hnr. unfold lookup_result. destruct (Py.truthy (umgebend page)).
  2:{ intros [= <-]. by exists []. }
  destruct (Py.index _ _) as [cont|]; [|done]. intros [= <-]. simpl.
  eexists. split; [done|].
  destruct (1 <? length (umgebend page))%nat; [|constructor].
  apply Forall_forall. intros a Ha.
  apply collect_alternatives_elem in Ha as (i & c & Hi & Hne & Hf & ->). simpl.
  apply lookup_lt_Some in Hi. split; [lia|]. split; [lia|].
  by apply parse_result_container_fields.
Qed.

Lemma lookup_result_alternatives_witness :
  let page := {| umgebend := [Double.entry (lit "amo"); Double.entry (lit "amor");
                              Container None];
                 grammar_match := None; forms_containers := [] |} in
  1 <= 2
  /\ exists r,
       lookup_result page (lit "amor") 2 (lookup_url (lit "amor") 2) = Ok r
       /\ alternatives r = Some [ {| alt_nr := 1; alt_lemma := Some (lit "amo") |} ]
       /\ exists alts,
            alternatives r = Some alts
            /\ Forall (fun a =>
                         1 <= alt_nr a <= Z.of_nat (length (umgebend page))
                         /\ alt_nr a ≠ Z.min 2 (Z.of_nat (length (umgebend page)))
                         /\ is_Some (alt_lemma a)) alts.
Proof.
  intros page. assert (1 <= 2) as H by lia. split; [exact H|].
  eexists. split; [reflexivity|]. split; [reflexivity|].
  exact (lookup_result_alternatives page (lit "amor") 2 _ _ H eq_refl).
Defined.

(** Every record of the all-meanings list is found, has a lemma, carries
    the word as given and a number within the containers of the forms
    section, links to that number, and has no alternatives and no
    error. *)
Theorem all_results_records containers word :
  Forall (fun r =>
            found r = true /\ is_Some (lemma r) /\ word_form r = word
            /\ 1 <= record_nr r <= Z.of_nat (length containers)
            /\ url r = Some (lookup_url word (record_nr r))
            /\ alternatives r = Some [] /\ error r = None)
         (all_results containers word).
Proof.
  unfold all_results. apply Forall_forall. intros r Hr.
  apply list_elem_of_omap in Hr as ([i cont] & Hin & Hr).
  apply elem_of_lookup_imap in Hin as (j & y & [= -> ->] & Hj).
  destruct (found _) eqn:Hf; [|done]. injection Hr as <-.
  destruct (parse_result_container_fields y word (Z.of_nat j + 1))
    as (H1 & H2 & _ & _ & H3 & H4 & _).
  apply lookup_lt_Some in Hj.
  unfold set_url_alternatives, record_nr in *. simpl.
  rewrite H2. split_and!; try done; try lia. by apply H4.
Qed.

(** ** The word cache only grows *)

Lemma lookup_word_cache_grows navigium word nr w :
  word_cache w ⊆ word_cache (lookup_word navigium word nr w).2.
Proof.
  unfold lookup_word, fetch_page.
  destruct (word_cache w !! lookup_key word nr) as [v|] eqn:Hc; [done|].
  destruct (navigium _ _); [done|].
  destruct (lookup_result _ _ _ _); [|done]. simpl. by apply insert_subseteq.
Qed.

Lemma wrapper_cache_grows navigium fam x w :
  word_cache w ⊆ word_cache (lookup_word_wrapper navigium fam x w).2.
Proof.
  unfold lookup_word_wrapper. destruct fam.
  - pose proof (lookup_all_cache_grows navigium x w) as H.
    by destruct (lookup_word_all_meanings navigium x w).
  - pose proof (lookup_word_cache_grows navigium x 1 w) as H.
    by destruct (lookup_word navigium x 1 w) as [[[r|l]|e] w1].
Qed.

Lemma run_tasks_cache_grows navigium fam order : forall w,
  word_cache w ⊆ word_cache (run_tasks navigium fam order w).2.
Proof.
  induction order as [|x order IH]; intros w; [done|].
  cbn [run_tasks].
  pose proof (wrapper_cache_grows navigium fam x w) as H1.
  destruct (lookup_word_wrapper navigium fam x w) as [o w1].
  specialize (IH w1).
  destruct (run_tasks navigium fam order w1) as [os w2].
  simpl in *. by transitivity (word_cache w1).
Qed.

(** [lookup_word], [lookup_word_all_meanings] and [analyze_text] never
    remove or replace an entry of the word cache. *)
Theorem word_cache_append_only navigium pool word nr text fam w :
  word_cache w ⊆ word_cache (lookup_word navigium word nr w).2
  /\ word_cache w ⊆ word_cache (lookup_word_all_meanings navigium word w).2
  /\ word_cache w ⊆ word_cache (analyze_text navigium pool text fam w).2.
Proof.
  split; [apply lookup_word_cache_grows|].
  split; [apply lookup_all_cache_grows|].
  rewrite analyze_text_unfold. apply run_tasks_cache_grows.
Qed.

(** ** The requests of one analysis *)

Lemma filter_ext_elem {A} (P Q : A -> Prop) `{!forall x, Decision (P x)}
    `{!forall x, Decision (Q x)} (l : list A) :
  (forall x, x ∈ l -> P x <-> Q x) -> filter P l = filter Q l.
Proof.
  induction l as [|a l IH]; intros Hext; [done|].
  rewrite !filter_cons, IH by (intros ??; apply Hext; by right).
  destruct (decide (P a)) as [Hp|Hp].
  - rewrite decide_True; [done|]. by apply (Hext a); [left|].
  - rewrite decide_False; [done|]. intros Hq. apply Hp. by apply (Hext a); [left|].
Qed.

Lemma wrapper_requests navigium fam x w :
  requests (lookup_word_wrapper navigium fam x w).2
  = requests w ++ match word_cache w !! task_key fam x with
                  | Some _ => []
                  | None => [task_url fam x]
                  end.
Proof.
  unfold lookup_word_wrapper, task_key, task_url. destruct fam.
  - destruct (lookup_all_cases navigium x w)
      as [(v & Hv & H)|[(page & Hm & _ & H)|(e & Hm & _ & H)]];
      rewrite H; simpl; [rewrite Hv|rewrite Hm|rewrite Hm]; try done.
    by rewrite app_nil_r.
  - destruct (word_cache w !! lookup_key x 1) as [v|] eqn:Hc.
    + rewrite (lookup_word_hit _ _ _ _ _ Hc). rewrite app_nil_r.
      by destruct v.
    + rewrite <- (lookup_word_miss_requests navigium x 1 w Hc).
      by destruct (lookup_word navigium x 1 w) as [[[r|l]|e] w1].
Qed.

Lemma run_tasks_requests navigium fam order : forall w,
  NoDup (task_key fam <$> order) ->
  requests (run_tasks navigium fam order w).2
  = requests w
    ++ (task_url fam
          <$> filter (fun x => word_cache w !! task_key fam x = None) order).
Proof.
  induction order as [|x order IH]; intros w Hnd.
  - simpl. by rewrite app_nil_r.
  - rewrite fmap_cons in Hnd. apply NoDup_cons in Hnd as [Hx Hnd].
    cbn [run_tasks].
    pose proof (wrapper_requests navigium fam x w) as Hreq.
    pose proof (wrapper_other navigium fam x w) as Hother.
    destruct (lookup_word_wrapper navigium fam x w) as [o w1].
    specialize (IH w1 Hnd).
    destruct (run_tasks navigium fam order w1) as [os w2]. simpl in *.
    rewrite IH, Hreq, <- app_assoc. f_equal.
    assert (filter (fun y => word_cache w1 !! task_key fam y = None) order
            = filter (fun y => word_cache w !! task_key fam y = None) order) as ->.
    { apply filter_ext_elem. intros y Hy. rewrite Hother; [done|].
      intros Heq. apply Hx. rewrite <- Heq. by apply list_elem_of_fmap_2. }
    rewrite filter_cons.
    destruct (word_cache w !! task_key fam x) as [v|] eqn:Hc.
    + by rewrite decide_False.
    + by rewrite decide_True.
Qed.

Lemma pool_keys_NoDup fam text order :
  order ≡ₚ unique_words_of (words_of text) ->
  NoDup (task_key fam <$> order).
Proof.
  intros Ho. apply NoDup_fmap_2_strong.
  - intros x y Hx Hy. rewrite Ho in Hx, Hy.
    apply (task_key_inj fam text); by apply unique_words_of_elem.
  - rewrite Ho. apply unique_words_of_NoDup.
Qed.

(** One analysis requests exactly the unique words that have no cache
    entry, each once, in the order the pool runs them; a word with a cache
    entry is never requested. *)
Theorem analyze_text_requests navigium pool text fam w :
  let unique_words := unique_words_of (words_of (preprocess_text text)) in
  pool unique_words ≡ₚ unique_words ->
  requests (analyze_text navigium pool text fam w).2
  = requests w
    ++ (task_url fam
          <$> filter (fun x => word_cache w !! task_key fam x = None)
                     (pool unique_words)).
Proof.
  intros uw Hp. rewrite analyze_text_unfold. cbn [snd].
  apply run_tasks_requests. by eapply pool_keys_NoDup.
Qed.

Lemma analyze_text_requests_witness :
  let text := lit "Rosa puellam, PUELLA a rosa!" in
  let unique_words := unique_words_of (words_of (preprocess_text text)) in
  Double.lifo unique_words ≡ₚ unique_words
  /\ requests (analyze_text Double.site Double.lifo text true Double.w0).2
     = [all_url (lit "puella"); all_url (lit "puellam"); all_url (lit "rosa")]
  /\ requests (analyze_text Double.site Double.lifo text true Double.w0).2
     = requests Double.w0
       ++ (task_url true
             <$> filter (fun x => word_cache Double.w0 !! task_key true x = None)
                        (Double.lifo unique_words)).
Proof.
  intros text unique_words.
  assert (Double.lifo unique_words ≡ₚ unique_words) as H
    by apply reverse_Permutation.
  split; [exact H|]. split; [vm_compute; reflexivity|].
  exact (analyze_text_requests Double.site Double.lifo text true Double.w0 H).
Defined.

(** ** Analyzing again *)

Section Repeat.

Variable navigium : list str -> str -> str + soup.
Hypothesis site_up : never_fails navigium.
Variable fam : bool.

Lemma lookup_word_one_repeat x w w2 :
  word_cache (lookup_word navigium x 1 w).2 ⊆ word_cache w2 ->
  lookup_word navigium x 1 w2 = ((lookup_word navigium x 1 w).1, w2).
Proof.
  destruct (word_cache w !! lookup_key x 1) as [v|] eqn:Hc.
  - rewrite (lookup_word_hit _ _ _ _ _ Hc). simpl. intros Hsub.
    by rewrite (lookup_word_hit _ _ _ _ _ (lookup_weaken _ _ _ _ Hc Hsub)).
  - destruct (site_up (requests w) (lookup_url x 1)) as [page Hp].
    assert (exists r, lookup_word navigium x 1 w
                      = (Ok (CRecord r),
                         cache_put (lookup_key x 1) (CRecord r)
                           {| word_cache := word_cache w;
                              requests := requests w ++ [lookup_url x 1] |}))
      as [r ->].
    { unfold lookup_word, fetch_page. rewrite Hc, Hp.
      destruct (lookup_result page x 1 (lookup_url x 1)) as [r|e] eqn:Hr;
        [by exists r|].
      apply lookup_result_raises in Hr as (_ & _ & Hlt). lia. }
    simpl. intros Hsub. apply lookup_word_hit.
    eapply lookup_weaken; [|exact Hsub]. apply lookup_insert_eq.
Qed.

Lemma wrapper_repeat x w w2 :
  word_cache (lookup_word_wrapper navigium fam x w).2 ⊆ word_cache w2 ->
  lookup_word_wrapper navigium fam x w2
  = ((lookup_word_wrapper navigium fam x w).1, w2).
Proof.
  unfold lookup_word_wrapper. destruct fam.
  - destruct (lookup_all_cases navigium x w)
      as [(v & Hv & ->)|[(page & Hm & _ & ->)|(e & _ & He & _)]]; simpl.
    + intros Hsub. by rewrite (lookup_all_hit _ _ _ _ (lookup_weaken _ _ _ _ Hv Hsub)).
    + intros Hsub.
      rewrite (lookup_all_hit navigium x w2
                 (CList (all_results (forms_containers page) x))); [done|].
      eapply lookup_weaken; [|exact Hsub]. apply lookup_insert_eq.
    + destruct (site_up (requests w) (all_url x)) as [page Hp]. congruence.
  - intros Hsub. rewrite (lookup_word_one_repeat x w w2).
    + by destruct (lookup_word navigium x 1 w) as [[[r|l]|e] w1].
    + by destruct (lookup_word navigium x 1 w) as [[[r|l]|e] w1].
Qed.

Lemma run_tasks_repeat order : forall w w2,
  word_cache (run_tasks navigium fam order w).2 ⊆ word_cache w2 ->
  run_tasks navigium fam order w2 = ((run_tasks navigium fam order w).1, w2).
Proof.
  induction order as [|x order IH]; intros w w2; [done|].
  cbn [run_tasks].
  pose proof (wrapper_repeat x w w2) as Hx.
  destruct (lookup_word_wrapper navigium fam x w) as [o w1].
  pose proof (run_tasks_cache_grows navigium fam order w1) as Hgrow.
  specialize (IH w1 w2).
  destruct (run_tasks navigium fam order w1) as [os w']. simpl in *.
  intros Hsub. rewrite Hx by (by transitivity (word_cache w')).
  by rewrite IH.
Qed.

End Repeat.

(** When the site answers every request with a page, analyzing a text a
    second time returns the same entries, sends no request and leaves the
    state as the first analysis left it. *)
Theorem analyze_text_repeat navigium pool text fam w :
  never_fails navigium ->
  analyze_text navigium pool text fam (analyze_text navigium pool text fam w).2
  = analyze_text navigium pool text fam w.
Proof.
  intros Hup. rewrite !analyze_text_unfold. cbn [snd].
  rewrite (run_tasks_repeat navigium Hup fam _ w) by done. done.
Qed.

Lemma analyze_text_repeat_witness :
  never_fails Double.always
  /\ analyze_text Double.always Double.lifo (lit "Amo amas")  false
       (analyze_text Double.always Double.lifo (lit "Amo amas") false Double.w0).2
     = analyze_text Double.always Double.lifo (lit "Amo amas") false Double.w0.
Proof.
  assert (never_fails Double.always) as H by (intros h u; by eexists).
  split; [exact H|].
  exact (analyze_text_repeat Double.always Double.lifo (lit "Amo amas") false
           Double.w0 H).
Defined.

(** ** The loops of api_word_frequency, whatever the caches hold *)

Section Loops.

Variable navigium : list str -> str -> str + soup.
Variable cached_analysis : option (list WordAnalysis).

Lemma get_lemmas_requests word w :
  requests w `prefix_of` requests (get_lemmas navigium cached_analysis word w).2
  /\ (length (requests (get_lemmas navigium cached_analysis word w).2)
      <= S (length (requests w)))%nat.
Proof.
  destruct (find_item cached_analysis word) as [item|] eqn:Hf.
  - rewrite (get_lemmas_item _ _ _ _ _ Hf). simpl. split; [done|lia].
  - rewrite (get_lemmas_lookup _ _ _ _ Hf). simpl.
    destruct (lookup_all_cases navigium (Py.lower word) w)
      as [(v & _ & ->)|[(page & _ & _ & ->)|(e & _ & _ & ->)]]; simpl;
      (split; [try done; by apply prefix_app_r|rewrite ?length_app; simpl; lia]).
Qed.

Lemma prefill_memo_self items : forall memo memo',
  prefill memo items = Ok memo' -> memo_self memo -> memo_self memo'.
Proof.
  induction items as [|item items IH]; intros memo memo'; simpl.
  - by intros [= <-].
  - destruct (with_self (word item) (collect_lemmas (meanings item)))
      as [ls|e] eqn:Hls; [|done].
    intros Hpre Hmemo. apply (IH _ _ Hpre).
    intros t T. destruct (decide (word item = t)) as [<-|Hne].
    + rewrite lookup_insert_eq. intros [= <-]. by apply with_self_ok in Hls as [? _].
    + rewrite lookup_insert_ne by done. apply Hmemo.
Qed.

Lemma text_lemmas_of_gen t memo w o memo' w' :
  text_lemmas_of navigium cached_analysis t memo w = (o, memo', w') ->
  memo ⊆ memo' /\ word_cache w ⊆ word_cache w'
  /\ requests w `prefix_of` requests w'
  /\ forall T, o = Ok T ->
       memo' !! t = Some T
       /\ (memo_self memo -> memo_self memo')
       /\ dom memo' ⊆ dom memo ∪ {[t]}
       /\ (length (requests w') + size memo <= length (requests w) + size memo')%nat.
Proof.
  unfold text_lemmas_of. destruct (memo !! t) as [T0|] eqn:Hmt.
  - intros [= <- <- <-]. split_and!; try done. intros T [= <-].
    split_and!; try done. set_solver.
  - pose proof (get_lemmas_cache_grows navigium cached_analysis t w) as Hgrow.
    pose proof (get_lemmas_requests t w) as [Hpre Hlen].
    pose proof (get_lemmas_self navigium cached_analysis t w) as Hself.
    destruct (get_lemmas navigium cached_analysis t w) as [[T0|e] w1];
      simpl in *; intros [= <- <- <-].
    + split_and!; try done; [by apply insert_subseteq|].
      intros T [= <-]. split_and!.
      * by rewrite lookup_insert_eq.
      * intros Hmemo x X. destruct (decide (t = x)) as [<-|Hne].
        -- rewrite lookup_insert_eq. intros [= <-]. by apply Hself.
        -- rewrite lookup_insert_ne by done. apply Hmemo.
      * rewrite dom_insert_L. set_solver.
      * rewrite (map_size_insert_None _ _ _ Hmt). lia.
    + by split_and!.
Qed.

Lemma scan_text_gen (L : gset str) tokens : forall i memo w o memo' w',
  scan_text navigium cached_analysis L i tokens memo w = (o, memo', w') ->
  memo ⊆ memo' /\ word_cache w ⊆ word_cache w'
  /\ requests w `prefix_of` requests w'
  /\ forall ps, o = Ok ps ->
       ps = matching_positions L (fun t => default ∅ (memo' !! t)) i tokens
       /\ (forall t, t ∈ tokens -> is_Some (memo' !! t))
       /\ (memo_self memo -> memo_self memo')
       /\ dom memo' ⊆ dom memo ∪ list_to_set tokens
       /\ (length (requests w') + size memo <= length (requests w) + size memo')%nat.
Proof.
  induction tokens as [|t tokens IH]; intros i memo w o memo' w'.
  - simpl. intros [= <- <- <-]. split_and!; try done. intros ps [= <-].
    split_and!; try done; [|set_solver]. intros t Ht. by apply elem_of_nil in Ht.
  - cbn [scan_text].
    destruct (text_lemmas_of navigium cached_analysis t memo w)
      as [[o1 memo1] w1] eqn:H1.
    apply text_lemmas_of_gen in H1 as (Hm1 & Hc1 & Hr1 & Hok1).
    destruct o1 as [T|e].
    2:{ intros [= <- <- <-]. by split_and!. }
    destruct (Hok1 T eq_refl) as (Ht & Hself1 & Hdom1 & Hlen1).
    destruct (scan_text navigium cached_analysis L (S i) tokens memo1 w1)
      as [[o2 memo2] w2] eqn:H2.
    apply IH in H2 as (Hm2 & Hc2 & Hr2 & Hok2).
    intros [= <- <- <-].
    split; [by transitivity memo1|]. split; [by transitivity (word_cache w1)|].
    split; [by transitivity (requests w1)|].
    intros ps Hps. destruct o2 as [later|e]; [|done].
    destruct (Hok2 later eq_refl) as (Hlater & Hall & Hself2 & Hdom2 & Hlen2).
    injection Hps as <-.
    assert (memo2 !! t = Some T) as Ht2 by (by eapply lookup_weaken).
    split_and!.
    + cbn [matching_positions]. rewrite Ht2. simpl.
      by rewrite Nat.add_1_r, <- Hlater.
    + intros x [->|Hx]%elem_of_cons; [by eexists|by apply Hall].
    + auto.
    + rewrite list_to_set_cons. clear -Hdom1 Hdom2. set_solver.
    + lia.
Qed.

Lemma frequency_loop_gen tokens search_words : forall memo w o memo' w',
  frequency_loop navigium cached_analysis search_words tokens memo w
  = (o, memo', w') ->
  memo ⊆ memo' /\ word_cache w ⊆ word_cache w'
  /\ requests w `prefix_of` requests w'
  /\ forall ds, o = Ok ds ->
       Forall2 (fun sw d =>
                  search_word d = sw /\ count d = length (positions d)
                  /\ normalize sw ∈ lemmas d
                  /\ positions d
                     = matching_positions (list_to_set (lemmas d))
                         (fun t => default ∅ (memo' !! t)) 0 tokens)
               search_words ds
       /\ (search_words ≠ [] -> forall t, t ∈ tokens -> is_Some (memo' !! t))
       /\ (search_words = [] -> w' = w)
       /\ (memo_self memo -> memo_self memo')
       /\ dom memo' ⊆ dom memo ∪ list_to_set tokens
       /\ (length (requests w') + size memo
           <= length (requests w) + length search_words + size memo')%nat.
Proof.
  induction search_words as [|sw sws IH]; intros memo w o memo' w'.
  - simpl. intros [= <- <- <-]. split_and!; try done. intros ds [= <-].
    split_and!; try done; [set_solver|lia].
  - cbn [frequency_loop].
    pose proof (get_lemmas_cache_grows navigium cached_analysis sw w) as Hc0.
    pose proof (get_lemmas_requests sw w) as [Hr0 Hlen0].
    pose proof (get_lemmas_self navigium cached_analysis sw w) as Hself0.
    destruct (get_lemmas navigium cached_analysis sw w) as [[L|e] w1];
      simpl in *.
    2:{ intros [= <- <- <-]. by split_and!. }
    destruct (scan_text navigium cached_analysis L 0 tokens memo w1)
      as [[o1 memo1] w2] eqn:H1.
    apply scan_text_gen in H1 as (Hm1 & Hc1 & Hr1 & Hok1).
    destruct o1 as [ps|e].
    2:{ intros [= <- <- <-]. split_and!; try done.
        - by transitivity (word_cache w1).
        - by transitivity (requests w1). }
    destruct (Hok1 ps eq_refl) as (Hps & Hall1 & Hself1 & Hdom1 & Hlen1).
    destruct (frequency_loop navigium cached_analysis sws tokens memo1 w2)
      as [[o2 memo2] w3] eqn:H2.
    apply IH in H2 as (Hm2 & Hc2 & Hr2 & Hok2).
    intros [= <- <- <-].
    split; [by transitivity memo1|].
    split; [transitivity (word_cache w1); [done|by transitivity (word_cache w2)]|].
    split; [transitivity (requests w1); [done|by transitivity (requests w2)]|].
    intros ds Hds. destruct o2 as [later|e]; [|done].
    destruct (Hok2 later eq_refl) as (Hlater & _ & _ & Hself2 & Hdom2 & Hlen2).
    injection Hds as <-.
    assert (forall t, t ∈ tokens -> memo2 !! t = memo1 !! t) as Hsame.
    { intros t Ht. destruct (Hall1 t Ht) as [T HT]. rewrite HT.
      by eapply lookup_weaken. }
    split_and!.
    + constructor; [|done]. simpl. split_and!; try done.
      * apply elem_of_elements. by apply Hself0.
      * rewrite list_to_set_elements_L, Hps.
        apply matching_positions_ext. intros t Ht. by rewrite Hsame.
    + intros _ t Ht. rewrite Hsame by done. by apply Hall1.
    + done.
    + auto.
    + clear -Hdom1 Hdom2. set_solver.
    + simpl. lia.
Qed.

End Loops.

(** ** The endpoints *)

Lemma matching_positions_length (L : gset str) (f : str -> gset str) tokens :
  forall i, (length (matching_positions L f i tokens) <= length tokens)%nat.
Proof.
  induction tokens as [|t tokens IH]; intros i; simpl; [lia|].
  case_bool_decide; simpl; specialize (IH (S i)); lia.
Qed.

(** What a well-formed word-frequency request does, in terms of its two
    loops. *)
Lemma api_word_frequency_unfold navigium sha256 text search_words s :
  api_word_frequency navigium sha256
    (Some {| f_text := Some text; f_search_words := Some search_words |}) s
  = match get_text_hash sha256 (preprocess_text text) with
    | Raise e => (Raise e, s)
    | Ok h =>
        let ca := ANALYSIS_CACHE s !! h in
        let tokens := words_of (preprocess_text text) in
        match prefill ∅ (analysis_items ca) with
        | Raise e => (Raise e, s)
        | Ok memo =>
            let r :=
              frequency_loop navigium ca search_words tokens memo (scraper s) in
            (match r.1.1 with
             | Ok word_data =>
                 Ok (Status200 {| total_words := length tokens;
                                  word_data := word_data |})
             | Raise e => Raise e
             end,
             {| scraper := r.2; ANALYSIS_CACHE := ANALYSIS_CACHE s |})
        end
    end.
Proof.
  unfold api_word_frequency. simpl.
  destruct (get_text_hash _ _); [|done].
  destruct (prefill _ _); [|done].
  by destruct (frequency_loop _ _ _ _ _ _) as [[o m] w].
Qed.

(** A word-frequency request is rejected exactly when the body, the text
    or the search words are missing; a rejected request changes nothing,
    and no request ever changes the analysis cache. *)
Theorem api_word_frequency_rejects navigium sha256 data s :
  let r := api_word_frequency navigium sha256 data s in
  ((exists m, r.1 = Ok (Status400 m))
   <-> (data = None
        \/ exists d, data = Some d
                     /\ (f_text d = None \/ f_search_words d = None)))
  /\ (forall m, r.1 = Ok (Status400 m) -> r.2 = s)
  /\ ANALYSIS_CACHE r.2 = ANALYSIS_CACHE s.
Proof.
  destruct data as [[[text|] [search_words|]]|]; simpl.
  2-4: split_and!; try done; (split; [intros _|by eexists]); eauto.
  - fold (api_word_frequency navigium sha256
            (Some {| f_text := Some text; f_search_words := Some search_words |}) s).
    rewrite api_word_frequency_unfold.
    destruct (get_text_hash _ _) as [h|e]; cbv zeta.
    2:{ simpl. split_and!; try done.
        split; [by intros [??]|]. intros [?|(d & [= <-] & [?|?])]; done. }
    destruct (prefill _ _) as [memo|e]; simpl.
    + destruct (frequency_loop _ _ _ _ _ _) as [[[ds|e] m] w]; simpl;
        split_and!; try done;
        (split; [by intros [??]|]; intros [?|(d & [= <-] & [?|?])]; done).
    + split_and!; try done.
      split; [by intros [??]|]. intros [?|(d & [= <-] & [?|?])]; done.
  - split_and!; try done. split; [intros _; by left|by eexists].
Qed.

(** A word-frequency request that is answered has sent at most one request
    per search word and one per distinct token of the text; without search
    words it sends none and changes nothing. *)
Theorem api_word_frequency_requests navigium sha256 text search_words s body :
  let r := api_word_frequency navigium sha256
             (Some {| f_text := Some text; f_search_words := Some search_words |})
             s in
  r.1 = Ok (Status200 body) ->
  (length (requests (scraper r.2))
   <= length (requests (scraper s)) + length search_words
      + size (list_to_set (words_of (preprocess_text text)) : gset str))%nat
  /\ (search_words = [] -> r.2 = s /\ word_data body = []).
Proof.
  intros r. subst r. rewrite api_word_frequency_unfold.
  destruct (get_text_hash _ _) as [h|e]; [|done]. cbv zeta.
  destruct (prefill _ _) as [memo|e]; [|done].
  destruct (frequency_loop _ _ _ _ _ _) as [[o memo'] w'] eqn:Hloop.
  apply frequency_loop_gen in Hloop as (_ & _ & _ & Hok). simpl.
  destruct o as [ds|e]; [|done]. intros [= <-].
  destruct (Hok ds eq_refl) as (Hds & _ & Hnil & _ & Hdom & Hlen).
  split.
  - apply subseteq_size in Hdom. rewrite size_union_alt, !size_dom in Hdom.
    assert (size (list_to_set (words_of (preprocess_text text)) ∖ dom memo)
            <= size (list_to_set (words_of (preprocess_text text)) : gset str))%nat
      by (apply subseteq_size; set_solver).
    lia.
  - intros ->. rewrite (Hnil eq_refl). split; [by destruct s|]. by inversion Hds.
Qed.

Lemma api_word_frequency_requests_witness :
  let r := api_word_frequency Double.site Double.digest
             (Some {| f_text := Some (lit "Rosa rosa rosa puella");
                      f_search_words := Some [lit "puella"] |}) Double.s0 in
  exists body,
    r.1 = Ok (Status200 body)
    /\ length (requests (scraper r.2)) = 2%nat
    /\ (length (requests (scraper r.2))
        <= length (requests (scraper Double.s0)) + length [lit "puella"]
           + size (list_to_set (words_of (preprocess_text (lit "Rosa rosa rosa puella")))
                   : gset str))%nat.
Proof.
  intros r. eexists. split; [vm_compute; reflexivity|]. split; [reflexivity|].
  exact (proj1 (api_word_frequency_requests Double.site Double.digest
                  (lit "Rosa rosa rosa puella") [lit "puella"] Double.s0 _ eq_refl)).
Defined.

(** In an answered word-frequency request, the positions of a search word
    ascend, lie between one and [total_words], are at most [total_words]
    many, and include every position whose token has the search word's
    normalized form. *)
Theorem api_word_frequency_counts navigium sha256 text search_words s body :
  let tokens := words_of (preprocess_text text) in
  (api_word_frequency navigium sha256
     (Some {| f_text := Some text; f_search_words := Some search_words |}) s).1
  = Ok (Status200 body) ->
  Forall2 (fun sw d =>
             search_word d = sw
             /\ StronglySorted lt (positions d)
             /\ Forall (fun p => (1 <= p <= total_words body)%nat) (positions d)
             /\ (count d <= total_words body)%nat
             /\ forall k t, tokens !! k = Some t ->
                            normalize t = normalize sw ->
                            S k ∈ positions d)
          search_words (word_data body).
Proof.
  intros tokens. rewrite api_word_frequency_unfold.
  destruct (get_text_hash _ _) as [h|e]; [|done]. cbv zeta. fold tokens.
  destruct (prefill _ _) as [memo|e] eqn:Hpre; [|done].
  apply prefill_memo_self in Hpre;
    [|intros t T; by rewrite lookup_empty].
  destruct (frequency_loop _ _ _ _ _ _) as [[o memo'] w'] eqn:Hloop.
  apply frequency_loop_gen in Hloop as (_ & _ & _ & Hok). simpl.
  destruct o as [ds|e]; [|done]. intros [= <-]. simpl.
  destruct (Hok ds eq_refl) as (Hds & Hall & _ & Hself & _ & _).
  specialize (Hself Hpre).
  destruct search_words as [|sw0 sws0] eqn:Hsws; [inversion Hds; constructor|].
  assert (sw0 :: sws0 ≠ []) as Hne by done.
  specialize (Hall Hne).
  eapply Forall2_impl; [exact Hds|].
  intros sw d (Hsw & Hcount & Hnorm & Hpos). simpl.
  split; [done|]. rewrite Hcount, Hpos.
  split; [apply matching_positions_ascending|].
  split; [|split; [apply matching_positions_length|]].
  - apply Forall_forall. intros p Hp.
    apply matching_positions_elem in Hp as (k & t & Hk & -> & _).
    apply lookup_lt_Some in Hk. lia.
  - intros k t Hk Hn. apply matching_positions_elem.
    exists k, t. split; [done|]. split; [done|].
    destruct (Hall t) as [T HT]; [by eapply list_elem_of_lookup_2|].
    rewrite HT. simpl. apply Hself in HT.
    assert (normalize t ∈ (list_to_set (lemmas d) : gset str)) as Hin
      by (rewrite Hn; by apply elem_of_list_to_set).
    set_solver.
Qed.

Lemma api_word_frequency_counts_witness :
  let text := lit "Rosa rosa puella" in
  let tokens := words_of (preprocess_text text) in
  exists body,
    (api_word_frequency Double.down Double.digest
       (Some {| f_text := Some text; f_search_words := Some [lit "ROSA"] |})
       Double.s0).1
    = Ok (Status200 body)
    /\ (positions <$> word_data body) = [[1; 2]%nat]
    /\ Forall2 (fun sw d =>
                  search_word d = sw
                  /\ StronglySorted lt (positions d)
                  /\ Forall (fun p => (1 <= p <= total_words body)%nat) (positions d)
                  /\ (count d <= total_words body)%nat
                  /\ forall k t, tokens !! k = Some t ->
                                 normalize t = normalize sw ->
                                 S k ∈ positions d)
               [lit "ROSA"] (word_data body).
Proof.
  intros text tokens. eexists. split; [vm_compute; reflexivity|].
  split; [reflexivity|].
  exact (api_word_frequency_counts Double.down Double.digest text [lit "ROSA"]
           Double.s0 _ eq_refl).
Defined.

(** *** Texts without a fingerprint *)

Lemma encode_char_cases c :
  if is_surrogate c then encode_char c = Raise UnicodeEncodeError
  else exists b, encode_char c = Ok b.
Proof.
  unfold encode_char, is_surrogate, Py.between.
  destruct (N.ltb_spec c 128); [rewrite (proj2 (N.leb_gt _ _)) by lia; by eexists|].
  destruct (N.ltb_spec c 2048); [rewrite (proj2 (N.leb_gt _ _)) by lia; by eexists|].
  destruct ((55296 <=? c)%N && (c <=? 57343)%N); [done|].
  destruct (c <? 65536)%N; by eexists.
Qed.

Lemma encode_utf8_cases text :
  if existsb is_surrogate text then encode_utf8 text = Raise UnicodeEncodeError
  else exists data, encode_utf8 text = Ok data.
Proof.
  induction text as [|c text IH]; simpl; [by eexists|].
  pose proof (encode_char_cases c) as Hc.
  destruct (is_surrogate c); simpl; [by rewrite Hc|].
  destruct Hc as [b ->].
  destruct (existsb is_surrogate text); [by rewrite IH|].
  destruct IH as [bs ->]. by eexists.
Qed.

Lemma get_text_hash_cases sha256 text :
  if existsb is_surrogate text
  then get_text_hash sha256 text = Raise UnicodeEncodeError
  else exists h, get_text_hash sha256 text = Ok h.
Proof.
  unfold get_text_hash. pose proof (encode_utf8_cases text) as H.
  destruct (existsb is_surrogate text); [by rewrite H|].
  destruct H as [data ->]. by eexists.
Qed.

(** The normalizer neither removes nor adds a surrogate. *)
Lemma surrogate_kept c :
  is_surrogate c = true ->
  Py.is_space c = false /\ is_control c = false /\ replaced c = false
  /\ c ∉ [39; 34; 45; 32; 46]%N.
Proof.
  unfold is_surrogate, Py.between. intros [H1 H2]%andb_prop.
  apply N.leb_le in H1, H2.
  split_and!.
  - unfold Py.is_space, Py.between.
    rewrite !orb_false_iff, !andb_false_iff, !N.leb_gt, !N.eqb_neq. lia.
  - unfold is_control, Py.between.
    rewrite !orb_false_iff, !andb_false_iff, !N.leb_gt, !N.eqb_neq. lia.
  - apply not_true_is_false. intros Hr. apply replaced_cases in Hr. lia.
  - rewrite !not_elem_of_cons. split_and!; try lia. apply not_elem_of_nil.
Qed.

Lemma replace_all_one_elem c d :
  d ∈ replace_all [c] -> d = c \/ d ∈ [39; 34; 45; 32; 46]%N.
Proof.
  rewrite replace_all_one. destruct (replaced c) eqn:Hc.
  - apply replaced_cases in Hc. intros Hd. right.
    repeat (destruct Hc as [->|Hc];
            [vm_compute in Hd; set_solver|]).
    subst. vm_compute in Hd. set_solver.
  - intros ->%list_elem_of_singleton. by left.
Qed.

Lemma replace_all_elem c s :
  replaced c = false -> c ∉ [39; 34; 45; 32; 46]%N ->
  c ∈ replace_all s <-> c ∈ s.
Proof.
  intros Hr Hout. induction s as [|d s IH].
  - done.
  - rewrite replace_all_cons, elem_of_app, elem_of_cons, IH.
    split; (intros [H|H]; [left|by right]).
    + by destruct (replace_all_one_elem _ _ H).
    + subst d. rewrite replace_all_one, Hr. left.
Qed.

Lemma lstrip_keeps s x : x ∈ s -> Py.is_space x = false -> x ∈ Py.lstrip s.
Proof.
  intros Hx Hs. induction s as [|c s IH]; [by apply elem_of_nil in Hx|]. simpl.
  destruct (Py.is_space c) eqn:Hc; [|exact Hx].
  apply elem_of_cons in Hx as [->|Hx]; [congruence|by apply IH].
Qed.

Lemma strip_elem s x : Py.is_space x = false -> x ∈ Py.strip s <-> x ∈ s.
Proof.
  intros Hs. split.
  - destruct (strip_infix s) as (pre & post & Heq). intros Hx.
    rewrite Heq, !elem_of_app. auto.
  - intros Hx. unfold Py.strip, Py.rstrip.
    apply elem_of_reverse, lstrip_keeps; [|done].
    apply elem_of_reverse. by apply lstrip_keeps.
Qed.

Lemma preprocess_text_elem text c :
  is_surrogate c = true -> c ∈ preprocess_text text <-> c ∈ text.
Proof.
  intros Hc. destruct (surrogate_kept c Hc) as (Hs & Hctl & Hr & Hout).
  rewrite preprocess_text_unfold. destruct text as [|d text]; [done|].
  cbn [Py.truthy]. rewrite strip_elem by done. split.
  - intros H. apply squeeze_elem in H as [->|[H _]]; [done|].
    apply list_elem_of_filter in H as [_ H].
    by apply (proj1 (replace_all_elem c (d :: text) Hr Hout)).
  - intros H. apply squeeze_keeps; [|done].
    apply list_elem_of_filter. split; [done|].
    by apply (proj2 (replace_all_elem c (d :: text) Hr Hout)).
Qed.

Lemma preprocess_text_surrogate text :
  existsb is_surrogate (preprocess_text text) = existsb is_surrogate text.
Proof.
  apply eq_true_iff_eq. rewrite !existsb_exists.
  split; intros (c & Hin & Hc); exists c; (split; [|done]);
    apply list_elem_of_In; apply list_elem_of_In in Hin;
    by apply (preprocess_text_elem text c Hc).
Qed.


(** *** api_analyze *)



(** No endpoint removes or replaces an entry of the word cache or of the
    analysis cache. *)
Theorem server_caches_append_only navigium pool sha256 s :
  (forall word nr,
     let s' := (api_lookup navigium word nr s).2 in
     word_cache (scraper s) ⊆ word_cache (scraper s')
     /\ ANALYSIS_CACHE s = ANALYSIS_CACHE s')
  /\ (forall data,
        let s' := (api_analyze navigium pool sha256 data s).2 in
        word_cache (scraper s) ⊆ word_cache (scraper s')
        /\ ANALYSIS_CACHE s ⊆ ANALYSIS_CACHE s')
  /\ (forall data,
        let s' := (api_word_frequency navigium sha256 data s).2 in
        word_cache (scraper s) ⊆ word_cache (scraper s')
        /\ ANALYSIS_CACHE s = ANALYSIS_CACHE s').
Proof.
  split_and!.
  - intros word nr. unfold api_lookup.
    pose proof (lookup_word_cache_grows navigium word nr (scraper s)) as H.
    by destruct (lookup_word navigium word nr (scraper s)).
  - intros data. unfold api_analyze.
    destruct (data ≫= a_text) as [text|]; [|done].
    destruct (Py.truthy _); [|done].
    destruct (get_text_hash _ _) as [h|e]; [|done].
    destruct (ANALYSIS_CACHE s !! _) as [cached|] eqn:Hc; [done|].
    pose proof (run_tasks_cache_grows navigium true
                  (pool (unique_words_of (words_of (preprocess_text (preprocess_text text)))))
                  (scraper s)) as H.
    rewrite analyze_text_unfold. simpl. split; [done|]. by apply insert_subseteq.
  - intros data. destruct data as [[[text|] [search_words|]]|]; try done.
    rewrite api_word_frequency_unfold.
    destruct (get_text_hash _ _) as [h|e]; [|done]. cbv zeta.
    destruct (prefill _ _) as [memo|e]; [|done].
    destruct (frequency_loop _ _ _ _ _ _) as [[o memo'] w'] eqn:Hloop.
    apply frequency_loop_gen in Hloop as (_ & Hgrow & _). by simpl.
Qed.

(** ** More on analyze_text *)



Lemma first_occurrences_sublist l : first_occurrences l `sublist_of` l.
Proof.
  induction l as [|x l IH]; [constructor|]. simpl.
  apply sublist_skip. etransitivity; [apply sublist_filter|exact IH].
Qed.

Lemma omap_length_le {A B} (f : A -> option B) (l : list A) :
  (length (omap f l) <= length l)%nat.
Proof.
  induction l as [|x l IH]; [done|]. cbn [omap list_omap].
  destruct (f x); simpl; lia.
Qed.

(** The word of every entry is a lowercase token of the text with at least
    two code points; there are at most as many entries as tokens;
    [has_multiple] tells whether the entry has more than one meaning, and
    in single lookup mode it is never set. *)
Theorem analyze_text_entries navigium pool text fam w :
  let tokens := words_of (preprocess_text text) in
  let out := (analyze_text navigium pool text fam w).1 in
  Forall (fun item =>
            item_word item ∈ tokens
            /\ (2 <= length (item_word item))%nat
            /\ Py.lower (item_word item) = item_word item
            /\ has_multiple item = (1 <? py_len (meanings item))%nat
            /\ (fam = false -> has_multiple item = false))
         out
  /\ (length out <= length tokens)%nat.
Proof.
  intros tokens out. subst out. rewrite analyze_text_unfold. cbn [fst]. split.
  - apply Forall_forall. intros item Hitem.
    apply assemble_item in Hitem as (Hin & Hv & Hm).
    assert (item_word item ∈ tokens /\ (2 <= length (item_word item))%nat)
      as [Htok Hlen].
    { revert Hin. rewrite unique_words_of_spec, first_occurrences_elem,
                    list_elem_of_filter. tauto. }
    split_and!; try done; [by eapply words_of_lower|].
    intros ->. rewrite Hm.
    apply collect_lookup in Hv as [Hv|[Hv _]]; [by rewrite lookup_empty in Hv|].
    pose proof (run_tasks_single navigium
                  (pool (unique_words_of (words_of (preprocess_text text)))) w) as Hall.
    rewrite Forall_forall in Hall. specialize (Hall _ Hv). simpl in Hall.
    by destruct Hall as [->|(r & -> & _)].
  - unfold assemble.
    transitivity (length (unique_words_of (words_of (preprocess_text text)))).
    + apply omap_length_le.
    + rewrite unique_words_of_spec.
      apply sublist_length.
      transitivity (filter (fun x : str => (2 <= length x)%nat) tokens);
        [|apply sublist_filter].
      apply first_occurrences_sublist.
Qed.

(** ** One dictionary for two kinds of key *)

Lemma uint_str_lowered d : Forall lowered (Py.uint_str d).
Proof. induction d; simpl; constructor; done. Qed.

Lemma int_str_lowered z : Forall lowered (Py.int_str z).
Proof.
  unfold Py.int_str.
  destruct (Z.to_int z); [|constructor; [done|]]; apply uint_str_lowered.
Qed.

(** Lower case of a string that starts with [all_]: the underscore is
    neither cased nor case-ignorable, so what precedes it does not bear on
    what follows it. *)
Lemma lower_all_prefix x : Py.lower (lit "all_" ++ x) = lit "all_" ++ Py.lower x.
Proof. reflexivity. Qed.

(** The key of a single lookup of [all_x] with index [nr] is the
    all-meanings key of [x_nr].  So once such a lookup has stored its
    record, resolving the lemmas of [x_nr] finds a dictionary where it
    expects a list and raises. *)
Theorem shared_key_namespace navigium x nr w page :
  let word := Py.lower x ++ lit "_" ++ Py.int_str nr in
  word_cache w !! lookup_key (lit "all_" ++ x) nr = None ->
  navigium (requests w) (lookup_url (lit "all_" ++ x) nr) = inr page ->
  1 <= nr ->
  lookup_key (lit "all_" ++ x) nr = all_key word
  /\ get_lemmas navigium None word (lookup_word navigium (lit "all_" ++ x) nr w).2
     = (Raise AttributeError, (lookup_word navigium (lit "all_" ++ x) nr w).2).
Proof.
  intros word Hmiss Hpage Hnr.
  assert (lookup_key (lit "all_" ++ x) nr = all_key word) as Hkey.
  { unfold lookup_key, all_key, word. rewrite lower_all_prefix.
    by rewrite <- app_assoc. }
  split; [done|].
  assert (Py.lower word = word) as Hlow.
  { unfold word. apply lower_fixed. apply Forall_app. split; [apply lower_lowered|].
    apply Forall_app. split; [by repeat constructor|apply int_str_lowered]. }
  assert (exists r, lookup_word navigium (lit "all_" ++ x) nr w
                    = (Ok (CRecord r),
                       cache_put (lookup_key (lit "all_" ++ x) nr) (CRecord r)
                         {| word_cache := word_cache w;
                            requests := requests w
                                          ++ [lookup_url (lit "all_" ++ x) nr] |}))
    as [r ->].
  { unfold lookup_word, fetch_page. rewrite Hmiss, Hpage.
    destruct (lookup_result page _ nr _) as [r|e] eqn:Hr; [by exists r|].
    apply lookup_result_raises in Hr as (_ & _ & Hlt). lia. }
  rewrite get_lemmas_lookup by done. rewrite Hlow.
  rewrite (lookup_all_hit _ _ _ (CRecord r)); [done|].
  simpl. rewrite <- Hkey. apply lookup_insert_eq.
Qed.

Lemma shared_key_namespace_witness :
  word_cache Double.w0 !! lookup_key (lit "all_" ++ lit "Rosa") 1 = None
  /\ (exists page, Double.always (requests Double.w0)
                     (lookup_url (lit "all_" ++ lit "Rosa") 1) = inr page)
  /\ 1 <= 1
  /\ lookup_key (lit "all_" ++ lit "Rosa") 1 = all_key (lit "rosa_1")
  /\ get_lemmas Double.always None (lit "rosa_1")
       (lookup_word Double.always (lit "all_" ++ lit "Rosa") 1 Double.w0).2
     = (Raise AttributeError,
        (lookup_word Double.always (lit "all_" ++ lit "Rosa") 1 Double.w0).2).
Proof.
  assert (word_cache Double.w0 !! lookup_key (lit "all_" ++ lit "Rosa") 1 = None)
    as H1 by reflexivity.
  assert (1 <= 1) as H3 by lia.
  split; [exact H1|]. split; [by eexists|]. split; [exact H3|].
  exact (shared_key_namespace Double.always (lit "Rosa") 1 Double.w0 _ H1 eq_refl H3).
Defined.

(** * Every state of the server *)

(** ** The two kinds of key *)

Lemma uint_str_digits d : Forall (fun c => is_digit c = true) (Py.uint_str d).
Proof. induction d; simpl; constructor; done. Qed.

Lemma int_str_last z : exists c, last (Py.int_str z) = Some c /\ is_digit c = true.
Proof.
  assert (forall d, d ≠ Decimal.Nil ->
            exists c, last (Py.uint_str d) = Some c /\ is_digit c = true) as Hd.
  { intros d Hne.
    assert (Py.uint_str d ≠ []) as Hn by (by destruct d).
    apply last_is_Some in Hn as [c Hc]. exists c. split; [done|].
    pose proof (uint_str_digits d) as Hall. rewrite Forall_forall in Hall.
    by apply Hall, last_Some_elem_of. }
  unfold Py.int_str. destruct z as [|p|p]; simpl.
  - by eexists.
  - apply Hd, Unsigned.to_uint_nonnil.
  - destruct (Hd (Pos.to_uint p) (Unsigned.to_uint_nonnil p)) as (c & Hc & ?).
    exists c. split; [|done]. rewrite last_cons. by rewrite Hc.
Qed.

Lemma word_char_not_digit c : is_word_char c = true -> is_digit c = false.
Proof.
  unfold is_word_char, is_digit, Py.between. intros H.
  apply not_true_is_false. intros Hd. revert H.
  apply andb_prop in Hd as [H1 H2]. apply N.leb_le in H1, H2.
  rewrite !orb_true_iff, !andb_true_iff, !N.leb_le, !N.eqb_eq. lia.
Qed.

(** The "all" key of a token is not a key of [lookup_word]: the one ends
    in a letter, the other in a digit. *)
Lemma token_key_not_lookup_key t word nr :
  is_token t -> all_key t ≠ lookup_key word nr.
Proof.
  intros (Hne & Hchars & _) Heq.
  assert (last (all_key t) = last (lookup_key word nr)) as Hlast by (by rewrite Heq).
  unfold all_key, lookup_key in Hlast. rewrite !last_app in Hlast.
  destruct (int_str_last nr) as (d & Hd & Hdigit). rewrite Hd in Hlast.
  apply last_is_Some in Hne as [c Hc]. rewrite Hc in Hlast. injection Hlast as ->.
  rewrite Forall_forall in Hchars.
  apply last_Some_elem_of, Hchars, word_char_not_digit in Hc. congruence.
Qed.

Lemma cache_ok_token w t v :
  cache_ok w -> is_token t ->
  word_cache w !! all_key t = Some v ->
  exists l, v = CList l /\ Forall stored_ok l.
Proof.
  intros Hw Ht Hv. specialize (Hw _ _ Hv). destruct v as [r|l].
  - destruct Hw as (word & nr & Hk). by apply token_key_not_lookup_key in Hk.
  - by exists l.
Qed.

Lemma words_of_token text t : t ∈ words_of text -> is_token t.
Proof.
  intros Ht.
  pose proof (runs_spec is_word_char (Py.lower text)) as H.
  rewrite Forall_forall in H. destruct (H t Ht) as [H1 H2].
  split; [done|]. split; [done|]. by eapply words_of_lower.
Qed.

(** ** Later states *)

Lemma grown_refl w : grown w w.
Proof. by split_and!. Qed.

Lemma grown_trans w1 w2 w3 : grown w1 w2 -> grown w2 w3 -> grown w1 w3.
Proof.
  intros (H1 & H2 & H3) (H4 & H5 & H6). split_and!.
  - by transitivity (word_cache w2).
  - by transitivity (requests w2).
  - intros k r Hk. by apply H3, H6.
Qed.

Lemma key_taken_grown ca w w' x :
  grown w w' -> key_taken ca w' x <-> key_taken ca w x.
Proof.
  intros (Hsub & _ & Hrec). unfold key_taken. split.
  - intros [Hf [r Hr]]. split; [done|]. exists r. by apply Hrec.
  - intros [Hf [r Hr]]. split; [done|]. exists r. by eapply lookup_weaken.
Qed.

Section CacheOk.

Variable navigium : list str -> str -> str + soup.

Lemma lookup_all_grown x w : grown w (lookup_word_all_meanings navigium x w).2.
Proof.
  split_and!; [apply lookup_all_cache_grows|apply lookup_all_requests_grow|].
  destruct (lookup_all_cases navigium x w)
    as [(v & _ & ->)|[(page & Hmiss & _ & ->)|(e & _ & _ & ->)]]; simpl;
    [done| |done].
  intros k r. destruct (decide (all_key x = k)) as [<-|Hne].
  - by rewrite lookup_insert_eq.
  - by rewrite lookup_insert_ne.
Qed.

Lemma lookup_all_cache_ok x w :
  cache_ok w -> cache_ok (lookup_word_all_meanings navigium x w).2.
Proof.
  intros Hw.
  destruct (lookup_all_cases navigium x w)
    as [(v & _ & ->)|[(page & Hmiss & _ & ->)|(e & _ & _ & ->)]]; simpl;
    [done| |done].
  intros k v. simpl. destruct (decide (all_key x = k)) as [<-|Hne].
  - rewrite lookup_insert_eq. intros [= <-]. apply all_results_stored_ok.
  - rewrite lookup_insert_ne by done. apply Hw.
Qed.

Lemma lookup_all_cache_from x w :
  stateless navigium ->
  cache_from navigium w ->
  cache_from navigium (lookup_word_all_meanings navigium x w).2.
Proof.
  intros Hst Hw.
  destruct (lookup_all_cases navigium x w)
    as [(v & _ & ->)|[(page & Hmiss & Hp & ->)|(e & _ & _ & ->)]]; simpl;
    [done| |done].
  intros k l. simpl. destruct (decide (all_key x = k)) as [<-|Hne].
  - rewrite lookup_insert_eq. intros [= <-]. exists x. split; [done|].
    unfold site_meanings. by rewrite (Hst [] (requests w)), Hp.
  - rewrite lookup_insert_ne by done. apply Hw.
Qed.

Lemma lookup_word_cache_ok word nr w :
  cache_ok w -> cache_ok (lookup_word navigium word nr w).2.
Proof.
  intros Hw. unfold lookup_word, fetch_page.
  destruct (word_cache w !! lookup_key word nr) as [v|] eqn:Hc; [done|].
  destruct (navigium _ _); [done|].
  destruct (lookup_result _ _ _ _); [|done]. simpl.
  intros k v. simpl. destruct (decide (lookup_key word nr = k)) as [<-|Hne].
  - rewrite lookup_insert_eq. intros [= <-]. by eexists _, _.
  - rewrite lookup_insert_ne by done. apply Hw.
Qed.

Lemma lookup_word_cache_from word nr w :
  cache_from navigium w -> cache_from navigium (lookup_word navigium word nr w).2.
Proof.
  intros Hw. unfold lookup_word, fetch_page.
  destruct (word_cache w !! lookup_key word nr) as [v|] eqn:Hc; [done|].
  destruct (navigium _ _); [done|].
  destruct (lookup_result _ _ _ _); [|done]. simpl.
  intros k v. simpl. destruct (decide (lookup_key word nr = k)) as [<-|Hne].
  - by rewrite lookup_insert_eq.
  - rewrite lookup_insert_ne by done. apply Hw.
Qed.

(** A property of the state that every all-meanings lookup keeps is kept
    by the tasks of an analysis and by the loops of a word-frequency
    request. *)
Section Kept.

Variable P : world -> Prop.
Hypothesis lookup_keeps : forall x w, P w -> P (lookup_word_all_meanings navigium x w).2.

Lemma run_tasks_keeps order : forall w, P w -> P (run_tasks navigium true order w).2.
Proof.
  induction order as [|x order IH]; intros w Hw; [done|].
  cbn [run_tasks lookup_word_wrapper].
  pose proof (lookup_keeps x w Hw) as H1.
  destruct (lookup_word_all_meanings navigium x w) as [v w1].
  specialize (IH w1 H1).
  by destruct (run_tasks navigium true order w1) as [os w2].
Qed.

Variable cached_analysis : option (list WordAnalysis).

Lemma get_lemmas_keeps x w :
  P w -> P (get_lemmas navigium cached_analysis x w).2.
Proof.
  intros Hw. destruct (find_item cached_analysis x) as [item|] eqn:Hf.
  - by rewrite (get_lemmas_item _ _ _ _ _ Hf).
  - rewrite (get_lemmas_lookup _ _ _ _ Hf). by apply lookup_keeps.
Qed.

Lemma text_lemmas_of_keeps t memo w :
  P w -> P (text_lemmas_of navigium cached_analysis t memo w).2.
Proof.
  intros Hw. unfold text_lemmas_of. destruct (memo !! t); [done|].
  pose proof (get_lemmas_keeps t w Hw) as H.
  by destruct (get_lemmas navigium cached_analysis t w) as [[T|e] w1].
Qed.

Lemma scan_text_keeps L tokens : forall i memo w,
  P w -> P (scan_text navigium cached_analysis L i tokens memo w).2.
Proof.
  induction tokens as [|t tokens IH]; intros i memo w Hw; [done|].
  cbn [scan_text].
  pose proof (text_lemmas_of_keeps t memo w Hw) as H1.
  destruct (text_lemmas_of navigium cached_analysis t memo w)
    as [[[T|e] memo1] w1]; [|done].
  specialize (IH (S i) memo1 w1 H1).
  by destruct (scan_text navigium cached_analysis L (S i) tokens memo1 w1)
    as [[o memo2] w2].
Qed.

Lemma frequency_loop_keeps tokens search_words : forall memo w,
  P w ->
  P (frequency_loop navigium cached_analysis search_words tokens memo w).2.
Proof.
  induction search_words as [|sw sws IH]; intros memo w Hw; [done|].
  cbn [frequency_loop].
  pose proof (get_lemmas_keeps sw w Hw) as H1.
  destruct (get_lemmas navigium cached_analysis sw w) as [[L|e] w1]; [|done].
  pose proof (scan_text_keeps L tokens 0%nat memo w1 H1) as H2.
  destruct (scan_text navigium cached_analysis L 0 tokens memo w1)
    as [[[ps|e] memo1] w2]; [|done].
  specialize (IH memo1 w2 H2).
  by destruct (frequency_loop navigium cached_analysis sws tokens memo1 w2)
    as [[o memo2] w3].
Qed.

End Kept.

Lemma analysis_ok_grows w w' ta :
  word_cache w ⊆ word_cache w' -> analysis_ok w ta -> analysis_ok w' ta.
Proof.
  intros Hsub [Hnd Hitems]. split; [done|].
  eapply Forall_impl; [exact Hitems|].
  intros item (Htok & l & Hl & Hne & Hc). split; [done|]. exists l.
  split_and!; try done. by eapply lookup_weaken.
Qed.

(** What [analyze_text] returns in all-meanings mode, and the state it
    leaves, satisfy the invariant. *)
Lemma analyze_text_analysis_ok pool text w :
  cache_ok w ->
  cache_ok (analyze_text navigium pool text true w).2
  /\ analysis_ok (analyze_text navigium pool text true w).2
       (analyze_text navigium pool text true w).1.
Proof.
  intros Hw. rewrite analyze_text_unfold. cbn [fst snd].
  set (order := pool (unique_words_of (words_of (preprocess_text text)))).
  pose proof (run_tasks_keeps cache_ok lookup_all_cache_ok order w Hw) as Hw'.
  split; [done|]. split.
  - rewrite assemble_words. apply NoDup_filter, unique_words_of_NoDup.
  - apply Forall_forall. intros item Hitem.
    apply assemble_item in Hitem as (Hin & Hv & _).
    assert (is_token (item_word item)) as Htok
      by (eapply words_of_token, unique_words_of_elem, Hin).
    split; [done|].
    apply collect_lookup in Hv as [Hv|[Hc Htruthy]];
      [by rewrite lookup_empty in Hv|].
    pose proof (run_tasks_all_cached navigium order w _ _ Hc Htruthy) as Hcached.
    destruct (cache_ok_token _ _ _ Hw' Htok Hcached) as (l & Hl & _).
    exists l. rewrite <- Hl. split_and!; try done.
    intros ->. by rewrite Hl in Htruthy.
Qed.

End CacheOk.

(** ** The invariant holds in every state of the server *)

Section Reachable.

Variable navigium : list str -> str -> str + soup.
Variable sha256 : list N -> str.

Lemma api_lookup_server_ok word nr s :
  server_ok s -> server_ok (api_lookup navigium word nr s).2.
Proof.
  intros [Hw Hcache]. unfold api_lookup.
  pose proof (lookup_word_cache_ok navigium word nr _ Hw) as Hw'.
  pose proof (lookup_word_cache_grows navigium word nr (scraper s)) as Hgrow.
  destruct (lookup_word navigium word nr (scraper s)) as [o w1]. simpl in *.
  split; [done|]. intros h ta Hta. eapply analysis_ok_grows; [done|by eapply Hcache].
Qed.

Lemma api_analyze_server_ok pool data s :
  server_ok s -> server_ok (api_analyze navigium pool sha256 data s).2.
Proof.
  intros [Hw Hcache]. unfold api_analyze.
  destruct (data ≫= a_text) as [text|]; [|done].
  destruct (Py.truthy (Py.strip (preprocess_text text))); [|done].
  destruct (get_text_hash sha256 (preprocess_text text)) as [h0|e]; [|done].
  destruct (ANALYSIS_CACHE s !! h0) as [cached|] eqn:Hc; [done|].
  destruct (analyze_text_analysis_ok navigium pool (preprocess_text text)
              (scraper s) Hw) as [Hw' Hta'].
  pose proof (run_tasks_cache_grows navigium true
                (pool (unique_words_of
                         (words_of (preprocess_text (preprocess_text text)))))
                (scraper s)) as Hgrow.
  rewrite analyze_text_unfold in Hw', Hta' |- *. simpl in *.
  split; [done|]. intros h ta. simpl.
  destruct (decide (h0 = h)) as [<-|Hne].
  - rewrite lookup_insert_eq. by intros [= <-].
  - rewrite lookup_insert_ne by done. intros Hta.
    eapply analysis_ok_grows; [done|by eapply Hcache].
Qed.

Lemma api_word_frequency_server_ok data s :
  server_ok s -> server_ok (api_word_frequency navigium sha256 data s).2.
Proof.
  intros [Hw Hcache].
  destruct data as [[[text|] [search_words|]]|]; try done.
  rewrite api_word_frequency_unfold.
  destruct (get_text_hash sha256 (preprocess_text text)) as [h0|e]; [|done].
  cbv zeta. destruct (prefill _ _) as [memo|e]; [|done].
  set (ca := ANALYSIS_CACHE s !! h0).
  pose proof (frequency_loop_keeps navigium cache_ok (lookup_all_cache_ok navigium)
                ca (words_of (preprocess_text text)) search_words memo
                (scraper s) Hw) as Hw'.
  destruct (frequency_loop _ _ _ _ _ _) as [[o memo'] w'] eqn:Hloop.
  apply frequency_loop_gen in Hloop as (_ & Hgrow & _). simpl in *.
  split; [done|]. intros h ta Hta.
  eapply analysis_ok_grows; [done|by eapply Hcache].
Qed.

Lemma get_lemmas_server_ok h word s :
  server_ok s ->
  server_ok {| scraper :=
                 (get_lemmas navigium (ANALYSIS_CACHE s !! h) word (scraper s)).2;
               ANALYSIS_CACHE := ANALYSIS_CACHE s |}.
Proof.
  intros [Hw Hcache]. split; simpl.
  - by apply (get_lemmas_keeps navigium cache_ok (lookup_all_cache_ok navigium)).
  - intros h' ta Hta. eapply analysis_ok_grows; [|by eapply Hcache].
    apply get_lemmas_cache_grows.
Qed.

Lemma reachable_server_ok s : reachable navigium sha256 s -> server_ok s.
Proof.
  induction 1 as [|word nr s _ IH|pool data s _ IH|data s _ IH|h word s _ IH].
  - split.
    + intros k v. simpl. by rewrite lookup_empty.
    + intros h ta. simpl. by rewrite lookup_empty.
  - by apply api_lookup_server_ok.
  - by apply api_analyze_server_ok.
  - by apply api_word_frequency_server_ok.
  - by apply get_lemmas_server_ok.
Qed.

(** With a site that answers by the URL alone, every list of the word
    cache is what the site lists for its word. *)
Lemma reachable_cache_from s :
  stateless navigium ->
  reachable navigium sha256 s -> cache_from navigium (scraper s).
Proof.
  intros Hst.
  induction 1 as [|word nr s _ IH|pool data s _ IH|data s _ IH|h word s _ IH].
  - intros k l. simpl. by rewrite lookup_empty.
  - unfold api_lookup.
    pose proof (lookup_word_cache_from navigium word nr _ IH) as H.
    by destruct (lookup_word navigium word nr (scraper s)).
  - unfold api_analyze.
    destruct (data ≫= a_text) as [text|]; [|done].
    destruct (Py.truthy (Py.strip (preprocess_text text))); [|done].
    destruct (get_text_hash sha256 (preprocess_text text)) as [h0|e]; [|done].
    destruct (ANALYSIS_CACHE s !! h0) as [cached|] eqn:Hc; [done|].
    rewrite analyze_text_unfold. simpl.
    apply (run_tasks_keeps navigium (cache_from navigium)); [|done].
    intros x w. by apply lookup_all_cache_from.
  - destruct data as [[[text|] [search_words|]]|]; try done.
    rewrite api_word_frequency_unfold.
    destruct (get_text_hash sha256 (preprocess_text text)) as [h0|e]; [|done].
    cbv zeta. destruct (prefill _ _) as [memo|e]; [|done]. simpl.
    apply (frequency_loop_keeps navigium (cache_from navigium)); [|done].
    intros x w. by apply lookup_all_cache_from.
  - simpl. apply (get_lemmas_keeps navigium (cache_from navigium)); [|done].
    intros x w. by apply lookup_all_cache_from.
Qed.

End Reachable.

(** ** Lemma sets *)

Lemma lemmas_of_cons m ms :
  lemmas_of (m :: ms)
  = match lemma_first m with Some x => {[x]} ∪ lemmas_of ms | None => lemmas_of ms end.
Proof.
  unfold lemmas_of. cbn [omap list_omap].
  destruct (lemma_first m); [by rewrite list_to_set_cons|done].
Qed.

(** The loop over the meanings adds the normalized first word of every
    lemma. *)
Lemma add_lemmas_spec ms : forall acc,
  Forall lemma_ok ms -> add_lemmas acc ms = Ok (acc ∪ lemmas_of ms).
Proof.
  induction ms as [|m ms IH]; intros acc Hms.
  - simpl. f_equal. unfold lemmas_of. simpl. set_solver.
  - apply Forall_cons in Hms as [Hm Hms]. cbn [add_lemmas].
    rewrite lemmas_of_cons. unfold lemma_first.
    destruct (opt_truthy (lemma m)) eqn:Ht.
    + specialize (Hm Ht).
      destruct (Py.split_ws (default [] (lemma m))) as [|x rest]; [done|].
      rewrite IH by done. simpl. f_equal. set_solver.
    + by apply IH.
Qed.

Lemma collect_lemmas_spec l :
  Forall stored_ok l -> collect_lemmas (CList l) = Ok (lemmas_of l).
Proof.
  intros Hl. simpl. rewrite add_lemmas_spec.
  - f_equal. set_solver.
  - eapply Forall_impl; [exact Hl|]. by intros r [_ ?].
Qed.

Lemma with_self_list word l :
  Forall stored_ok l ->
  with_self word (collect_lemmas (CList l))
  = Ok ({[normalize word]} ∪ lemmas_of l).
Proof. intros Hl. by rewrite collect_lemmas_spec. Qed.

Section GetLemmasOk.

Variable navigium : list str -> str -> str + soup.
Variable cached_analysis : option (list WordAnalysis).

(** In a state that satisfies the invariant, [get_lemmas] raises exactly
    for a word whose key is taken. *)
Lemma get_lemmas_taken x w :
  key_taken cached_analysis w x ->
  get_lemmas navigium cached_analysis x w = (Raise AttributeError, w).
Proof.
  intros [Hf [r Hr]]. rewrite (get_lemmas_lookup _ _ _ _ Hf).
  by rewrite (lookup_all_hit _ _ _ _ Hr).
Qed.

Lemma get_lemmas_ok x w :
  cache_ok w ->
  (forall ta, cached_analysis = Some ta -> analysis_ok w ta) ->
  ¬ key_taken cached_analysis w x ->
  exists l w',
    get_lemmas navigium cached_analysis x w
    = (Ok ({[normalize x]} ∪ lemmas_of l), w')
    /\ grown w w' /\ cache_ok w'
    /\ (stateless navigium -> cache_from navigium w ->
        l = site_meanings navigium (Py.lower x) /\ cache_from navigium w').
Proof.
  intros Hw Hca Hfree.
  destruct (find_item cached_analysis x) as [item|] eqn:Hf.
  - rewrite (get_lemmas_item _ _ _ _ _ Hf).
    apply find_item_Some in Hf as [Hin Hx].
    destruct cached_analysis as [ta|]; [|by apply elem_of_nil in Hin].
    destruct (Hca ta eq_refl) as [_ Hitems]. rewrite Forall_forall in Hitems.
    destruct (Hitems _ Hin) as (Htok & l & Hl & _ & Hc).
    unfold item_word in *. rewrite Hx in Htok, Hc.
    pose proof (Hw _ _ Hc) as Hl_ok. simpl in Hl_ok.
    exists l, w. rewrite Hl, with_self_list by done.
    split; [done|]. split; [apply grown_refl|]. split; [done|].
    intros Hst Hfrom. split; [|done].
    destruct (Hfrom _ _ Hc) as (y & Hy & ->).
    apply app_inv_head in Hy. subst y.
    destruct Htok as (_ & _ & Hlow). by rewrite Hlow.
  - rewrite (get_lemmas_lookup _ _ _ _ Hf).
    pose proof (lookup_all_grown navigium (Py.lower x) w) as Hgrown.
    pose proof (lookup_all_cache_ok navigium (Py.lower x) w Hw) as Hw'.
    pose proof (fun Hst => lookup_all_cache_from navigium (Py.lower x) w Hst)
      as Hfrom'.
    destruct (lookup_all_cases navigium (Py.lower x) w)
      as [(v & Hv & Heq)|[(page & Hmiss & Hp & Heq)|(e & Hmiss & He & Heq)]];
      rewrite Heq in *; cbn [fst snd] in *.
    + destruct v as [r|l].
      { exfalso. apply Hfree. split; [done|]. by exists r. }
      exists l, w. rewrite with_self_list by (by apply (Hw _ _ Hv)).
      split; [done|]. split; [done|]. split; [done|].
      intros Hst Hfrom. split; [|done].
      destruct (Hfrom _ _ Hv) as (y & Hy & ->).
      apply app_inv_head in Hy. by subst y.
    + eexists _, _. rewrite with_self_list by apply all_results_stored_ok.
      split; [done|]. split; [done|]. split; [done|].
      intros Hst Hfrom. split; [|by apply Hfrom'].
      unfold site_meanings. by rewrite (Hst [] (requests w)), Hp.
    + exists [], {| word_cache := word_cache w;
                   requests := requests w ++ [all_url (Py.lower x)] |}.
      split; [by rewrite with_self_list|].
      split; [done|]. split; [done|].
      intros Hst Hfrom. split; [|by apply Hfrom'].
      unfold site_meanings. by rewrite (Hst [] (requests w)), He.
Qed.

End GetLemmasOk.

Lemma key_taken_dec ca w x : {key_taken ca w x} + {¬ key_taken ca w x}.
Proof.
  unfold key_taken. destruct (find_item ca x) as [item|].
  { right. by intros [? _]. }
  destruct (word_cache w !! all_key (Py.lower x)) as [[r|l]|].
  - left. split; [done|]. by exists r.
  - right. by intros [_ [? ?]].
  - right. by intros [_ [? ?]].
Qed.

(** ** A word-frequency request, loop by loop *)

Section FrequencyRun.

Variable navigium : list str -> str -> str + soup.
Variable cached_analysis : option (list WordAnalysis).

(** [J] holds of the states the request goes through; [good x L] of the
    lemma sets [get_lemmas] gives there. *)
Variable J : world -> Prop.
Variable good : str -> gset str -> Prop.

Hypothesis get_ok : forall x w,
  J w -> ¬ key_taken cached_analysis w x ->
  exists L w', get_lemmas navigium cached_analysis x w = (Ok L, w')
               /\ good x L /\ J w' /\ grown w w'.

Hypothesis item_ok : forall item,
  item ∈ analysis_items cached_analysis ->
  exists L, with_self (word item) (collect_lemmas (meanings item)) = Ok L
            /\ good (word item) L.

Lemma prefill_run items : forall memo,
  Forall (fun item => item ∈ analysis_items cached_analysis) items ->
  (forall t T, memo !! t = Some T -> good t T) ->
  exists memo', prefill memo items = Ok memo'
                /\ forall t T, memo' !! t = Some T -> good t T.
Proof.
  induction items as [|item items IH]; intros memo Hitems Hmemo.
  - by exists memo.
  - apply Forall_cons in Hitems as [Hitem Hitems]. cbn [prefill].
    destruct (item_ok _ Hitem) as (L & -> & HL). apply IH; [done|].
    intros t T. destruct (decide (word item = t)) as [<-|Hne].
    + rewrite lookup_insert_eq. by intros [= <-].
    + rewrite lookup_insert_ne by done. apply Hmemo.
Qed.

Lemma text_lemmas_of_run t memo w :
  J w -> (forall t T, memo !! t = Some T -> good t T) ->
  ¬ key_taken cached_analysis w t ->
  exists T memo' w',
    text_lemmas_of navigium cached_analysis t memo w = (Ok T, memo', w')
    /\ memo ⊆ memo' /\ memo' !! t = Some T
    /\ (forall t T, memo' !! t = Some T -> good t T)
    /\ J w' /\ grown w w'.
Proof.
  intros Hw Hmemo Hfree. unfold text_lemmas_of.
  destruct (memo !! t) as [T|] eqn:Hmt.
  - exists T, memo, w. split_and!; try done; apply grown_refl.
  - destruct (get_ok t w Hw Hfree) as (T & w1 & -> & HT & Hw1 & Hgrown).
    exists T, (<[t := T]> memo), w1. split_and!; try done.
    + by apply insert_subseteq.
    + by rewrite lookup_insert_eq.
    + intros x X. destruct (decide (t = x)) as [<-|Hne].
      * rewrite lookup_insert_eq. by intros [= <-].
      * rewrite lookup_insert_ne by done. apply Hmemo.
Qed.

Lemma free_grown (l : list str) w w' :
  grown w w' ->
  Forall (fun t => ¬ key_taken cached_analysis w t) l ->
  Forall (fun t => ¬ key_taken cached_analysis w' t) l.
Proof.
  intros Hg Hl. eapply Forall_impl; [exact Hl|]. intros t Ht Ht'. apply Ht.
  by apply (key_taken_grown _ _ _ _ Hg).
Qed.

Lemma scan_text_run (L : gset str) tokens : forall i memo w,
  J w -> (forall t T, memo !! t = Some T -> good t T) ->
  Forall (fun t => ¬ key_taken cached_analysis w t) tokens ->
  exists memo' w',
    scan_text navigium cached_analysis L i tokens memo w
    = (Ok (matching_positions L (fun t => default ∅ (memo' !! t)) i tokens),
       memo', w')
    /\ memo ⊆ memo'
    /\ (forall t, t ∈ tokens -> is_Some (memo' !! t))
    /\ (forall t T, memo' !! t = Some T -> good t T)
    /\ J w' /\ grown w w'.
Proof.
  induction tokens as [|t tokens IH]; intros i memo w Hw Hmemo Hfree.
  - exists memo, w. split_and!; try done; try apply grown_refl.
    intros t Ht. by apply elem_of_nil in Ht.
  - apply Forall_cons in Hfree as [Ht Hfree]. cbn [scan_text].
    destruct (text_lemmas_of_run t memo w Hw Hmemo Ht)
      as (T & memo1 & w1 & -> & Hsub1 & HT & Hmemo1 & Hw1 & Hg1).
    destruct (IH (S i) memo1 w1 Hw1 Hmemo1 (free_grown _ _ _ Hg1 Hfree))
      as (memo2 & w2 & -> & Hsub2 & Hall & Hmemo2 & Hw2 & Hg2).
    exists memo2, w2.
    assert (memo2 !! t = Some T) as Ht2 by (by eapply lookup_weaken).
    split_and!; try done.
    + cbn [matching_positions]. rewrite Ht2. simpl.
      by rewrite Nat.add_1_r.
    + by transitivity memo1.
    + intros x [->|Hx]%elem_of_cons; [by eexists|by apply Hall].
    + by eapply grown_trans.
Qed.

(** When no search word has its key taken, the outer loop answers: one
    entry per search word, with the lemma set [get_lemmas] gave for it and
    the positions of the tokens whose memoized lemma set meets it. *)
Lemma frequency_loop_run tokens search_words : forall memo w,
  J w -> (forall t T, memo !! t = Some T -> good t T) ->
  Forall (fun t => ¬ key_taken cached_analysis w t) tokens ->
  Forall (fun x => ¬ key_taken cached_analysis w x) search_words ->
  exists ds memo' w',
    frequency_loop navigium cached_analysis search_words tokens memo w
    = (Ok ds, memo', w')
    /\ memo ⊆ memo'
    /\ Forall2 (fun sw d =>
                  search_word d = sw /\ count d = length (positions d)
                  /\ exists L, good sw L /\ lemmas d = elements L
                               /\ positions d
                                  = matching_positions L
                                      (fun t => default ∅ (memo' !! t)) 0 tokens)
               search_words ds
    /\ (search_words ≠ [] -> forall t, t ∈ tokens -> is_Some (memo' !! t))
    /\ (forall t T, memo' !! t = Some T -> good t T)
    /\ J w' /\ grown w w'.
Proof.
  induction search_words as [|sw sws IH]; intros memo w Hw Hmemo Hfree Hsws.
  - exists [], memo, w. split_and!; try done; try apply grown_refl.
  - apply Forall_cons in Hsws as [Hsw Hsws]. cbn [frequency_loop].
    destruct (get_ok sw w Hw Hsw) as (L & w1 & -> & HL & Hw1 & Hg1).
    destruct (scan_text_run L tokens 0%nat memo w1 Hw1 Hmemo
                (free_grown _ _ _ Hg1 Hfree))
      as (memo1 & w2 & -> & Hsub1 & Hall & Hmemo1 & Hw2 & Hg2).
    pose proof (grown_trans _ _ _ Hg1 Hg2) as Hg12.
    destruct (IH memo1 w2 Hw2 Hmemo1 (free_grown _ _ _ Hg12 Hfree)
                (free_grown _ _ _ Hg12 Hsws))
      as (ds & memo2 & w3 & -> & Hsub2 & Hds & _ & Hmemo2 & Hw3 & Hg3).
    assert (forall t, t ∈ tokens -> memo2 !! t = memo1 !! t) as Hsame.
    { intros t Ht. destruct (Hall t Ht) as [T HT]. rewrite HT.
      by eapply lookup_weaken. }
    eexists _, memo2, w3. split; [reflexivity|].
    split; [by transitivity memo1|].
    split; [|split; [|split; [done|split; [done|by eapply grown_trans]]]].
    + constructor; [|done]. split; [done|]. split; [done|].
      exists L. split; [done|]. split; [done|]. simpl.
      apply matching_positions_ext. intros t Ht. by rewrite Hsame.
    + intros _ t Ht. rewrite Hsame by done. by apply Hall.
Qed.

Hypothesis get_taken : forall x w,
  key_taken cached_analysis w x ->
  get_lemmas navigium cached_analysis x w = (Raise AttributeError, w).

(** When the key of a search word is taken, the loop raises. *)
Lemma frequency_loop_raises tokens search_words : forall memo w,
  J w -> (forall t T, memo !! t = Some T -> good t T) ->
  Forall (fun t => ¬ key_taken cached_analysis w t) tokens ->
  Exists (key_taken cached_analysis w) search_words ->
  (frequency_loop navigium cached_analysis search_words tokens memo w).1.1
  = Raise AttributeError.
Proof.
  induction search_words as [|sw sws IH]; intros memo w Hw Hmemo Hfree Hsws.
  - by apply Exists_nil in Hsws.
  - cbn [frequency_loop].
    destruct (key_taken_dec cached_analysis w sw) as [Hsw|Hsw].
    { by rewrite (get_taken _ _ Hsw). }
    apply Exists_cons in Hsws as [?|Hsws]; [done|].
    destruct (get_ok sw w Hw Hsw) as (L & w1 & -> & HL & Hw1 & Hg1).
    destruct (scan_text_run L tokens 0%nat memo w1 Hw1 Hmemo
                (free_grown _ _ _ Hg1 Hfree))
      as (memo1 & w2 & -> & Hsub1 & Hall & Hmemo1 & Hw2 & Hg2).
    pose proof (grown_trans _ _ _ Hg1 Hg2) as Hg12.
    assert (Exists (key_taken cached_analysis w2) sws) as Hsws2.
    { eapply Exists_impl; [exact Hsws|]. intros x Hx.
      by apply (key_taken_grown _ _ _ _ Hg12). }
    specialize (IH memo1 w2 Hw2 Hmemo1 (free_grown _ _ _ Hg12 Hfree) Hsws2).
    destruct (frequency_loop navigium cached_analysis sws tokens memo1 w2)
      as [[o memo2] w3]. simpl in *. by rewrite IH.
Qed.

End FrequencyRun.

(** ** A word-frequency request in a state of the server *)

Lemma analysis_items_elem (ca : option (list WordAnalysis)) item :
  item ∈ analysis_items ca -> exists ta, ca = Some ta /\ item ∈ ta.
Proof.
  destruct ca as [ta|]; [by exists ta|]. intros H. by apply elem_of_nil in H.
Qed.

Section Request.

Variable navigium : list str -> str -> str + soup.
Variable sha256 : list N -> str.
Variable s : server.
Hypothesis s_reachable : reachable navigium sha256 s.

Variable cached_analysis : option (list WordAnalysis).
Hypothesis cached : exists h, cached_analysis = ANALYSIS_CACHE s !! h.

Lemma request_analysis_ok w ta :
  request_state navigium s w -> cached_analysis = Some ta -> analysis_ok w ta.
Proof.
  intros (_ & (Hsub & _) & _) Hta. destruct cached as [h Hh].
  destruct (reachable_server_ok _ _ _ s_reachable) as [_ Hcache].
  eapply analysis_ok_grows; [done|]. eapply Hcache. by rewrite <- Hh.
Qed.

Lemma request_start : request_state navigium s (scraper s).
Proof.
  split_and!.
  - by destruct (reachable_server_ok _ _ _ s_reachable).
  - apply grown_refl.
  - intros Hst. by eapply reachable_cache_from.
Qed.

Lemma request_get_ok x w :
  request_state navigium s w -> ¬ key_taken cached_analysis w x ->
  exists L w', get_lemmas navigium cached_analysis x w = (Ok L, w')
               /\ request_set navigium x L /\ request_state navigium s w' /\ grown w w'.
Proof.
  intros Hw Hfree. pose proof Hw as (Hok & Hg & Hfrom).
  destruct (get_lemmas_ok navigium cached_analysis x w Hok
              (fun ta => request_analysis_ok w ta Hw) Hfree)
    as (l & w' & Heq & Hg' & Hok' & Hexact).
  eexists _, w'. split; [exact Heq|]. split_and!; try done.
  - split; [set_solver|]. intros Hst.
    destruct (Hexact Hst (Hfrom Hst)) as [-> _]. done.
  - split_and!; try done; [by eapply grown_trans|].
    intros Hst. by destruct (Hexact Hst (Hfrom Hst)).
Qed.

Lemma request_item_ok item :
  item ∈ analysis_items cached_analysis ->
  exists L, with_self (word item) (collect_lemmas (meanings item)) = Ok L
            /\ request_set navigium (word item) L.
Proof.
  intros Hin. apply analysis_items_elem in Hin as (ta & Hca & Hin).
  pose proof request_start as Hw. pose proof Hw as (Hok & _ & Hfrom).
  destruct (request_analysis_ok _ ta Hw Hca) as [_ Hitems].
  rewrite Forall_forall in Hitems.
  destruct (Hitems _ Hin) as (Htok & l & Hl & _ & Hc).
  unfold item_word in *. pose proof (Hok _ _ Hc) as Hl_ok. simpl in Hl_ok.
  eexists. rewrite Hl, with_self_list by done. split; [done|].
  split; [set_solver|]. intros Hst.
  destruct (Hfrom Hst _ _ Hc) as (y & Hy & ->). apply app_inv_head in Hy.
  subst y. unfold lemma_set. destruct Htok as (_ & _ & ->). done.
Qed.

Lemma request_token_free t w :
  request_state navigium s w -> is_token t -> ¬ key_taken cached_analysis w t.
Proof.
  intros (Hok & _) Htok [_ [r Hr]].
  destruct Htok as (H1 & H2 & Hlow). rewrite Hlow in Hr.
  by destruct (cache_ok_token _ _ _ Hok (conj H1 (conj H2 Hlow)) Hr) as (l & ? & _).
Qed.

End Request.

(** The outcome of a well-formed word-frequency request in a state of the
    server. *)
Lemma frequency_request_outcome navigium sha256 text search_words s h :
  reachable navigium sha256 s ->
  get_text_hash sha256 (preprocess_text text) = Ok h ->
  let tokens := words_of (preprocess_text text) in
  let taken := key_taken (ANALYSIS_CACHE s !! h) (scraper s) in
  let r := (api_word_frequency navigium sha256
              (Some {| f_text := Some text; f_search_words := Some search_words |})
              s).1 in
  (Exists taken search_words -> r = Raise AttributeError)
  /\ (Forall (fun sw => ¬ taken sw) search_words ->
      exists body,
        r = Ok (Status200 body)
        /\ total_words body = length tokens
        /\ Forall2 (fun sw d =>
                      search_word d = sw
                      /\ count d = length (positions d)
                      /\ normalize sw ∈ lemmas d
                      /\ (stateless navigium ->
                          lemmas d = elements (lemma_set navigium sw)
                          /\ positions d
                             = matching_positions (lemma_set navigium sw)
                                 (lemma_set navigium) 0 tokens))
                   search_words (word_data body)).
Proof.
  intros Hs Hh tokens taken r. subst r taken.
  rewrite api_word_frequency_unfold, Hh. cbv zeta. fold tokens.
  set (ca := ANALYSIS_CACHE s !! h).
  assert (exists h', ca = ANALYSIS_CACHE s !! h') as Hca by (by exists h).
  pose proof (request_get_ok navigium sha256 s Hs ca Hca) as Hget.
  pose proof (request_item_ok navigium sha256 s Hs ca Hca) as Hitem.
  pose proof (request_start navigium sha256 s Hs) as Hstart.
  destruct (prefill_run ca (request_set navigium) Hitem (analysis_items ca) ∅)
    as (memo & -> & Hmemo).
  { by apply Forall_forall. }
  { intros t T. by rewrite lookup_empty. }
  assert (Forall (fun t => ¬ key_taken ca (scraper s) t) tokens) as Hfree.
  { apply Forall_forall. intros t Ht.
    eapply request_token_free; [exact Hstart|by eapply words_of_token]. }
  split.
  - intros Htaken.
    pose proof (frequency_loop_raises navigium ca (request_state navigium s)
                  (request_set navigium) Hget (get_lemmas_taken navigium ca)
                  tokens search_words memo (scraper s) Hstart Hmemo Hfree Htaken)
      as Hraise.
    simpl. by rewrite Hraise.
  - intros Hsws.
    destruct (frequency_loop_run navigium ca (request_state navigium s)
                (request_set navigium) Hget tokens search_words memo (scraper s)
                Hstart Hmemo Hfree Hsws)
      as (ds & memo' & w' & -> & _ & Hds & Hall & Hmemo' & _).
    simpl. eexists. split; [reflexivity|]. split; [done|]. simpl.
    destruct search_words as [|sw0 sws0] eqn:Hsw; [inversion Hds; constructor|].
    specialize (Hall ltac:(done)).
    eapply Forall2_impl; [exact Hds|].
    intros sw d (H1 & H2 & L & [HL1 HL2] & H3 & H4).
    split; [done|]. split; [done|].
    split; [rewrite H3; by apply elem_of_elements|].
    intros Hst. rewrite H3, H4, (HL2 Hst). split; [done|].
    apply matching_positions_ext. intros t Ht.
    destruct (Hall t Ht) as [T HT]. rewrite HT. simpl.
    by destruct (Hmemo' _ _ HT) as [_ ->].
Qed.

(** ** What the claims say of these states *)

(** C5: in every state of the server, [get_lemmas] either returns a lemma
    set or raises [AttributeError]; it raises exactly when the analysis
    has no item for the word and the "all" key of the lowercased word
    holds a record that [lookup_word] stored.  Every set it returns, in
    whatever state, contains the normalized (lowercased, macron-stripped)
    word and so is not empty; when nothing is cached for the word and the
    site fails or lists no form, the set is the normalized word alone. *)
Theorem get_lemmas_contains_word navigium sha256 s h word :
  reachable navigium sha256 s ->
  let ca := ANALYSIS_CACHE s !! h in
  let r := (get_lemmas navigium ca word (scraper s)).1 in
  (forall ca' w' L,
     (get_lemmas navigium ca' word w').1 = Ok L -> normalize word ∈ L /\ L ≠ ∅)
  /\ ((exists L, r = Ok L) \/ r = Raise AttributeError)
  /\ (r = Raise AttributeError <-> key_taken ca (scraper s) word)
  /\ (find_item ca word = None ->
      word_cache (scraper s) !! all_key (Py.lower word) = None ->
      match navigium (requests (scraper s)) (all_url (Py.lower word)) with
      | inr page => all_results (forms_containers page) (Py.lower word) = []
      | inl _ => True
      end ->
      r = Ok {[normalize word]}).
Proof.
  intros Hs ca r. subst r.
  destruct (reachable_server_ok _ _ _ Hs) as [Hok Hcache].
  split; [intros ca' w' L; apply get_lemmas_self|].
  assert (¬ key_taken ca (scraper s) word ->
          exists L, (get_lemmas navigium ca word (scraper s)).1 = Ok L) as Hfree.
  { intros Hfree.
    destruct (get_lemmas_ok navigium ca word (scraper s) Hok) as (l & w' & -> & _);
      [intros ta Hta; by eapply Hcache|done|by eexists]. }
  split_and!.
  - destruct (key_taken_dec ca (scraper s) word) as [Ht|Ht].
    + right. by rewrite (get_lemmas_taken _ _ _ _ Ht).
    + left. by apply Hfree.
  - split.
    + intros Hr. destruct (key_taken_dec ca (scraper s) word) as [Ht|Ht]; [done|].
      destruct (Hfree Ht) as [L HL]. congruence.
    + intros Ht. by rewrite (get_lemmas_taken _ _ _ _ Ht).
  - intros Hf Hmiss Hsite. rewrite (get_lemmas_lookup _ _ _ _ Hf). simpl.
    destruct (lookup_all_cases navigium (Py.lower word) (scraper s))
      as [(v & Hv & _)|[(page & _ & Hp & ->)|(e & _ & _ & ->)]]; simpl.
    + congruence.
    + rewrite Hp in Hsite. rewrite Hsite. simpl. f_equal. set_solver.
    + f_equal. set_solver.
Qed.

Lemma get_lemmas_contains_word_witness :
  reachable Double.always Double.digest Double.s2
  /\ (get_lemmas Double.always None (lit "Rosa") (scraper Double.s2)).1
     = Ok {[lit "rosa"; lit "amo"]}
  /\ (get_lemmas Double.always None (lit "rosa_1") (scraper Double.s2)).1
     = Raise AttributeError
  /\ ((exists L, (get_lemmas Double.always (ANALYSIS_CACHE Double.s2 !! [])
                    (lit "Rosa") (scraper Double.s2)).1 = Ok L)
      \/ (get_lemmas Double.always (ANALYSIS_CACHE Double.s2 !! [])
            (lit "Rosa") (scraper Double.s2)).1 = Raise AttributeError).
Proof.
  assert (reachable Double.always Double.digest Double.s2) as H
    by apply reachable_lookup, reachable_start.
  split; [exact H|]. split; [vm_compute; f_equal|]. split; [reflexivity|].
  exact (proj1 (proj2 (get_lemmas_contains_word Double.always Double.digest
                         Double.s2 [] (lit "Rosa") H))).
Defined.

(** C2: in every state of the server, a search word whose lowercased form
    is a word of a cached analysis gets the lemma set of that word's item,
    the set the analysis branch of [get_lemmas] computes from the item's
    meanings, whatever its casing; the call returns, sends no request and
    leaves the state as it is.  ([get_lemmas] compares the search word as
    given; in another casing the word is looked up in lower case, and the
    word cache then holds the very list the analysis holds.) *)
Theorem get_lemmas_reuse navigium sha256 s h ta item word :
  reachable navigium sha256 s ->
  ANALYSIS_CACHE s !! h = Some ta ->
  item ∈ ta ->
  Py.lower word = item_word item ->
  exists l,
    meanings item = CList l
    /\ get_lemmas navigium (Some ta) word (scraper s)
       = (Ok ({[normalize word]} ∪ lemmas_of l), scraper s)
    /\ with_self word (collect_lemmas (meanings item))
       = Ok ({[normalize word]} ∪ lemmas_of l).
Proof.
  intros Hs Hta Hin Hlow.
  destruct (reachable_server_ok _ _ _ Hs) as [Hok Hcache].
  destruct (Hcache _ _ Hta) as [Hnd Hitems]. rewrite Forall_forall in Hitems.
  destruct (Hitems _ Hin) as (Htok & l & Hl & _ & Hc).
  pose proof (Hok _ _ Hc) as Hl_ok. simpl in Hl_ok.
  exists l. split; [done|]. rewrite Hl, with_self_list by done.
  split; [|done].
  destruct (find_item (Some ta) word) as [item'|] eqn:Hf.
  - rewrite (get_lemmas_item _ _ _ _ _ Hf).
    assert (item' = item) as ->.
    { pose proof (find_item_Some _ _ _ Hf) as [Hin' Hword]. simpl in Hin'.
      destruct (Hitems _ Hin') as ((_ & _ & Hlow') & _).
      unfold item_word in *. rewrite Hword in Hlow'. rewrite Hlow' in Hlow.
      pose proof (find_item_NoDup (Some ta) item Hnd Hin) as Hitem.
      unfold item_word in Hitem. rewrite <- Hlow in Hitem. congruence. }
    by rewrite Hl, with_self_list.
  - rewrite (get_lemmas_lookup _ _ _ _ Hf), Hlow.
    rewrite (lookup_all_hit _ _ _ _ Hc). simpl fst. simpl snd.
    by rewrite with_self_list.
Qed.

Lemma get_lemmas_reuse_witness :
  reachable Double.site Double.digest Double.s1
  /\ ANALYSIS_CACHE Double.s1 !! lit "Puella" = Some Double.puella_analysis
  /\ Py.lower (lit "PUELLA") = lit "puella"
  /\ requests (scraper Double.s1) = [all_url (lit "puella")]
  /\ exists l,
       CList [Double.puella_record] = CList l
       /\ get_lemmas Double.site (Some Double.puella_analysis) (lit "PUELLA")
            (scraper Double.s1)
          = (Ok ({[normalize (lit "PUELLA")]} ∪ lemmas_of l), scraper Double.s1)
       /\ with_self (lit "PUELLA") (collect_lemmas (CList [Double.puella_record]))
          = Ok ({[normalize (lit "PUELLA")]} ∪ lemmas_of l).
Proof.
  assert (reachable Double.site Double.digest Double.s1) as H1
    by apply reachable_analyze, reachable_start.
  assert (ANALYSIS_CACHE Double.s1 !! lit "Puella" = Some Double.puella_analysis)
    as H2 by (vm_compute; reflexivity).
  split; [exact H1|]. split; [exact H2|]. split; [reflexivity|].
  split; [reflexivity|].
  apply (get_lemmas_reuse Double.site Double.digest Double.s1 (lit "Puella")
           Double.puella_analysis
           {| word := lit "puella"; meanings := CList [Double.puella_record];
              has_multiple := false |} (lit "PUELLA") H1 H2).
  - left.
  - reflexivity.
Defined.



Lemma taken_or_free ca w (l : list str) :
  Exists (key_taken ca w) l \/ Forall (fun x => ¬ key_taken ca w x) l.
Proof.
  induction l as [|x l [IH|IH]].
  - right. constructor.
  - left. by right.
  - destruct (key_taken_dec ca w x); [left; by left|right; by constructor].
Qed.

(** The invariant of the server state holds in every state of the server.
    There, a word-frequency request with a text and search words raises
    in two cases only: [UnicodeEncodeError] when the text holds a
    surrogate, before anything is changed, and [AttributeError] when a
    search word has its key taken; otherwise it is answered. *)
Theorem server_invariant navigium sha256 s :
  reachable navigium sha256 s ->
  server_ok s
  /\ forall text search_words,
       let r := api_word_frequency navigium sha256
                  (Some {| f_text := Some text;
                           f_search_words := Some search_words |}) s in
       (existsb is_surrogate text = true -> r = (Raise UnicodeEncodeError, s))
       /\ (existsb is_surrogate text = false ->
           exists h,
             get_text_hash sha256 (preprocess_text text) = Ok h
             /\ (Exists (key_taken (ANALYSIS_CACHE s !! h) (scraper s)) search_words
                 <-> r.1 = Raise AttributeError)
             /\ (Forall (fun x => ¬ key_taken (ANALYSIS_CACHE s !! h) (scraper s) x)
                        search_words
                 <-> exists body, r.1 = Ok (Status200 body)))
       /\ (forall e, r.1 = Raise e -> e = UnicodeEncodeError \/ e = AttributeError).
Proof.
  intros Hs. split; [by eapply reachable_server_ok|].
  intros text search_words r. subst r.
  pose proof (get_text_hash_cases sha256 (preprocess_text text)) as Hh.
  rewrite preprocess_text_surrogate in Hh.
  destruct (existsb is_surrogate text) eqn:Hsur.
  - rewrite api_word_frequency_unfold, Hh. split_and!; try done.
    intros e [= <-]. by left.
  - destruct Hh as [h Hh].
    destruct (frequency_request_outcome navigium sha256 text search_words s h
                Hs Hh) as [Hraise Hanswer].
    pose proof (taken_or_free (ANALYSIS_CACHE s !! h) (scraper s) search_words)
      as Hcases.
    split_and!; try done.
    + intros _. exists h. split; [done|]. split; split; try done.
      * intros Hr. destruct Hcases as [?|Hfree]; [done|].
        destruct (Hanswer Hfree) as (body & Hbody & _). congruence.
      * intros Hfree. destruct (Hanswer Hfree) as (body & Hbody & _). by exists body.
      * intros [body Hbody]. destruct Hcases as [Ht|?]; [|done].
        rewrite (Hraise Ht) in Hbody. discriminate.
    + intros e He. destruct Hcases as [Ht|Hfree].
      * rewrite (Hraise Ht) in He. injection He as <-. by right.
      * destruct (Hanswer Hfree) as (body & Hbody & _). congruence.
Qed.

Lemma server_invariant_witness :
  reachable Double.always Double.digest Double.s2
  /\ server_ok Double.s2
  /\ api_word_frequency Double.always Double.digest
       (Some {| f_text := Some (lit "Rosa"); f_search_words := Some [lit "rosa_1"] |})
       Double.s2
     = (Raise AttributeError, Double.s2)
  /\ api_word_frequency Double.always Double.digest
       (Some {| f_text := Some [55296%N]; f_search_words := Some [] |}) Double.s2
     = (Raise UnicodeEncodeError, Double.s2).
Proof.
  assert (reachable Double.always Double.digest Double.s2) as H
    by apply reachable_lookup, reachable_start.
  split; [exact H|].
  split; [exact (proj1 (server_invariant Double.always Double.digest Double.s2 H))|].
  split; [vm_compute; reflexivity|].
  exact (proj1 (proj2 (server_invariant Double.always Double.digest Double.s2 H)
                  [55296%N] []) eq_refl).
Defined.

(** * The entries of an analysis *)

(** *** Each task is the lookup of its word *)

Section Histories.

Variable navigium : list str -> str -> str + soup.
Variable fam : bool.




End Histories.



